(** * Transactional command engine: commands, atomic composites, retry, queue

    A shallow embedding of the command-pattern modules of the repository
    ([atomic_transfer_command.py], [device_command_runner.py],
    [text_editor_command.py], [queued_command_bus.py]) and the proofs of
    the properties their specification states.

    Modelling conventions.
    - A Python object that is shared by reference (a bank account, a PLC
      device, a text buffer) lives in a store ([gmap] from addresses to
      records); commands hold addresses.
    - A command object is a record of its base-class fields together with
      the fields its subclass adds; a composite owns its sub-commands, so
      the list [_items] holds the sub-commands' current field values and a
      method call on a sub-command returns its updated fields.
    - A method that may raise returns the exception it raised (if any)
      together with the state it left behind: nothing is rolled back by a
      raise.
    - Logging calls have no effect on state or control flow and are left
      out.  Where a property speaks about which calls were made, the
      model returns a ghost trace of the calls on direct sub-commands.
    - A loop bounded by a counter ([while attempts < total],
      [while steps < max_steps]) is recursion on the number of
      iterations that remain.

    The file has four parts: the model (one module per source file,
    each ending with the vocabulary its statements use), the proofs (one
    module of facts per source file, then the repository's tests run on
    the model), the properties of the specification, and further
    properties of the code (one module per source file). *)

From Stdlib Require Import ZArith String List Bool Lia DecimalString.
From stdpp Require Import base option list gmap strings.

#[local] Set Warnings "-register-all".
Open Scope string_scope.
Open Scope list_scope.
Open Scope Z_scope.

(** ** Exceptions *)

(** The exception classes the modules raise, and two open-ended classes
    for exceptions raised by code outside the engine: [UserException]
    derives from [Exception], [BaseOnly] derives from [BaseException]
    only (as [KeyboardInterrupt] or [SystemExit] do). *)
Inductive exn_class :=
| AccountError
| TransactionError
| DeviceError
| CommandError
| EmptyQueueError
| IndexError
| ValueError
| RuntimeError
| UserException (name : string)
| BaseOnly (name : string).

(** An exception value: class, message, and the exception it was raised
    [from] (Python's [__cause__]; [TransactionError] stores the same
    object in [cause]). *)
Inductive exn :=
| PyExn (cls : exn_class) (msg : string) (cause : option exn).

Definition exn_cls (e : exn) : exn_class := let 'PyExn c _ _ := e in c.
Definition exn_msg (e : exn) : string := let 'PyExn _ m _ := e in m.
Definition exn_cause (e : exn) : option exn := let 'PyExn _ _ c := e in c.

(** The class named in an [except] clause. *)
Inductive except_clause := ExceptBaseException | ExceptException | ExceptClass (c : exn_class).

Definition exn_class_eqb (a b : exn_class) : bool :=
  match a, b with
  | AccountError, AccountError | TransactionError, TransactionError
  | DeviceError, DeviceError | CommandError, CommandError
  | EmptyQueueError, EmptyQueueError | IndexError, IndexError
  | ValueError, ValueError | RuntimeError, RuntimeError => true
  | UserException n, UserException m | BaseOnly n, BaseOnly m => String.eqb n m
  | _, _ => false
  end.

Definition derives_from_Exception (c : exn_class) : bool :=
  match c with
  | BaseOnly _ => false
  | _ => true
  end.

(** [EmptyQueueError] subclasses [IndexError]; the other classes of the
    modules subclass [RuntimeError] or are builtin leaves. *)
Definition subclass_of (c parent : exn_class) : bool :=
  exn_class_eqb c parent ||
  match c, parent with
  | EmptyQueueError, IndexError => true
  | (AccountError | TransactionError | DeviceError | CommandError), RuntimeError => true
  | _, _ => false
  end.

Definition catches (h : except_clause) (e : exn) : bool :=
  match h with
  | ExceptBaseException => true
  | ExceptException => derives_from_Exception (exn_cls e)
  | ExceptClass c => subclass_of (exn_cls e) c
  end.

(** Python's [str] on an [int]. *)
Definition str_int (z : Z) : string := NilZero.string_of_int (Z.to_int z).

(** What a call that returns a value produced: the value, or the
    exception it raised. *)
Inductive outcome (A : Type) :=
| Return (a : A)
| Raise (e : exn).
Arguments Return {A} _.
Arguments Raise {A} _.

(** ** atomic_transfer_command.py *)
Module AtomicTransfer.

Abbreviation addr := nat.

Record BankAccount := mkBankAccount {
  name : string;
  balance_cents : Z;
  overdraft_limit_cents : Z
}.

#[global] Instance BankAccount_inhabited : Inhabited BankAccount :=
  populate (mkBankAccount EmptyString 0 0).

(** The store of account objects. *)
Abbreviation Bank := (gmap addr BankAccount).

Definition set_balance (b : Z) (acct : BankAccount) : BankAccount :=
  mkBankAccount (name acct) b (overdraft_limit_cents acct).

(** [BankAccount.deposit] *)
Definition deposit (self : addr) (amount_cents : Z) (w : Bank) : option exn * Bank :=
  if amount_cents <? 0 then
    (Some (PyExn AccountError "Deposit amount must be non-negative." None), w)
  else
    let acct := w !!! self in
    (None, <[self := set_balance (balance_cents acct + amount_cents) acct]> w).

(** [BankAccount.withdraw] *)
Definition withdraw (self : addr) (amount_cents : Z) (w : Bank) : option exn * Bank :=
  if amount_cents <? 0 then
    (Some (PyExn AccountError "Withdraw amount must be non-negative." None), w)
  else
    let acct := w !!! self in
    let next_balance := balance_cents acct - amount_cents in
    if next_balance <? - overdraft_limit_cents acct then
      (Some (PyExn AccountError "Insufficient funds (overdraft limit exceeded)." None), w)
    else
      (None, <[self := set_balance next_balance acct]> w).

(** The base class [Command]: its two fields, and the fields [X] of the
    subclass. *)
Record Command (X : Type) := mkCommand {
  _description : string;
  _executed : bool;
  fields : X
}.
Arguments mkCommand {X} _ _ _.
Arguments _description {X} _.
Arguments _executed {X} _.
Arguments fields {X} _.

Definition description {X} (c : Command X) : string := _description c.
Definition executed {X} (c : Command X) : bool := _executed c.
Definition set_executed {X} (b : bool) (c : Command X) : Command X :=
  mkCommand (_description c) b (fields c).

(** The abstract methods: each returns the exception raised (if any), the
    command's fields and the world as the call left them. *)
Class Methods (W X : Type) := {
  execute : Command X -> W -> option exn * Command X * W;
  undo : Command X -> W -> option exn * Command X * W
}.

(** [DepositCommand] and [WithdrawCommand]: the receiver and the amount. *)
Inductive LedgerFields :=
| DepositF (_account : addr) (_amount : Z)
| WithdrawF (_account : addr) (_amount : Z).

Definition DepositCommand (w : Bank) (account : addr) (amount_cents : Z) : Command LedgerFields :=
  mkCommand ("Deposit " +:+ str_int amount_cents +:+ "c to " +:+ name (w !!! account))
            false (DepositF account amount_cents).

Definition WithdrawCommand (w : Bank) (account : addr) (amount_cents : Z) : Command LedgerFields :=
  mkCommand ("Withdraw " +:+ str_int amount_cents +:+ "c from " +:+ name (w !!! account))
            false (WithdrawF account amount_cents).

Definition ledger_execute (self : Command LedgerFields) (w : Bank)
  : option exn * Command LedgerFields * Bank :=
  match fields self with
  | DepositF account amount =>
      match deposit account amount w with
      | (Some e, w') => (Some e, self, w')
      | (None, w') => (None, set_executed true self, w')
      end
  | WithdrawF account amount =>
      match withdraw account amount w with
      | (Some e, w') => (Some e, self, w')
      | (None, w') => (None, set_executed true self, w')
      end
  end.

Definition ledger_undo (self : Command LedgerFields) (w : Bank)
  : option exn * Command LedgerFields * Bank :=
  if negb (_executed self) then (None, self, w)
  else
    match fields self with
    | DepositF account amount =>
        match withdraw account amount w with
        | (Some e, w') => (Some e, self, w')
        | (None, w') => (None, set_executed false self, w')
        end
    | WithdrawF account amount =>
        match deposit account amount w with
        | (Some e, w') => (Some e, self, w')
        | (None, w') => (None, set_executed false self, w')
        end
    end.

#[global] Instance ledger_methods : Methods Bank LedgerFields :=
  {| execute := ledger_execute; undo := ledger_undo |}.

(** Ghost trace of the calls a composite makes on its direct
    sub-commands, by index in [_items]. *)
Inductive call := CallExecute (i : nat) | CallUndo (i : nat).

(** [AtomicCompositeCommand]: the fields it adds to [Command]. *)
Record Composite (X : Type) := mkComposite {
  _items : list (Command X);
  _executed_count : nat
}.
Arguments mkComposite {X} _ _.
Arguments _items {X} _.
Arguments _executed_count {X} _.

Section Engine.
Context {W X : Type} `{!Methods W X}.

(** [AtomicCompositeCommand(description, items)] *)
Definition AtomicCompositeCommand (description : string) (items : list (Command X))
  : Command (Composite X) :=
  mkCommand description false (mkComposite items 0).

(** [add] *)
Definition add (cmd : Command X) (self : Command (Composite X)) : Command (Composite X) :=
  mkCommand (_description self) (_executed self)
    (mkComposite (_items (fields self) ++ [cmd]) (_executed_count (fields self))).

(** The body of the [try] block of [execute]:
    [for cmd in self._items: cmd.execute(); self._executed_count += 1].
    [todo] is the part of [_items] not yet visited; the result carries
    the visited part's updated fields, the counter, the world and the
    calls made. *)
Fixpoint execute_loop (todo : list (Command X)) (count : nat) (w : W)
  : option exn * list (Command X) * nat * W * list call :=
  match todo with
  | [] => (None, [], count, w, [])
  | cmd :: rest =>
      match execute cmd w with
      | (Some exc, cmd', w') => (Some exc, cmd' :: rest, count, w', [CallExecute count])
      | (None, cmd', w') =>
          let '(r, rest', count', w'', tr) := execute_loop rest (S count) w' in
          (r, cmd' :: rest', count', w'', CallExecute count :: tr)
      end
  end.

(** The rollback loop, over [reversed(self._items[:count])]: each
    [undo] is called inside [try ... except BaseException: pass], so
    whatever it raises is dropped.  [cmds] is already reversed: the
    index of its head in [_items] is the length of its tail. *)
Fixpoint rollback_loop (cmds : list (Command X)) (w : W)
  : list (Command X) * W * list call :=
  match cmds with
  | [] => ([], w, [])
  | cmd :: rest =>
      let '(_, cmd', w') := undo cmd w in
      let '(rest', w'', tr) := rollback_loop rest w' in
      (cmd' :: rest', w'', CallUndo (length rest) :: tr)
  end.

(** The loop of [undo], over the same reversed slice, where an
    exception of a sub-command's [undo] propagates. *)
Fixpoint undo_loop (cmds : list (Command X)) (w : W)
  : option exn * list (Command X) * W * list call :=
  match cmds with
  | [] => (None, [], w, [])
  | cmd :: rest =>
      match undo cmd w with
      | (Some exc, cmd', w') => (Some exc, cmd' :: rest, w', [CallUndo (length rest)])
      | (None, cmd', w') =>
          let '(r, rest', w'', tr) := undo_loop rest w' in
          (r, cmd' :: rest', w'', CallUndo (length rest) :: tr)
      end
  end.

(** Writing the visited, reversed slice back over the front of
    [_items]. *)
Definition write_back (visited_rev : list (Command X)) (count : nat) (items : list (Command X))
  : list (Command X) :=
  rev visited_rev ++ drop count items.

(** [AtomicCompositeCommand.execute], with the calls it made. *)
Definition composite_execute (self : Command (Composite X)) (w : W)
  : option exn * Command (Composite X) * W * list call :=
  let '(r, items1, count, w1, tr1) := execute_loop (_items (fields self)) 0 w in
  match r with
  | None =>
      (None, mkCommand (_description self) true (mkComposite items1 count), w1, tr1)
  | Some exc =>
      if catches ExceptBaseException exc then
        let '(undone, w2, tr2) := rollback_loop (rev (take count items1)) w1 in
        (Some (PyExn TransactionError "Atomic composite failed and was rolled back." (Some exc)),
         mkCommand (_description self) false (mkComposite (write_back undone count items1) count),
         w2, tr1 ++ tr2)
      else
        (Some exc, mkCommand (_description self) (_executed self) (mkComposite items1 count), w1, tr1)
  end.

(** [AtomicCompositeCommand.undo], with the calls it made. *)
Definition composite_undo (self : Command (Composite X)) (w : W)
  : option exn * Command (Composite X) * W * list call :=
  if negb (_executed self) then (None, self, w, [])
  else
    let items := _items (fields self) in
    let count := _executed_count (fields self) in
    match undo_loop (rev (take count items)) w with
    | (Some exc, undone, w', tr) =>
        (Some exc, mkCommand (_description self) (_executed self)
                     (mkComposite (write_back undone count items) count), w', tr)
    | (None, undone, w', tr) =>
        (None, mkCommand (_description self) false
                 (mkComposite (write_back undone count items) 0), w', tr)
    end.

(** A composite is itself a command. *)
#[global] Instance composite_methods : Methods W (Composite X) :=
  {| execute := fun self w => (composite_execute self w).1;
     undo := fun self w => (composite_undo self w).1 |}.
End Engine.

(** [TransferCommand(source, destination, amount_cents)] *)
Definition TransferCommand (w : Bank) (source destination : addr) (amount_cents : Z)
  : Command (Composite LedgerFields) :=
  add (DepositCommand w destination amount_cents)
    (add (WithdrawCommand w source amount_cents)
       (AtomicCompositeCommand
          ("Transfer " +:+ str_int amount_cents +:+ "c " +:+ name (w !!! source)
             +:+ " -> " +:+ name (w !!! destination)) [])).

(** *** Vocabulary of the statements *)
Section Vocabulary.
Context {W X : Type} `{!Methods W X}.

(** [runs_ok cmds w cmds' w']: calling [execute] on each command of
    [cmds] in order, from world [w], raises nothing and ends in [w']
    with the commands' fields as in [cmds']. *)
Inductive runs_ok : list (Command X) -> W -> list (Command X) -> W -> Prop :=
| runs_ok_nil w : runs_ok [] w [] w
| runs_ok_cons c cs w c' w' cs' w'' :
    execute c w = (None, c', w') ->
    runs_ok cs w' cs' w'' ->
    runs_ok (c :: cs) w (c' :: cs') w''.

(** [undone_swallowing cmds w cmds' w']: calling [undo] on each command
    of [cmds] in order, from [w], dropping whatever each call raises,
    ends in [w'] with fields [cmds']. *)
Inductive undone_swallowing : list (Command X) -> W -> list (Command X) -> W -> Prop :=
| undone_nil w : undone_swallowing [] w [] w
| undone_cons c cs w r c' w' cs' w'' :
    undo c w = (r, c', w') ->
    undone_swallowing cs w' cs' w'' ->
    undone_swallowing (c :: cs) w (c' :: cs') w''.

Definition rolled_back_error (exc : exn) : exn :=
  PyExn TransactionError "Atomic composite failed and was rolled back." (Some exc).
End Vocabulary.

(** [undo_stable]: once [undo] has returned, calling it again changes
    nothing, in whatever world; once it has raised, calling it again in
    the state it left raises the same exception and changes nothing. *)
Definition undo_stable (W X : Type) `{!Methods W X} : Prop :=
  forall (c : Command X) (w : W) r c' w',
    undo c w = (r, c', w') ->
    match r with
    | None => forall w2, undo c' w2 = (None, c', w2)
    | Some e => undo c' w' = (Some e, c', w')
    end.

End AtomicTransfer.

(** ** device_command_runner.py *)
Module DeviceRunner.

Abbreviation addr := nat.

(** The values a device parameter may hold ([Any] in the source). *)
Inductive pyval :=
| VNone
| VBool (b : bool)
| VInt (z : Z)
| VStr (s : string).

(** Python's [str] on such a value, as an f-string formats it. *)
Definition str_val (v : pyval) : string :=
  match v with
  | VNone => "None"
  | VBool true => "True"
  | VBool false => "False"
  | VInt z => str_int z
  | VStr s => s
  end.

Record CommandResult := mkCommandResult {
  success : bool;
  value : pyval;
  error : option exn
}.

Record RetryPolicy := mkRetryPolicy {
  max_retries : Z;
  backoff_seconds : Z
}.

(** [RetryPolicy()] *)
Definition default_policy : RetryPolicy := mkRetryPolicy 0 0.

(** The base class [Command] and the fields [X] of the subclass. *)
Record Command (X : Type) := mkCommand {
  _description : string;
  _executed : bool;
  _retry_policy : RetryPolicy;
  fields : X
}.
Arguments mkCommand {X} _ _ _ _.
Arguments _description {X} _.
Arguments _executed {X} _.
Arguments _retry_policy {X} _.
Arguments fields {X} _.

(** [Command.__init__]: [retry_policy or RetryPolicy()] *)
Definition new_command {X} (description : string) (retry_policy : option RetryPolicy) (x : X)
  : Command X :=
  mkCommand description false (default default_policy retry_policy) x.

Definition set_executed {X} (b : bool) (c : Command X) : Command X :=
  mkCommand (_description c) b (_retry_policy c) (fields c).

Class Methods (W X : Type) := {
  execute : Command X -> W -> option exn * Command X * W;
  undo : Command X -> W -> option exn * Command X * W
}.

Section Run.
Context {W X : Type} `{!Methods W X}.

(** The [while attempts < total] loop of [run].  [attempts] only grows
    by one per iteration, so the loop is recursion on the number
    [total - attempts] of attempts that remain.  The last component
    counts the calls of [execute] (ghost). *)
Fixpoint run_loop (remaining : nat) (last_exc : option exn) (self : Command X) (w : W)
  : outcome CommandResult * Command X * W * nat :=
  match remaining with
  | O => (Return (mkCommandResult false VNone last_exc), self, w, 0%nat)
  | S remaining' =>
      match execute self w with
      | (None, self', w') =>
          (Return (mkCommandResult true VNone None), set_executed true self', w', 1%nat)
      | (Some exc, self', w') =>
          if catches ExceptBaseException exc then
            let '(r, self'', w'', n) := run_loop remaining' (Some exc) self' w' in
            (r, self'', w'', S n)
          else (Raise exc, self', w', 1%nat)
      end
  end.

(** [total = 1 + max(0, self._retry_policy.max_retries)] *)
Definition total_attempts (self : Command X) : Z :=
  1 + Z.max 0 (max_retries (_retry_policy self)).

(** [Command.run] *)
Definition run (self : Command X) (w : W) : outcome CommandResult * Command X * W * nat :=
  run_loop (Z.to_nat (total_attempts self)) None self w.
End Run.

(** Ghost trace of the calls a composite makes on its direct
    sub-commands, by index in [_items]. *)
Inductive call := CallRun (i : nat) | CallUndo (i : nat).

Record Composite (X : Type) := mkComposite {
  _items : list (Command X);
  _executed_count : nat
}.
Arguments mkComposite {X} _ _.
Arguments _items {X} _.
Arguments _executed_count {X} _.

Section Engine.
Context {W X : Type} `{!Methods W X}.

(** [AtomicCompositeCommand(description, items)] *)
Definition AtomicCompositeCommand (description : string) (items : list (Command X))
  : Command (Composite X) :=
  new_command description None (mkComposite items 0).

(** [add] *)
Definition add (cmd : Command X) (self : Command (Composite X)) : Command (Composite X) :=
  mkCommand (_description self) (_executed self) (_retry_policy self)
    (mkComposite (_items (fields self) ++ [cmd]) (_executed_count (fields self))).

Definition sub_command_failed (cmd : Command X) (res : CommandResult) : exn :=
  PyExn CommandError ("Sub-command failed: " +:+ _description cmd) (error res).

(** The [try] block of [execute]: each sub-command is [run]; a failure
    result is turned into a [CommandError] raised from [res.error]. *)
Fixpoint execute_loop (todo : list (Command X)) (count : nat) (w : W)
  : option exn * list (Command X) * nat * W * list call :=
  match todo with
  | [] => (None, [], count, w, [])
  | cmd :: rest =>
      match run cmd w with
      | (Raise exc, cmd', w', _) => (Some exc, cmd' :: rest, count, w', [CallRun count])
      | (Return res, cmd', w', _) =>
          if negb (success res) then
            (Some (sub_command_failed cmd' res), cmd' :: rest, count, w', [CallRun count])
          else
            let '(r, rest', count', w'', tr) := execute_loop rest (S count) w' in
            (r, cmd' :: rest', count', w'', CallRun count :: tr)
      end
  end.

(** The rollback loop over [reversed(self._items[:count])]:
    [if cmd.executed: cmd.undo()] inside a [try] whose handler only
    logs. *)
Fixpoint rollback_loop (cmds : list (Command X)) (w : W)
  : list (Command X) * W * list call :=
  match cmds with
  | [] => ([], w, [])
  | cmd :: rest =>
      let '(cmd', w', tr0) :=
        if _executed cmd then
          let '(_, cmd', w') := undo cmd w in (cmd', w', [CallUndo (length rest)])
        else (cmd, w, []) in
      let '(rest', w'', tr) := rollback_loop rest w' in
      (cmd' :: rest', w'', tr0 ++ tr)
  end.

(** The loop of [undo]: no guard, and exceptions propagate. *)
Fixpoint undo_loop (cmds : list (Command X)) (w : W)
  : option exn * list (Command X) * W * list call :=
  match cmds with
  | [] => (None, [], w, [])
  | cmd :: rest =>
      match undo cmd w with
      | (Some exc, cmd', w') => (Some exc, cmd' :: rest, w', [CallUndo (length rest)])
      | (None, cmd', w') =>
          let '(r, rest', w'', tr) := undo_loop rest w' in
          (r, cmd' :: rest', w'', CallUndo (length rest) :: tr)
      end
  end.

Definition write_back (visited_rev : list (Command X)) (count : nat) (items : list (Command X))
  : list (Command X) :=
  rev visited_rev ++ drop count items.

Definition rolled_back_error (self : Command (Composite X)) (exc : exn) : exn :=
  PyExn CommandError
    ("Composite '" +:+ _description self +:+ "' rolled back due to failure.") (Some exc).

(** [AtomicCompositeCommand.execute], with the calls it made. *)
Definition composite_execute (self : Command (Composite X)) (w : W)
  : option exn * Command (Composite X) * W * list call :=
  let '(r, items1, count, w1, tr1) := execute_loop (_items (fields self)) 0 w in
  match r with
  | None =>
      (None,
       mkCommand (_description self) true (_retry_policy self) (mkComposite items1 count),
       w1, tr1)
  | Some exc =>
      if catches ExceptBaseException exc then
        let '(undone, w2, tr2) := rollback_loop (rev (take count items1)) w1 in
        (Some (rolled_back_error self exc),
         mkCommand (_description self) false (_retry_policy self)
           (mkComposite (write_back undone count items1) count),
         w2, tr1 ++ tr2)
      else
        (Some exc,
         mkCommand (_description self) (_executed self) (_retry_policy self)
           (mkComposite items1 count),
         w1, tr1)
  end.

(** [AtomicCompositeCommand.undo], with the calls it made. *)
Definition composite_undo (self : Command (Composite X)) (w : W)
  : option exn * Command (Composite X) * W * list call :=
  if negb (_executed self) then (None, self, w, [])
  else
    let items := _items (fields self) in
    let count := _executed_count (fields self) in
    match undo_loop (rev (take count items)) w with
    | (Some exc, undone, w', tr) =>
        (Some exc,
         mkCommand (_description self) (_executed self) (_retry_policy self)
           (mkComposite (write_back undone count items) count), w', tr)
    | (None, undone, w', tr) =>
        (None,
         mkCommand (_description self) false (_retry_policy self)
           (mkComposite (write_back undone count items) 0), w', tr)
    end.

#[global] Instance composite_methods : Methods W (Composite X) :=
  {| execute := fun self w => (composite_execute self w).1;
     undo := fun self w => (composite_undo self w).1 |}.
End Engine.

(** *** The PLC stub and the concrete commands *)

Record PLCDevice := mkPLCDevice {
  name : string;
  connected : bool;
  params : gmap string pyval;
  running_program : option string;
  _fail : gmap string bool
}.

(** [PLCDevice(name, fail_on_subjects)] *)
Definition new_PLCDevice (name : string) (fail_on_subjects : option (gmap string bool))
  : PLCDevice :=
  mkPLCDevice name false ∅ None (default ∅ fail_on_subjects).

#[global] Instance PLCDevice_inhabited : Inhabited PLCDevice :=
  populate (new_PLCDevice EmptyString None).

(** The store of device objects. *)
Abbreviation Plant := (gmap addr PLCDevice).

(** [self._fail.get(subject)] used as a condition. *)
Definition fails_on (d : PLCDevice) (subject : string) : bool :=
  match _fail d !! subject with
  | Some b => b
  | None => false
  end.

Definition device_error (d : PLCDevice) (what : string) : exn :=
  PyExn DeviceError ("[" +:+ name d +:+ "] " +:+ what) None.

Definition set_connected (b : bool) (d : PLCDevice) : PLCDevice :=
  mkPLCDevice (name d) b (params d) (running_program d) (_fail d).
Definition set_params (p : gmap string pyval) (d : PLCDevice) : PLCDevice :=
  mkPLCDevice (name d) (connected d) p (running_program d) (_fail d).
Definition set_running_program (p : option string) (d : PLCDevice) : PLCDevice :=
  mkPLCDevice (name d) (connected d) (params d) p (_fail d).

(** [PLCDevice.connect] *)
Definition connect (self : addr) (w : Plant) : option exn * Plant :=
  let d := w !!! self in
  if fails_on d "connect" then (Some (device_error d "Simulated connect failure."), w)
  else (None, <[self := set_connected true d]> w).

(** [PLCDevice.disconnect] *)
Definition disconnect (self : addr) (w : Plant) : option exn * Plant :=
  let d := w !!! self in
  if negb (connected d) then (None, w)
  else if fails_on d "disconnect" then (Some (device_error d "Simulated disconnect failure."), w)
  else (None, <[self := set_connected false d]> w).

(** [PLCDevice.set_param]: returns the previous value, [None] when the
    key was absent. *)
Definition set_param (self : addr) (key : string) (v : pyval) (w : Plant)
  : outcome pyval * Plant :=
  let d := w !!! self in
  if negb (connected d) then (Raise (device_error d "Not connected."), w)
  else if fails_on d "set_param" then (Raise (device_error d "Simulated set_param failure."), w)
  else
    let prev := default VNone (params d !! key) in
    (Return prev, <[self := set_params (<[key := v]> (params d)) d]> w).

(** A string used as a condition: empty is false. *)
Definition truthy (s : option string) : bool :=
  match s with
  | Some s => negb (String.eqb s EmptyString)
  | None => false
  end.

(** [PLCDevice.start_program] *)
Definition start_program (self : addr) (program : string) (w : Plant) : option exn * Plant :=
  let d := w !!! self in
  if negb (connected d) then (Some (device_error d "Not connected."), w)
  else if fails_on d "start_program" then
    (Some (device_error d "Simulated start_program failure."), w)
  else if truthy (running_program d) then
    (Some (device_error d ("Program already running: " +:+ default EmptyString (running_program d))), w)
  else (None, <[self := set_running_program (Some program) d]> w).

(** [PLCDevice.stop_program] *)
Definition stop_program (self : addr) (w : Plant) : option exn * Plant :=
  let d := w !!! self in
  if negb (connected d) then (Some (device_error d "Not connected."), w)
  else if fails_on d "stop_program" then
    (Some (device_error d "Simulated stop_program failure."), w)
  else (None, <[self := set_running_program None d]> w).

(** The fields of the five concrete commands. *)
Inductive DeviceFields :=
| ConnectF (_device : addr) (_timeout : Z)
| DisconnectF (_device : addr)
| SetParameterF (_device : addr) (_key : string) (_value : pyval)
                (_prev : pyval) (_had_prev : bool)
| StartProgramF (_device : addr) (_program : string)
| StopProgramF (_device : addr) (_prev : option string).

Definition ConnectCommand (w : Plant) (device : addr) (timeout_s : Z)
    (retry_policy : option RetryPolicy) : Command DeviceFields :=
  new_command ("Connect(" +:+ name (w !!! device) +:+ ")") retry_policy
    (ConnectF device timeout_s).

Definition DisconnectCommand (w : Plant) (device : addr) : Command DeviceFields :=
  new_command ("Disconnect(" +:+ name (w !!! device) +:+ ")") None (DisconnectF device).

Definition SetParameterCommand (w : Plant) (device : addr) (key : string) (v : pyval)
    (retry_policy : option RetryPolicy) : Command DeviceFields :=
  new_command ("SetParam(" +:+ name (w !!! device) +:+ "." +:+ key +:+ "=" +:+ str_val v +:+ ")")
    retry_policy (SetParameterF device key v VNone false).

Definition StartProgramCommand (w : Plant) (device : addr) (program : string)
    (retry_policy : option RetryPolicy) : Command DeviceFields :=
  new_command ("StartProgram(" +:+ name (w !!! device) +:+ ":" +:+ program +:+ ")")
    retry_policy (StartProgramF device program).

Definition StopProgramCommand (w : Plant) (device : addr)
    (retry_policy : option RetryPolicy) : Command DeviceFields :=
  new_command ("StopProgram(" +:+ name (w !!! device) +:+ ")") retry_policy
    (StopProgramF device None).

Definition with_fields (x : DeviceFields) (c : Command DeviceFields) : Command DeviceFields :=
  mkCommand (_description c) (_executed c) (_retry_policy c) x.

Definition device_execute (self : Command DeviceFields) (w : Plant)
  : option exn * Command DeviceFields * Plant :=
  match fields self with
  | ConnectF device _ =>
      let '(r, w') := connect device w in (r, self, w')
  | DisconnectF device =>
      let '(r, w') := disconnect device w in (r, self, w')
  | SetParameterF device key v _ _ =>
      match set_param device key v w with
      | (Raise e, w') => (Some e, self, w')
      | (Return prev, w') =>
          (* self._had_prev = self._key in self._device.params, read after the write *)
          let had_prev := bool_decide (is_Some (params (w' !!! device) !! key)) in
          (None, with_fields (SetParameterF device key v prev had_prev) self, w')
      end
  | StartProgramF device program =>
      let '(r, w') := start_program device program w in (r, self, w')
  | StopProgramF device _ =>
      let self' := with_fields (StopProgramF device (running_program (w !!! device))) self in
      let '(r, w') := stop_program device w in (r, self', w')
  end.

Definition device_undo (self : Command DeviceFields) (w : Plant)
  : option exn * Command DeviceFields * Plant :=
  match fields self with
  | ConnectF device _ =>
      let '(r, w') := disconnect device w in (r, self, w')
  | DisconnectF _ => (None, self, w)
  | SetParameterF device key _ prev had_prev =>
      if negb (_executed self) then (None, self, w)
      else if had_prev then
        match set_param device key prev w with
        | (Raise e, w') => (Some e, self, w')
        | (Return _, w') => (None, self, w')
        end
      else
        let d := w !!! device in
        (None, self, <[device := set_params (delete key (params d)) d]> w)
  | StartProgramF device program =>
      if negb (_executed self) then (None, self, w)
      else if bool_decide (running_program (w !!! device) = Some program) then
        let '(r, w') := stop_program device w in (r, self, w')
      else (None, self, w)
  | StopProgramF device prev =>
      if negb (_executed self) then (None, self, w)
      else if truthy prev then
        let '(r, w') := start_program device (default EmptyString prev) w in (r, self, w')
      else (None, self, w)
  end.

#[global] Instance device_methods : Methods Plant DeviceFields :=
  {| execute := device_execute; undo := device_undo |}.

(** *** Vocabulary of the statements *)
Section Vocabulary.
Context {W X : Type} `{!Methods W X}.

(** [fails_times n c w last c' w' last']: [n] calls of [execute] in a
    row, starting from [c] in world [w], all raise; they end in [c'],
    [w'], and [last'] is the exception of the last call ([last] when
    [n] is 0). *)
Inductive fails_times : nat -> Command X -> W -> option exn ->
                        Command X -> W -> option exn -> Prop :=
| fails_times_O c w last : fails_times 0 c w last c w last
| fails_times_S n c w last exc c1 w1 c' w' last' :
    execute c w = (Some exc, c1, w1) ->
    fails_times n c1 w1 (Some exc) c' w' last' ->
    fails_times (S n) c w last c' w' last'.

(** A command "always raises" from a state when some invariant of the
    command and the world holds there, makes [execute] raise, and is
    kept by the raising call. *)
Definition always_raises (Inv : Command X -> W -> Prop) : Prop :=
  forall c w, Inv c w -> exists exc c' w', execute c w = (Some exc, c', w') /\ Inv c' w'.

(** [runs_ok cmds w cmds' w']: [run] on each command of [cmds] in
    order, from [w], reports success each time. *)
Inductive runs_ok : list (Command X) -> W -> list (Command X) -> W -> Prop :=
| runs_ok_nil w : runs_ok [] w [] w
| runs_ok_cons c cs w res n c' w' cs' w'' :
    run c w = (Return res, c', w', n) ->
    success res = true ->
    runs_ok cs w' cs' w'' ->
    runs_ok (c :: cs) w (c' :: cs') w''.

(** [undone_swallowing]: [undo] on each command in order, dropping
    whatever each call raises. *)
Inductive undone_swallowing : list (Command X) -> W -> list (Command X) -> W -> Prop :=
| undone_nil w : undone_swallowing [] w [] w
| undone_cons c cs w r c' w' cs' w'' :
    undo c w = (r, c', w') ->
    undone_swallowing cs w' cs' w'' ->
    undone_swallowing (c :: cs) w (c' :: cs') w''.
End Vocabulary.

End DeviceRunner.

(** ** text_editor_command.py *)
Module TextEditor.

Abbreviation addr := nat.

(** *** Python string slicing *)

Fixpoint str_take (n : nat) (s : string) : string :=
  match n, s with
  | S n', String ch s' => String ch (str_take n' s')
  | _, _ => EmptyString
  end.

Fixpoint str_drop (n : nat) (s : string) : string :=
  match n, s with
  | S n', String ch s' => str_drop n' s'
  | _, _ => s
  end.

Definition len (s : string) : Z := Z.of_nat (String.length s).

(** A slice bound: a negative bound counts from the end, and the result
    is clamped to [0, len(s)]. *)
Definition slice_index (i : Z) (s : string) : nat :=
  let i' := if i <? 0 then i + len s else i in
  Z.to_nat (Z.max 0 (Z.min i' (len s))).

(** [s[:hi]], [s[lo:]] and [s[lo:hi]] *)
Definition slice_to (s : string) (hi : Z) : string := str_take (slice_index hi s) s.
Definition slice_from (s : string) (lo : Z) : string := str_drop (slice_index lo s) s.
Definition slice (s : string) (lo hi : Z) : string :=
  str_take (slice_index hi s - slice_index lo s) (str_drop (slice_index lo s) s).

(** *** The receiver *)
Record TextBuffer := mkTextBuffer {
  text : string;
  cursor : Z
}.

(** [TextBuffer()] *)
Definition new_TextBuffer : TextBuffer := mkTextBuffer EmptyString 0.

#[global] Instance TextBuffer_inhabited : Inhabited TextBuffer := populate new_TextBuffer.

(** The store of buffer objects. *)
Abbreviation Buffers := (gmap addr TextBuffer).

(** [TextBuffer.insert] *)
Definition insert (s : string) (self : TextBuffer) : TextBuffer :=
  mkTextBuffer (slice_to (text self) (cursor self) +:+ s +:+ slice_from (text self) (cursor self))
               (cursor self + len s).

(** [TextBuffer.delete]: the deleted substring and the buffer. *)
Definition delete (count : Z) (self : TextBuffer) : string * TextBuffer :=
  let deleted := slice (text self) (cursor self) (cursor self + count) in
  (deleted,
   mkTextBuffer (slice_to (text self) (cursor self) +:+ slice_from (text self) (cursor self + count))
                (cursor self)).

(** [TextBuffer.move_cursor]: the previous position and the buffer. *)
Definition move_cursor (pos : Z) (self : TextBuffer) : Z * TextBuffer :=
  let pos := Z.max 0 (Z.min pos (len (text self))) in
  (cursor self, mkTextBuffer (text self) pos).

(** *** The commands

    None of the receiver's operations raises, so neither do the commands
    of this module: their methods return the updated command and store. *)
Inductive Command :=
| InsertTextC (_description : string) (_buffer : addr) (_text : string) (_start_pos : option Z)
| DeleteTextC (_description : string) (_buffer : addr) (_count : Z) (_deleted : string)
| MoveCursorC (_description : string) (_buffer : addr) (_target : Z) (_prev : option Z)
| MacroCommandC (_description : string) (_items : list Command) (_executed : nat).

Definition description (c : Command) : string :=
  match c with
  | InsertTextC d _ _ _ | DeleteTextC d _ _ _ | MoveCursorC d _ _ _ | MacroCommandC d _ _ => d
  end.

Definition InsertText (buffer : addr) (text : string) : Command :=
  InsertTextC ("Insert '" +:+ text +:+ "'") buffer text None.

Definition DeleteText (buffer : addr) (count : Z) : Command :=
  DeleteTextC ("Delete " +:+ str_int count +:+ " chars") buffer (Z.max 0 count) EmptyString.

Definition MoveCursor (buffer : addr) (position : Z) : Command :=
  MoveCursorC ("Move cursor to " +:+ str_int position) buffer position None.

Definition MacroCommand (items : list Command) : Command :=
  MacroCommandC "Macro" items 0.

(** [MacroCommand.add] *)
Definition add (cmd : Command) (self : Command) : Command :=
  match self with
  | MacroCommandC d items n => MacroCommandC d (items ++ [cmd]) n
  | _ => self
  end.

(** [execute].  For a macro: [for cmd in self._items: cmd.execute();
    self._executed += 1]. *)
Fixpoint execute (self : Command) (w : Buffers) : Command * Buffers :=
  match self with
  | InsertTextC d b t _ =>
      let buf := w !!! b in
      (InsertTextC d b t (Some (cursor buf)), <[b := insert t buf]> w)
  | DeleteTextC d b n _ =>
      let '(deleted, buf') := delete n (w !!! b) in
      (DeleteTextC d b n deleted, <[b := buf']> w)
  | MoveCursorC d b t _ =>
      let '(prev, buf') := move_cursor t (w !!! b) in
      (MoveCursorC d b t (Some prev), <[b := buf']> w)
  | MacroCommandC d items _ =>
      let '(items', n, w') :=
        (fix loop (todo : list Command) (count : nat) (w : Buffers)
           : list Command * nat * Buffers :=
           match todo with
           | [] => ([], count, w)
           | cmd :: rest =>
               let '(cmd', w1) := execute cmd w in
               let '(rest', n, w2) := loop rest (S count) w1 in
               (cmd' :: rest', n, w2)
           end) items 0%nat w in
      (MacroCommandC d items' n, w')
  end.

(** [undo].  For a macro: [for cmd in reversed(self._items[:n]):
    cmd.undo()], then [self._executed = 0].  Visiting the first [n]
    items last-to-first is recursion on the list that handles the tail
    before the head. *)
Fixpoint undo (self : Command) (w : Buffers) : Command * Buffers :=
  match self with
  | InsertTextC d b t start_pos =>
      match start_pos with
      | None => (self, w)
      | Some p =>
          let '(_, buf1) := move_cursor p (w !!! b) in
          let '(_, buf2) := delete (len t) buf1 in
          (self, <[b := buf2]> w)
      end
  | DeleteTextC d b n deleted =>
      (self, <[b := insert deleted (w !!! b)]> w)
  | MoveCursorC d b t prev =>
      match prev with
      | None => (self, w)
      | Some p =>
          let '(_, buf') := move_cursor p (w !!! b) in
          (self, <[b := buf']> w)
      end
  | MacroCommandC d items n =>
      let '(items', w') :=
        (fix undo_first (items : list Command) (n : nat) (w : Buffers)
           : list Command * Buffers :=
           match items, n with
           | cmd :: rest, S n' =>
               let '(rest', w1) := undo_first rest n' w in
               let '(cmd', w2) := undo cmd w1 in
               (cmd' :: rest', w2)
           | _, _ => (items, w)
           end) items n w in
      (MacroCommandC d items' 0, w')
  end.

(** The two loops, named. *)
Fixpoint execute_loop (todo : list Command) (count : nat) (w : Buffers)
  : list Command * nat * Buffers :=
  match todo with
  | [] => ([], count, w)
  | cmd :: rest =>
      let '(cmd', w1) := execute cmd w in
      let '(rest', n, w2) := execute_loop rest (S count) w1 in
      (cmd' :: rest', n, w2)
  end.

Fixpoint undo_first (items : list Command) (n : nat) (w : Buffers) : list Command * Buffers :=
  match items, n with
  | cmd :: rest, S n' =>
      let '(rest', w1) := undo_first rest n' w in
      let '(cmd', w2) := undo cmd w1 in
      (cmd' :: rest', w2)
  | _, _ => (items, w)
  end.



(** *** The invoker *)

Record Invoker := mkInvoker {
  _undo_stack : list Command;
  _redo_stack : list Command;
  _undo_limit : Z
}.

(** [Invoker(undo_limit=100)] *)
Definition new_Invoker (undo_limit : Z) : Invoker := mkInvoker [] [] (Z.max 1 undo_limit).

(** [Invoker.run] *)
Definition invoker_run (cmd : Command) (self : Invoker) (w : Buffers) : Invoker * Buffers :=
  let '(cmd', w') := execute cmd w in
  let stack := _undo_stack self ++ [cmd'] in
  let stack := if _undo_limit self <? Z.of_nat (length stack) then drop 1 stack else stack in
  (mkInvoker stack [] (_undo_limit self), w').

(** [list.pop()]: the last element and the rest, if any. *)
Definition pop_last (l : list Command) : option (Command * list Command) :=
  match rev l with
  | [] => None
  | x :: rest_rev => Some (x, rev rest_rev)
  end.

(** [Invoker.undo] *)
Definition invoker_undo (self : Invoker) (w : Buffers) : bool * Invoker * Buffers :=
  match pop_last (_undo_stack self) with
  | None => (false, self, w)
  | Some (cmd, stack) =>
      let '(cmd', w') := undo cmd w in
      (true, mkInvoker stack (_redo_stack self ++ [cmd']) (_undo_limit self), w')
  end.

(** [Invoker.redo] *)
Definition invoker_redo (self : Invoker) (w : Buffers) : bool * Invoker * Buffers :=
  match pop_last (_redo_stack self) with
  | None => (false, self, w)
  | Some (cmd, stack) =>
      let '(cmd', w') := execute cmd w in
      (true, mkInvoker (_undo_stack self ++ [cmd']) stack (_undo_limit self), w')
  end.

(** *** Vocabulary of the statements *)

(** A cursor inside the text. *)
Definition cursor_in_text (buf : TextBuffer) : Prop :=
  0 <= cursor buf <= len (text buf).

(** Inserting the strings [ts] one after the other. *)
Definition insert_all (ts : list string) (buf : TextBuffer) : TextBuffer :=
  fold_left (fun buf t => insert t buf) ts buf.

(** A command on which [execute] has left no mark. *)
Definition never_executed (c : Command) : Prop :=
  match c with
  | InsertTextC _ _ _ start_pos => start_pos = None
  | DeleteTextC _ _ _ deleted => deleted = EmptyString
  | MoveCursorC _ _ _ prev => prev = None
  | MacroCommandC _ _ n => n = 0%nat
  end.

End TextEditor.

(** ** queued_command_bus.py *)
Module QueuedBus.

(** The base class [Command] of this module has a description and one
    abstract method.  [C] is the type of command objects, [W] the world
    their receivers live in. *)
Class Methods (W C : Type) := {
  description : C -> string;
  execute : C -> W -> option exn * C * W
}.

Record RetryPolicy := mkRetryPolicy {
  max_retries : Z;
  backoff_seconds : Z
}.

(** [RetryPolicy()] *)
Definition default_policy : RetryPolicy := mkRetryPolicy 3 1.

Record CommandEnvelope (C : Type) := mkEnvelope {
  command : C;
  retry_policy : RetryPolicy;
  attempts : Z;
  last_error : option string
}.
Arguments mkEnvelope {C} _ _ _ _.
Arguments command {C} _.
Arguments retry_policy {C} _.
Arguments attempts {C} _.
Arguments last_error {C} _.

Record InMemoryQueue (C : Type) := mkQueue {
  _name : string;
  _q : list (CommandEnvelope C)
}.
Arguments mkQueue {C} _ _.
Arguments _name {C} _.
Arguments _q {C} _.

(** [InMemoryQueue(name)] *)
Definition new_queue {C} (name : string) : InMemoryQueue C := mkQueue name [].

(** [enqueue]: [self._q.append(env)] *)
Definition enqueue {C} (env : CommandEnvelope C) (self : InMemoryQueue C) : InMemoryQueue C :=
  mkQueue (_name self) (_q self ++ [env]).

(** [deque.popleft] *)
Definition popleft {C} (q : list (CommandEnvelope C))
  : outcome (CommandEnvelope C) * list (CommandEnvelope C) :=
  match q with
  | [] => (Raise (PyExn IndexError "pop from an empty deque" None), q)
  | env :: rest => (Return env, rest)
  end.

(** [dequeue] *)
Definition dequeue {C} (self : InMemoryQueue C)
  : outcome (CommandEnvelope C) * InMemoryQueue C :=
  match popleft (_q self) with
  | (Return env, q') => (Return env, mkQueue (_name self) q')
  | (Raise exc, q') =>
      if catches (ExceptClass IndexError) exc then
        (Raise (PyExn EmptyQueueError "Queue is empty." (Some exc)), mkQueue (_name self) q')
      else (Raise exc, mkQueue (_name self) q')
  end.

(** [__len__] *)
Definition queue_len {C} (self : InMemoryQueue C) : Z := Z.of_nat (length (_q self)).

(** The worker.  The queue object is shared by the bus and the worker;
    the model keeps it in the worker's record and [send] writes to it
    there. *)
Record CommandWorker (C : Type) := mkWorker {
  _queue : InMemoryQueue C;
  _dead_letter : list (CommandEnvelope C)
}.
Arguments mkWorker {C} _ _.
Arguments _queue {C} _.
Arguments _dead_letter {C} _.

(** [CommandWorker(queue)] *)
Definition new_worker {C} (queue : InMemoryQueue C) : CommandWorker C := mkWorker queue [].

(** [CommandBus.send(cmd, retry_policy)] on the shared queue *)
Definition send {C} (cmd : C) (retry_policy : option RetryPolicy) (sys : CommandWorker C)
  : CommandWorker C :=
  let env := mkEnvelope cmd (default default_policy retry_policy) 0 None in
  mkWorker (enqueue env (_queue sys)) (_dead_letter sys).

(** [dead_letter]: a copy of the list *)
Definition dead_letter {C} (self : CommandWorker C) : list (CommandEnvelope C) :=
  _dead_letter self.

Section Worker.
Context {W C : Type} `{!Methods W C}.

(** Python's [repr] of an exception, a builtin. *)
Variable repr : exn -> string.

(** [CommandWorker.poll_once] *)
Definition poll_once (self : CommandWorker C) (w : W)
  : outcome bool * CommandWorker C * W :=
  match dequeue (_queue self) with
  | (Raise exc, queue') =>
      if catches (ExceptClass EmptyQueueError) exc then
        (Return false, mkWorker queue' (_dead_letter self), w)
      else (Raise exc, mkWorker queue' (_dead_letter self), w)
  | (Return env, queue') =>
      match execute (command env) w with
      | (None, cmd', w') =>
          (Return true, mkWorker queue' (_dead_letter self), w')
      | (Some exc, cmd', w') =>
          if catches ExceptException exc then
            let env' := mkEnvelope cmd' (retry_policy env) (attempts env + 1)
                                   (Some (repr exc)) in
            if attempts env' <=? max_retries (retry_policy env') then
              (Return true, mkWorker (enqueue env' queue') (_dead_letter self), w')
            else
              (Return true, mkWorker queue' (_dead_letter self ++ [env']), w')
          else
            (Raise exc, mkWorker queue' (_dead_letter self), w')
      end
  end.

(** The loop of [drain]: [while steps < max_steps and self.poll_once()].
    [steps] grows by one per iteration, so the loop is recursion on
    the number of steps that remain. *)
Fixpoint drain_loop (remaining : nat) (processed : Z) (self : CommandWorker C) (w : W)
  : outcome (Z * Z) * CommandWorker C * W :=
  match remaining with
  | O => (Return (processed, Z.of_nat (length (_dead_letter self))), self, w)
  | S remaining' =>
      match poll_once self w with
      | (Raise exc, self', w') => (Raise exc, self', w')
      | (Return false, self', w') =>
          (Return (processed, Z.of_nat (length (_dead_letter self'))), self', w')
      | (Return true, self', w') => drain_loop remaining' (processed + 1) self' w'
      end
  end.

(** [CommandWorker.drain(max_steps)] *)
Definition drain (max_steps : Z) (self : CommandWorker C) (w : W)
  : outcome (Z * Z) * CommandWorker C * W :=
  drain_loop (Z.to_nat max_steps) 0 self w.

(** [n] calls of [poll_once] in a row by a caller that goes on after
    an exception. *)
Fixpoint poll_times (n : nat) (self : CommandWorker C) (w : W) : CommandWorker C * W :=
  match n with
  | O => (self, w)
  | S n' => let '(_, self', w') := poll_once self w in poll_times n' self' w'
  end.
End Worker.

(** *** The example receiver and command *)

Record EmailService := mkEmailService {
  _max_len : Z;
  outbox : list (string * string * string)
}.

(** [EmailService(max_len=120)] *)
Definition new_EmailService (max_len : Z) : EmailService := mkEmailService max_len [].

#[global] Instance EmailService_inhabited : Inhabited EmailService :=
  populate (new_EmailService 120).

Abbreviation Services := (gmap nat EmailService).

(** [EmailService.send] *)
Definition email_send (self : nat) (to subject body : string) (w : Services)
  : option exn * Services :=
  let svc := w !!! self in
  if String.eqb to EmptyString then (Some (PyExn ValueError "Recipient is required." None), w)
  else if _max_len svc <? Z.of_nat (String.length subject) then
    (Some (PyExn ValueError "Subject too long." None), w)
  else (None, <[self := mkEmailService (_max_len svc) (outbox svc ++ [(to, subject, body)])]> w).

Record SendEmailCommand := mkSendEmail {
  _description : string;
  _service : nat;
  _to : string;
  _subject : string;
  _body : string
}.

Definition new_SendEmailCommand (service : nat) (to subject body : string) : SendEmailCommand :=
  mkSendEmail ("SendEmail(to=" +:+ to +:+ ")") service to subject body.

#[global] Instance send_email_methods : Methods Services SendEmailCommand :=
  {| description := _description;
     execute := fun self w =>
       let '(r, w') := email_send (_service self) (_to self) (_subject self) (_body self) w in
       (r, self, w') |}.

(** The command of the tests that always fails:
    [def execute(self): raise RuntimeError("boom")]. *)
Inductive AlwaysFail := mkAlwaysFail.

#[global] Instance always_fail_methods {W} : Methods W AlwaysFail :=
  {| description := fun _ => "AlwaysFail";
     execute := fun self w => (Some (PyExn RuntimeError "boom" None), self, w) |}.

(** *** Vocabulary of the statements *)

Definition empty_queue_error : exn :=
  PyExn EmptyQueueError "Queue is empty."
    (Some (PyExn IndexError "pop from an empty deque" None)).

Section Vocabulary.
Context {W C : Type} `{!Methods W C}.
Variable repr : exn -> string.

(** The worker compares [attempts] with [max_retries] as they are, so a
    policy with a negative [max_retries] behaves as one with zero
    retries.  A queued envelope has made no more failed attempts than
    the retries it has; a dead-lettered one has made exactly one
    attempt more than that. *)
Definition pending_ok (env : CommandEnvelope C) : Prop :=
  0 <= attempts env <= Z.max 0 (max_retries (retry_policy env)).
Definition dead_ok (env : CommandEnvelope C) : Prop :=
  attempts env = 1 + Z.max 0 (max_retries (retry_policy env)).



(** A command "always fails" from a state when some invariant holds
    there, makes [execute] raise an [Exception], and is kept by the
    raising call. *)
Definition always_fails (Inv : C -> W -> Prop) : Prop :=
  forall c w, Inv c w ->
    exists exc c' w',
      execute c w = (Some exc, c', w') /\ catches ExceptException exc = true /\ Inv c' w'.
End Vocabulary.

End QueuedBus.

(** ** Scenes

    Small concrete states the statements are tried on. *)

(** A ledger composite whose second step overdraws, and the device
    set-up sequence on a PLC whose [set_param] fails. *)
Module Scenes.
Import AtomicTransfer.

Definition bank : Bank :=
  <[1%nat := mkBankAccount "B" 0 0]> (<[0%nat := mkBankAccount "A" 0 0]> ∅).

Definition pay : Command (Composite LedgerFields) :=
  AtomicCompositeCommand "pay"
    [DepositCommand bank 0%nat 100; WithdrawCommand bank 1%nat 1000].

Definition plant : DeviceRunner.Plant :=
  <[0%nat := DeviceRunner.new_PLCDevice "plc" (Some (<["set_param" := true]> ∅))]> ∅.

Definition init : DeviceRunner.Command (DeviceRunner.Composite DeviceRunner.DeviceFields) :=
  DeviceRunner.AtomicCompositeCommand "init"
    [DeviceRunner.ConnectCommand plant 0%nat 2 None;
     DeviceRunner.SetParameterCommand plant 0%nat "speed" (DeviceRunner.VInt 42) None;
     DeviceRunner.StartProgramCommand plant 0%nat "Main" None].
End Scenes.

(** A [ConnectCommand] on a device whose [connect] is set to fail always
    raises. *)
Definition connect_keeps_failing (c : DeviceRunner.Command DeviceRunner.DeviceFields)
    (w : gmap DeviceRunner.addr DeviceRunner.PLCDevice) : Prop :=
  DeviceRunner.fields c = DeviceRunner.ConnectF 0%nat 10 /\
  DeviceRunner.fails_on (w !!! 0%nat) "connect" = true.

(** An e-mail without recipient is refused each time it is sent. *)
Definition no_recipient (c : QueuedBus.SendEmailCommand) (w : gmap nat QueuedBus.EmailService)
  : Prop :=
  QueuedBus._to c = EmptyString.

(** ** Further vocabulary *)

Module LedgerTerms.
Import AtomicTransfer.

(** An account within its overdraft limit, and a store of such
    accounts. *)
Definition within_overdraft (acct : BankAccount) : Prop :=
  - overdraft_limit_cents acct <= balance_cents acct.

Definition bank_within_overdraft (w : Bank) : Prop :=
  forall a : addr, within_overdraft (w !!! a).

(** A property of the world that both methods of every command of a
    class keep, whatever they return or raise. *)
Definition kept_by (W X : Type) `{!Methods W X} (P : W -> Prop) : Prop :=
  forall (c : Command X) (w : W),
    P w -> P (execute c w).2 /\ P (undo c w).2.

(** [undoes_ok cmds w cmds' w']: calling [undo] on each command of
    [cmds] in order, from [w], raises nothing. *)
Inductive undoes_ok {W X : Type} `{!Methods W X}
  : list (Command X) -> W -> list (Command X) -> W -> Prop :=
| undoes_ok_nil w : undoes_ok [] w [] w
| undoes_ok_cons c cs w c' w' cs' w'' :
    undo c w = (None, c', w') ->
    undoes_ok cs w' cs' w'' ->
    undoes_ok (c :: cs) w (c' :: cs') w''.

(** The transfers that [withdraw] accepts on the source account. *)
Definition transfer_allowed (w : Bank) (source : addr) (amount : Z) : Prop :=
  0 <= amount /\
  - overdraft_limit_cents (w !!! source) <= balance_cents (w !!! source) - amount.

(** An account already below its floor, and a composite that deposits
    into it: the deposit cannot be compensated. *)
Definition overdrawn_bank : Bank :=
  <[1%nat := mkBankAccount "B" 100 0]> {[ 0%nat := mkBankAccount "A" (-500) 0 ]}.

Definition top_up : Command (Composite LedgerFields) :=
  AtomicCompositeCommand "top up"
    [DepositCommand overdrawn_bank 0%nat 100; WithdrawCommand overdrawn_bank 1%nat 10].

End LedgerTerms.


Module DeviceTerms.
Import DeviceRunner.

(** The device a concrete command acts on. *)
Definition device_of (x : DeviceFields) : addr :=
  match x with
  | ConnectF d _ | DisconnectF d | SetParameterF d _ _ _ _
  | StartProgramF d _ | StopProgramF d _ => d
  end.

(** The commands whose [execute] starts with a device operation that
    checks [self.connected]. *)
Definition needs_connection (x : DeviceFields) : bool :=
  match x with
  | SetParameterF _ _ _ _ _ | StartProgramF _ _ | StopProgramF _ _ => true
  | ConnectF _ _ | DisconnectF _ => false
  end.

(** The states from which [undo] compensates a [run] of the command:
    the device operations involved are not set to fail, and
    - [ConnectCommand]: the device is not connected yet;
    - [DisconnectCommand]: the device is not connected (its [undo] does
      nothing);
    - [SetParameterCommand]: the device is connected and has the key;
    - [StartProgramCommand]: the device is connected and runs nothing;
    - [StopProgramCommand]: the device is connected and runs nothing or
      a program with a non-empty name. *)
Definition compensable (x : DeviceFields) (d : PLCDevice) : Prop :=
  match x with
  | ConnectF _ _ =>
      connected d = false /\ fails_on d "connect" = false /\ fails_on d "disconnect" = false
  | DisconnectF _ => connected d = false
  | SetParameterF _ key _ _ _ =>
      connected d = true /\ fails_on d "set_param" = false /\ is_Some (params d !! key)
  | StartProgramF _ _ =>
      connected d = true /\ fails_on d "start_program" = false /\
      fails_on d "stop_program" = false /\ running_program d = None
  | StopProgramF _ _ =>
      connected d = true /\ fails_on d "start_program" = false /\
      fails_on d "stop_program" = false /\
      (running_program d = None \/ truthy (running_program d) = true)
  end.

(** The error of a device operation on a device that is not connected. *)
Definition not_connected (d : PLCDevice) : exn := device_error d "Not connected.".

(** Two plants of one PLC that is not connected: one idle, one that
    holds a speed and already runs a program. *)
Definition free_plant : Plant := {[ 0%nat := new_PLCDevice "plc" None ]}.
Definition busy_plant : Plant :=
  {[ 0%nat := mkPLCDevice "plc" false {[ "speed" := VInt 7 ]} (Some "Other") ∅ ]}.

(** A PLC that cannot be disconnected. *)
Definition sticky_plant : Plant :=
  {[ 0%nat := new_PLCDevice "plc" (Some {[ "disconnect" := true ]}) ]}.

(** [undoes_ok cmds w cmds' w']: calling [undo] on each command of
    [cmds] in order, from [w], raises nothing. *)
Inductive undoes_ok {W X : Type} `{!Methods W X}
  : list (Command X) -> W -> list (Command X) -> W -> Prop :=
| undoes_ok_nil w : undoes_ok [] w [] w
| undoes_ok_cons c cs w c' w' cs' w'' :
    undo c w = (None, c', w') ->
    undoes_ok cs w' cs' w'' ->
    undoes_ok (c :: cs) w (c' :: cs') w''.

End DeviceTerms.

Module EditorTerms.
Import TextEditor.

(** Every buffer of the store has its cursor inside its text. *)
Definition buffers_ok (w : Buffers) : Prop :=
  forall b : addr, cursor_in_text (w !!! b).

(** A command both of whose methods keep this. *)
Definition keeps_buffers_ok (c : Command) : Prop :=
  forall w, buffers_ok w -> buffers_ok (execute c w).2 /\ buffers_ok (undo c w).2.

(** Two stores that hold the same buffers. *)
Definition same_buffers (w w' : Buffers) : Prop :=
  forall b : addr, w !!! b = w' !!! b.

(** A command whose methods depend on the store through the buffers
    it holds only, and one that [undo] undoes. *)
Definition reads_buffers_only (c : Command) : Prop :=
  forall w w', same_buffers w w' ->
    (execute c w).1 = (execute c w').1 /\ same_buffers (execute c w).2 (execute c w').2 /\
    (undo c w).1 = (undo c w').1 /\ same_buffers (undo c w).2 (undo c w').2.

Definition undone_by_undo (c : Command) : Prop :=
  forall w, buffers_ok w ->
    same_buffers (undo (execute c w).1 (execute c w).2).2 w.

(** Insertions, cursor moves, and macros of these. *)
Inductive inserts_and_moves : Command -> Prop :=
| im_insert d b t p : inserts_and_moves (InsertTextC d b t p)
| im_move d b t p : inserts_and_moves (MoveCursorC d b t p)
| im_macro d items n :
    Forall inserts_and_moves items -> inserts_and_moves (MacroCommandC d items n).

(** What a caller can ask of an [Invoker]. *)
Inductive request :=
| Run (cmd : Command)
| Undo
| Redo.

Definition serve (r : request) (self : Invoker) (w : Buffers) : Invoker * Buffers :=
  match r with
  | Run cmd => invoker_run cmd self w
  | Undo => let '(_, self', w') := invoker_undo self w in (self', w')
  | Redo => let '(_, self', w') := invoker_redo self w in (self', w')
  end.

Definition serve_all (rs : list request) (self : Invoker) (w : Buffers) : Invoker * Buffers :=
  fold_left (fun s r => serve r s.1 s.2) rs (self, w).

(** The number of commands an invoker holds. *)
Definition history_size (self : Invoker) : Z :=
  Z.of_nat (length (_undo_stack self) + length (_redo_stack self)).

End EditorTerms.

Module QueueTerms.
Import QueuedBus.

(** Pushing envelopes one after the other, and popping up to [n]. *)
Definition enqueue_all {C} (envs : list (CommandEnvelope C)) (q : InMemoryQueue C)
  : InMemoryQueue C :=
  fold_left (fun q env => enqueue env q) envs q.

Fixpoint dequeue_n {C} (n : nat) (q : InMemoryQueue C)
  : list (CommandEnvelope C) * InMemoryQueue C :=
  match n with
  | O => ([], q)
  | S n' =>
      match dequeue q with
      | (Return env, q') => let '(envs, q'') := dequeue_n n' q' in (env :: envs, q'')
      | (Raise _, q') => ([], q')
      end
  end.

(** The polls an envelope can still take: one, and one more for each
    retry it has left. *)
Definition polls_left {C} (env : CommandEnvelope C) : nat :=
  Z.to_nat (Z.max 1 (max_retries (retry_policy env) - attempts env + 1)).

Definition polls_left_all {C} (q : list (CommandEnvelope C)) : nat :=
  foldr (fun env n => (polls_left env + n)%nat) 0%nat q.

(** Commands that raise nothing but [Exception]s. *)
Definition raises_only_exceptions (W C : Type) `{!Methods W C} : Prop :=
  forall (c : C) (w : W) exc c' w',
    execute c w = (Some exc, c', w') -> catches ExceptException exc = true.

(** A command that is interrupted: its [execute] raises
    [KeyboardInterrupt], which is no [Exception]. *)
Inductive Interrupted := mkInterrupted.

#[global] Instance interrupted_methods {W} : Methods W Interrupted :=
  {| description := fun _ => "Interrupted";
     execute := fun self w => (Some (PyExn (BaseOnly "KeyboardInterrupt") "" None), self, w) |}.

(** An e-mail the service accepts. *)
Definition deliverable (svc : EmailService) (to subject : string) : Prop :=
  to <> EmptyString /\ Z.of_nat (String.length subject) <= _max_len svc.

End QueueTerms.
(** * Proofs *)

(** ** Facts about atomic_transfer_command.py *)
Module LedgerFacts.
Import AtomicTransfer.

(** *** Facts about the composite's loops *)
Section EngineFacts.
Context {W X : Type} `{!Methods W X}.



Lemma runs_ok_length cmds w cmds' w' :
  runs_ok cmds w cmds' w' -> length cmds' = length cmds.
Proof. induction 1; simpl; congruence. Qed.

Lemma execute_loop_fails_at pre w pre' w_i :
  runs_ok pre w pre' w_i ->
  forall k c post exc c' w_f,
    execute c w_i = (Some exc, c', w_f) ->
    execute_loop (pre ++ c :: post) k w =
      (Some exc, pre' ++ c' :: post, (k + length pre)%nat, w_f,
       map CallExecute (seq k (S (length pre)))).
Proof.
  induction 1 as [w|c0 cs w c0' w' cs' w'' Hc _ IH]; intros k c post exc c' w_f Hf.
  - simpl. rewrite Hf. by rewrite Nat.add_0_r.
  - simpl. rewrite Hc. rewrite (IH (S k) c post exc c' w_f Hf).
    simpl. by rewrite Nat.add_succ_r.
Qed.

Lemma execute_loop_succeeds cmds w cmds' w' :
  runs_ok cmds w cmds' w' ->
  forall k,
    execute_loop cmds k w =
      (None, cmds', (k + length cmds)%nat, w', map CallExecute (seq k (length cmds))).
Proof.
  induction 1 as [w|c0 cs w c0' w' cs' w'' Hc _ IH]; intros k.
  - simpl. by rewrite Nat.add_0_r.
  - simpl. rewrite Hc, (IH (S k)). simpl. by rewrite Nat.add_succ_r.
Qed.

(** Conversely, a raising loop stopped at the first command that
    raised. *)
Lemma execute_loop_raise_inv todo : forall k w exc items1 count w1 tr,
  execute_loop todo k w = (Some exc, items1, count, w1, tr) ->
  exists pre c post pre' c' w_i,
    todo = pre ++ c :: post /\
    runs_ok pre w pre' w_i /\
    execute c w_i = (Some exc, c', w1) /\
    items1 = pre' ++ c' :: post /\
    count = (k + length pre)%nat /\
    tr = map CallExecute (seq k (S (length pre))).
Proof.
  induction todo as [|c0 rest IH]; intros k w exc items1 count w1 tr Hl; simpl in Hl.
  - discriminate.
  - destruct (execute c0 w) as [[[e0|] c0'] w'] eqn:Hc.
    + inversion Hl; subst.
      exists [], c0, rest, [], c0', w. simpl.
      rewrite Nat.add_0_r. repeat split; auto. constructor.
    + destruct (execute_loop rest (S k) w') as [[[[r rest'] cnt'] w''] tr'] eqn:Hr.
      inversion Hl; subst.
      destruct (IH _ _ _ _ _ _ _ Hr) as (pre & c & post & pre' & c' & w_i & -> & Hok & Hf & -> & -> & ->).
      exists (c0 :: pre), c, post, (c0' :: pre'), c', w_i. simpl.
      rewrite Nat.add_succ_r. repeat split; auto.
      econstructor; eauto.
Qed.

Lemma execute_loop_return_inv todo : forall k w items1 count w1 tr,
  execute_loop todo k w = (None, items1, count, w1, tr) ->
  runs_ok todo w items1 w1 /\ count = (k + length todo)%nat /\
  tr = map CallExecute (seq k (length todo)).
Proof.
  induction todo as [|c0 rest IH]; intros k w items1 count w1 tr Hl; simpl in Hl.
  - inversion Hl; subst. rewrite Nat.add_0_r. repeat split; constructor.
  - destruct (execute c0 w) as [[[e0|] c0'] w'] eqn:Hc; [discriminate|].
    destruct (execute_loop rest (S k) w') as [[[[r rest'] cnt'] w''] tr'] eqn:Hr.
    inversion Hl; subst.
    destruct (IH _ _ _ _ _ _ Hr) as (Hok & -> & ->).
    simpl. rewrite Nat.add_succ_r. repeat split; auto.
    econstructor; eauto.
Qed.

Lemma rollback_loop_spec cmds : forall w,
  exists undone w',
    rollback_loop cmds w = (undone, w', map CallUndo (rev (seq 0 (length cmds)))) /\
    undone_swallowing cmds w undone w'.
Proof.
  induction cmds as [|c rest IH]; intros w.
  - exists [], w. split; [reflexivity|constructor].
  - simpl rollback_loop.
    destruct (undo c w) as [[r c'] w'] eqn:Hu.
    destruct (IH w') as (undone & w'' & Hr & Hs).
    rewrite Hr. exists (c' :: undone), w''. split.
    + change (length (c :: rest)) with (S (length rest)).
      rewrite seq_S, rev_app_distr. reflexivity.
    + econstructor; eauto.
Qed.

Lemma undone_swallowing_length cmds w cmds' w' :
  undone_swallowing cmds w cmds' w' -> length cmds' = length cmds.
Proof. induction 1; simpl; congruence. Qed.
End EngineFacts.

(** *** The composite's [execute] at the first failing sub-command *)
Section CompositeExecute.
Context {W X : Type} `{!Methods W X}.


Lemma composite_execute_first_failure
    (self : Command (Composite X)) (w : W) (i : nat) pre' w_i c_i c_i' w_f exc :
  runs_ok (take i (_items (fields self))) w pre' w_i ->
  _items (fields self) !! i = Some c_i ->
  execute c_i w_i = (Some exc, c_i', w_f) ->
  exists undone w',
    undone_swallowing (rev pre') w_f undone w' /\
    composite_execute self w =
      (Some (rolled_back_error exc),
       mkCommand (_description self) false
         (mkComposite (rev undone ++ c_i' :: drop (S i) (_items (fields self))) i),
       w',
       map CallExecute (seq 0 (S i)) ++ map CallUndo (rev (seq 0 i))).
Proof.
  intros Hok Hi Hf.
  pose proof (lookup_lt_Some _ _ _ Hi) as Hlt.
  pose proof (runs_ok_length _ _ _ _ Hok) as Hlen.
  rewrite length_take in Hlen.
  assert (Hpre : length pre' = i) by lia.
  destruct (rollback_loop_spec (rev pre') w_f) as (undone & w' & Hr & Hs).
  exists undone, w'. split; [exact Hs|].
  unfold composite_execute.
  rewrite <- (take_drop_middle _ _ _ Hi) at 1.
  rewrite (execute_loop_fails_at _ _ _ _ Hok 0%nat c_i _ exc c_i' w_f Hf).
  rewrite length_take, Nat.min_l by lia. simpl catches. cbv iota.
  rewrite (take_app_length' pre') by lia.
  rewrite Hr. unfold write_back.
  rewrite (drop_app_length' pre') by lia.
  rewrite length_rev, Hpre. reflexivity.
Qed.

(** Whenever [execute] of a composite raises, it stopped at some first
    failing index [i], left [_executed] false and [_executed_count] at
    [i], and called [undo] on the sub-commands [i-1 .. 0] before
    raising. *)
Lemma composite_execute_raise_inv (self : Command (Composite X)) (w : W) err self' w' tr :
  composite_execute self w = (Some err, self', w', tr) ->
  exists i c_i pre' w_i c_i' w_f exc undone,
    _items (fields self) !! i = Some c_i /\
    runs_ok (take i (_items (fields self))) w pre' w_i /\
    execute c_i w_i = (Some exc, c_i', w_f) /\
    undone_swallowing (rev pre') w_f undone w' /\
    err = rolled_back_error exc /\
    _executed self' = false /\
    _executed_count (fields self') = i /\
    _items (fields self') = rev undone ++ c_i' :: drop (S i) (_items (fields self)) /\
    tr = map CallExecute (seq 0 (S i)) ++ map CallUndo (rev (seq 0 i)).
Proof.
  intros He.
  destruct (execute_loop (_items (fields self)) 0 w) as [[[[r items1] count] w1] tr1] eqn:Hl.
  destruct r as [exc|].
  - destruct (execute_loop_raise_inv _ _ _ _ _ _ _ _ Hl)
      as (pre & c & post & pre' & c' & w_i & Hitems & Hok & Hf & -> & -> & ->).
    simpl in *.
    assert (Hi : _items (fields self) !! length pre = Some c).
    { rewrite Hitems. by rewrite list_lookup_middle. }
    assert (Htake : take (length pre) (_items (fields self)) = pre).
    { rewrite Hitems. by rewrite take_app_length. }
    rewrite <- Htake in Hok.
    destruct (composite_execute_first_failure self w (length pre) pre' w_i c c' w1 exc Hok Hi Hf)
      as (undone & w2 & Hs & Heq).
    rewrite Heq in He. inversion He; subst.
    exists (length pre), c, pre', w_i, c', w1, exc, undone. simpl.
    repeat split; auto.
  - unfold composite_execute in He. rewrite Hl in He. discriminate.
Qed.

(** On full success the composite is marked executed and the counter is
    the number of items. *)
Lemma composite_execute_success (self : Command (Composite X)) (w : W) items' w' :
  runs_ok (_items (fields self)) w items' w' ->
  composite_execute self w =
    (None,
     mkCommand (_description self) true (mkComposite items' (length (_items (fields self)))),
     w', map CallExecute (seq 0 (length (_items (fields self))))).
Proof.
  intros Hok. unfold composite_execute.
  by rewrite (execute_loop_succeeds _ _ _ _ Hok 0%nat).
Qed.
End CompositeExecute.

(** *** The two-account transfer *)
Section Transfer.
Variables (w : Bank) (source destination : addr).
Hypothesis distinct : source ≠ destination.

Lemma transfer_succeeds n1 n2 :
  w !!! source = mkBankAccount n1 2000 0 ->
  w !!! destination = mkBankAccount n2 500 0 ->
  exists self' w' tr,
    composite_execute (TransferCommand w source destination 1000) w = (None, self', w', tr) /\
    _executed self' = true /\
    w' !!! source = mkBankAccount n1 1000 0 /\
    w' !!! destination = mkBankAccount n2 1500 0.
Proof.
  intros Hs Hd.
  unfold TransferCommand, add, AtomicCompositeCommand, composite_execute,
    WithdrawCommand, DepositCommand. simpl.
  unfold ledger_execute, withdraw, deposit. simpl.
  rewrite Hs. simpl.
  rewrite lookup_total_insert_ne by done. rewrite Hd. simpl.
  do 3 eexists. split; [reflexivity|]. split; [reflexivity|]. split.
  - rewrite lookup_total_insert_ne by done. by rewrite lookup_total_insert_eq.
  - by rewrite lookup_total_insert_eq.
Qed.

Lemma transfer_rolls_back n1 n2 :
  w !!! source = mkBankAccount n1 500 0 ->
  w !!! destination = mkBankAccount n2 500 0 ->
  exists self' tr,
    composite_execute (TransferCommand w source destination 1000) w =
      (Some (rolled_back_error
               (PyExn AccountError "Insufficient funds (overdraft limit exceeded)." None)),
       self', w, tr) /\
    _executed self' = false.
Proof.
  intros Hs Hd.
  unfold TransferCommand, add, AtomicCompositeCommand, composite_execute,
    WithdrawCommand, DepositCommand. simpl.
  unfold ledger_execute, withdraw. simpl.
  rewrite Hs. simpl.
  do 2 eexists. split; reflexivity.
Qed.
End Transfer.

(** *** Repeating [undo] *)


Lemma ledger_undo_not_executed (c : Command LedgerFields) (w : Bank) :
  _executed c = false -> undo c w = (None, c, w).
Proof. intros H. simpl. unfold ledger_undo. by rewrite H. Qed.

Lemma withdraw_raise_unchanged a n (w : Bank) e w1 :
  withdraw a n w = (Some e, w1) -> w1 = w.
Proof.
  unfold withdraw. destruct (n <? 0); [by inversion 1|].
  destruct (_ <? _); by inversion 1.
Qed.

Lemma deposit_raise_unchanged a n (w : Bank) e w1 :
  deposit a n w = (Some e, w1) -> w1 = w.
Proof. unfold deposit. destruct (n <? 0); by inversion 1. Qed.

Lemma ledger_undo_stable : undo_stable Bank LedgerFields.
Proof.
  intros c w r c' w' Hu. simpl in *.
  destruct r as [e|].
  - (* the raising call left everything as it was *)
    assert (c' = c /\ w' = w) as [-> ->]; [|exact Hu].
    unfold ledger_undo in Hu.
    destruct (_executed c); simpl in Hu; [|discriminate].
    destruct (fields c) as [a n|a n].
    + destruct (withdraw a n w) as [[e1|] w1] eqn:Hw; inversion Hu; subst.
      split; [done|]. eapply withdraw_raise_unchanged; eauto.
    + destruct (deposit a n w) as [[e1|] w1] eqn:Hw; inversion Hu; subst.
      split; [done|]. eapply deposit_raise_unchanged; eauto.
  - (* the returning call left the command not executed *)
    assert (_executed c' = false) as Hc'.
    { unfold ledger_undo in Hu.
      destruct (_executed c) eqn:He; simpl in Hu; [|by inversion Hu; subst].
      destruct (fields c) as [a n|a n].
      - destruct (withdraw a n w) as [[e1|] w1]; by inversion Hu; subst.
      - destruct (deposit a n w) as [[e1|] w1]; by inversion Hu; subst. }
    intros w2. unfold ledger_undo. by rewrite Hc'.
Qed.

Section CompositeUndo.
Context {W X : Type} `{!Methods W X}.

Lemma composite_undo_not_executed (self : Command (Composite X)) (w : W) :
  _executed self = false -> composite_undo self w = (None, self, w, []).
Proof. intros H. unfold composite_undo. by rewrite H. Qed.

Lemma undo_loop_length cmds : forall w r cmds' w' tr,
  undo_loop cmds w = (r, cmds', w', tr) -> length cmds' = length cmds.
Proof.
  induction cmds as [|c rest IH]; intros w r cmds' w' tr Hl; simpl in Hl.
  - by inversion Hl.
  - destruct (undo c w) as [[[e|] c1] w1].
    + by inversion Hl.
    + destruct (undo_loop rest w1) as [[[r1 rest1] w2] tr1] eqn:Hr.
      inversion Hl; subst. simpl. f_equal. eauto.
Qed.

Lemma undo_loop_stable (Hst : undo_stable W X) cmds : forall w r cmds' w' tr,
  undo_loop cmds w = (r, cmds', w', tr) ->
  match r with
  | None => forall w2, undo_loop cmds' w2 = (None, cmds', w2, tr)
  | Some e => undo_loop cmds' w' = (Some e, cmds', w', tr)
  end.
Proof.
  induction cmds as [|c rest IH]; intros w r cmds' w' tr Hl; simpl in Hl.
  - inversion Hl; subst. intros w2. reflexivity.
  - destruct (undo c w) as [[[e|] c1] w1] eqn:Hu.
    + inversion Hl; subst. simpl.
      pose proof (Hst _ _ _ _ _ Hu) as Hagain. simpl in Hagain. by rewrite Hagain.
    + destruct (undo_loop rest w1) as [[[r1 rest1] w2] tr1] eqn:Hr.
      inversion Hl; subst.
      pose proof (Hst _ _ _ _ _ Hu) as Hagain. simpl in Hagain.
      pose proof (IH _ _ _ _ _ Hr) as IH'.
      pose proof (undo_loop_length _ _ _ _ _ _ Hr) as Hlen.
      destruct r.
      * simpl. rewrite Hagain, IH', Hlen. reflexivity.
      * intros w3. simpl. rewrite Hagain, IH', Hlen. reflexivity.
Qed.

(** The slice visited by [undo] is the same after the write-back. *)
Lemma take_write_back undone count (items : list (Command X)) :
  length undone = length (take count items) ->
  take count (write_back undone count items) = rev undone.
Proof.
  intros Hlen. unfold write_back. rewrite length_take in Hlen.
  destruct (decide (count <= length items)%nat).
  - rewrite take_app_length'; [done|]. rewrite length_rev. lia.
  - rewrite drop_ge by lia. rewrite app_nil_r.
    rewrite take_ge; [done|]. rewrite length_rev. lia.
Qed.

Lemma drop_write_back undone count (items : list (Command X)) :
  length undone = length (take count items) ->
  drop count (write_back undone count items) = drop count items.
Proof.
  intros Hlen. unfold write_back. rewrite length_take in Hlen.
  destruct (decide (count <= length items)%nat).
  - rewrite drop_app_length'; [done|]. rewrite length_rev. lia.
  - rewrite (drop_ge items) by lia. rewrite app_nil_r.
    rewrite drop_ge; [done|]. rewrite length_rev. lia.
Qed.

Lemma write_back_again undone count (items : list (Command X)) :
  length undone = length (take count items) ->
  write_back undone count (write_back undone count items) = write_back undone count items.
Proof.
  intros Hlen. unfold write_back at 1. rewrite drop_write_back by done. reflexivity.
Qed.

Lemma composite_undo_stable :
  undo_stable W X -> undo_stable W (Composite X).
Proof.
  intros Hst self w r self' w' Hu. simpl in *.
  unfold composite_undo in Hu.
  destruct (_executed self) eqn:He; simpl in Hu.
  - destruct (undo_loop (rev (take (_executed_count (fields self)) (_items (fields self)))) w)
      as [[[r1 undone] w1] tr] eqn:Hl.
    pose proof (undo_loop_length _ _ _ _ _ _ Hl) as Hlen. rewrite length_rev in Hlen.
    pose proof (undo_loop_stable Hst _ _ _ _ _ _ Hl) as Hagain.
    destruct r1 as [e|]; inversion Hu; subst; clear Hu.
    + unfold composite_undo. simpl.
      rewrite take_write_back by done. rewrite rev_involutive, Hagain.
      simpl. by rewrite write_back_again.
    + intros w2. unfold composite_undo. reflexivity.
  - inversion Hu; subst. intros w2. unfold composite_undo. by rewrite He.
Qed.
End CompositeUndo.

(** Calling [undo] a second time changes neither the command nor the
    world. *)
Lemma undo_twice_no_change {W X : Type} `{!Methods W X} :
  undo_stable W X ->
  forall (c : Command X) (w : W) r c' w',
    undo c w = (r, c', w') -> exists r', undo c' w' = (r', c', w').
Proof.
  intros Hst c w r c' w' Hu. pose proof (Hst _ _ _ _ _ Hu) as H.
  destruct r; eauto.
Qed.


End LedgerFacts.

(** ** Facts about device_command_runner.py *)
Module DeviceFacts.
Import DeviceRunner.

(** *** Facts about [run] *)
Section RunFacts.
Context {W X : Type} `{!Methods W X}.


(** The loop never raises: every exception of [execute] is caught. *)
Lemma run_loop_returns remaining : forall last self w,
  exists res self' w' n, run_loop remaining last self w = (Return res, self', w', n).
Proof.
  induction remaining as [|k IH]; intros last self w; simpl.
  - eauto.
  - destruct (execute self w) as [[[exc|] self1] w1]; [|eauto].
    simpl. destruct (IH (Some exc) self1 w1) as (res & s & w' & n & ->). eauto.
Qed.

Lemma run_loop_all_fail n c w last c' w' last' :
  fails_times n c w last c' w' last' ->
  run_loop n last c w = (Return (mkCommandResult false VNone last'), c', w', n).
Proof.
  induction 1 as [|n c w last exc c1 w1 c' w' last' Hx _ IH]; simpl; [done|].
  by rewrite Hx, IH.
Qed.

Lemma run_loop_first_success k c w last c1 w1 last1 c2 w2 :
  fails_times k c w last c1 w1 last1 ->
  execute c1 w1 = (None, c2, w2) ->
  forall remaining, (k < remaining)%nat ->
    run_loop remaining last c w =
      (Return (mkCommandResult true VNone None), set_executed true c2, w2, S k).
Proof.
  induction 1 as [|n c w last exc c1 w1 c' w' last' Hx _ IH]; intros Hs remaining Hlt.
  - destruct remaining as [|r]; [lia|]. simpl. by rewrite Hs.
  - destruct remaining as [|r]; [lia|]. simpl. rewrite Hx. simpl.
    rewrite (IH Hs r) by lia. reflexivity.
Qed.

(** What a result of the loop says about the calls made. *)
Lemma run_loop_inv remaining : forall last self w res self' w' n,
  run_loop remaining last self w = (Return res, self', w', n) ->
  (success res = false /\ n = remaining /\ value res = VNone /\
   fails_times remaining self w last self' w' (error res)) \/
  (success res = true /\ _executed self' = true /\ error res = None /\
   exists k c1 w1 last1 c2,
     (k < remaining)%nat /\ n = S k /\ fails_times k self w last c1 w1 last1 /\
     execute c1 w1 = (None, c2, w') /\ self' = set_executed true c2).
Proof.
  induction remaining as [|r IH]; intros last self w res self' w' n Hr; simpl in Hr.
  - inversion Hr; subst. left. simpl. repeat split. constructor.
  - destruct (execute self w) as [[[exc|] self1] w1] eqn:Hx.
    + simpl in Hr.
      destruct (run_loop r (Some exc) self1 w1) as [[[r1 s1] w2] n1] eqn:Hl.
      inversion Hr; subst.
      destruct (IH _ _ _ _ _ _ _ Hl) as [(Hs & -> & Hv & Hf)|(Hs & He & Herr & k & c1 & w3 & l1 & c2 & Hk & -> & Hf & Hx2 & ->)].
      * left. repeat split; auto. econstructor; eauto.
      * right. repeat split; auto.
        exists (S k), c1, w3, l1, c2. repeat split; auto; [lia|]. econstructor; eauto.
    + inversion Hr; subst. right. simpl. repeat split.
      exists 0%nat, self, w, last, self1. repeat split; auto; [lia|]. constructor.
Qed.

Lemma run_returns (self : Command X) (w : W) :
  exists res self' w' n, run self w = (Return res, self', w', n).
Proof. apply run_loop_returns. Qed.

Lemma run_success_executed (self : Command X) (w : W) res self' w' n :
  run self w = (Return res, self', w', n) -> success res = true -> _executed self' = true.
Proof.
  intros Hr Hs. destruct (run_loop_inv _ _ _ _ _ _ _ _ Hr) as [(Hf & _)|(_ & He & _)]; [|done].
  congruence.
Qed.

Lemma total_attempts_nat (self : Command X) (N : Z) :
  max_retries (_retry_policy self) = N -> 0 <= N ->
  Z.to_nat (total_attempts self) = S (Z.to_nat N).
Proof. intros HN Hpos. unfold total_attempts. rewrite HN. lia. Qed.


Lemma always_raises_fails_times Inv (Hinv : always_raises Inv) n : forall c w last,
  Inv c w -> exists c' w' last', fails_times n c w last c' w' last' /\ Inv c' w' /\
                                 (0 < n -> is_Some last')%nat.
Proof.
  induction n as [|n IH]; intros c w last Hc.
  - exists c, w, last. split; [constructor|]. split; [done|lia].
  - destruct (Hinv _ _ Hc) as (exc & c1 & w1 & Hx & Hc1).
    destruct (IH c1 w1 (Some exc) Hc1) as (c' & w' & last' & Hf & Hc' & Hl).
    exists c', w', last'. split; [econstructor; eauto|]. split; [done|].
    intros _. destruct n; [inversion Hf; subst; eauto|apply Hl; lia].
Qed.
End RunFacts.

(** *** Facts about the composite's loops *)
Section EngineFacts.
Context {W X : Type} `{!Methods W X}.



Lemma device_runs_ok_length cmds w cmds' w' :
  runs_ok cmds w cmds' w' -> length cmds' = length cmds.
Proof. induction 1; simpl; congruence. Qed.

Lemma runs_ok_executed cmds w cmds' w' :
  runs_ok cmds w cmds' w' -> Forall (fun c => _executed c = true) cmds'.
Proof.
  induction 1; constructor; auto. eapply run_success_executed; eauto.
Qed.

Lemma device_execute_loop_fails_at pre w pre' w_i :
  runs_ok pre w pre' w_i ->
  forall k c post res c' w_f n,
    run c w_i = (Return res, c', w_f, n) ->
    success res = false ->
    execute_loop (pre ++ c :: post) k w =
      (Some (sub_command_failed c' res), pre' ++ c' :: post, (k + length pre)%nat, w_f,
       map CallRun (seq k (S (length pre)))).
Proof.
  induction 1 as [w|c0 cs w res0 n0 c0' w' cs' w'' Hc Hs _ IH];
    intros k c post res c' w_f n Hf Hfs.
  - simpl. rewrite Hf, Hfs. simpl. by rewrite Nat.add_0_r.
  - simpl. rewrite Hc, Hs. simpl. rewrite (IH (S k) c post res c' w_f n Hf Hfs).
    simpl. by rewrite Nat.add_succ_r.
Qed.

Lemma device_execute_loop_succeeds cmds w cmds' w' :
  runs_ok cmds w cmds' w' ->
  forall k,
    execute_loop cmds k w =
      (None, cmds', (k + length cmds)%nat, w', map CallRun (seq k (length cmds))).
Proof.
  induction 1 as [w|c0 cs w res0 n0 c0' w' cs' w'' Hc Hs _ IH]; intros k.
  - simpl. by rewrite Nat.add_0_r.
  - simpl. rewrite Hc, Hs. simpl. rewrite (IH (S k)). simpl. by rewrite Nat.add_succ_r.
Qed.

Lemma device_execute_loop_raise_inv todo : forall k w exc items1 count w1 tr,
  execute_loop todo k w = (Some exc, items1, count, w1, tr) ->
  exists pre c post pre' c' w_i res n,
    todo = pre ++ c :: post /\
    runs_ok pre w pre' w_i /\
    run c w_i = (Return res, c', w1, n) /\
    success res = false /\
    exc = sub_command_failed c' res /\
    items1 = pre' ++ c' :: post /\
    count = (k + length pre)%nat /\
    tr = map CallRun (seq k (S (length pre))).
Proof.
  induction todo as [|c0 rest IH]; intros k w exc items1 count w1 tr Hl; simpl in Hl.
  - discriminate.
  - destruct (run_returns c0 w) as (res0 & c0' & w' & n0 & Hc). rewrite Hc in Hl.
    destruct (success res0) eqn:Hs; simpl in Hl.
    + destruct (execute_loop rest (S k) w') as [[[[r rest'] cnt'] w''] tr'] eqn:Hr.
      inversion Hl; subst.
      destruct (IH _ _ _ _ _ _ _ Hr)
        as (pre & c & post & pre' & c' & w_i & res & n & -> & Hok & Hf & Hfs & -> & -> & -> & ->).
      exists (c0 :: pre), c, post, (c0' :: pre'), c', w_i, res, n. simpl.
      rewrite Nat.add_succ_r. repeat split; auto.
      econstructor; eauto.
    + inversion Hl; subst.
      exists [], c0, rest, [], c0', w, res0, n0. simpl.
      rewrite Nat.add_0_r. repeat split; auto. constructor.
Qed.

(** On commands that are all marked executed, the guard of the
    rollback loop lets every [undo] through. *)
Lemma device_rollback_loop_spec cmds : forall w,
  Forall (fun c => _executed c = true) cmds ->
  exists undone w',
    rollback_loop cmds w = (undone, w', map CallUndo (rev (seq 0 (length cmds)))) /\
    undone_swallowing cmds w undone w'.
Proof.
  induction cmds as [|c rest IH]; intros w Hall.
  - exists [], w. split; [reflexivity|constructor].
  - inversion Hall as [|? ? Hc Hrest]; subst.
    simpl rollback_loop. rewrite Hc.
    destruct (undo c w) as [[r c'] w'] eqn:Hu.
    destruct (IH w' Hrest) as (undone & w'' & Hr & Hs).
    rewrite Hr. exists (c' :: undone), w''. split.
    + change (length (c :: rest)) with (S (length rest)).
      rewrite seq_S, rev_app_distr. reflexivity.
    + econstructor; eauto.
Qed.
End EngineFacts.

Section CompositeExecute.
Context {W X : Type} `{!Methods W X}.

Lemma device_composite_execute_first_failure
    (self : Command (Composite X)) (w : W) (i : nat) pre' w_i c_i c_i' w_f res n :
  runs_ok (take i (_items (fields self))) w pre' w_i ->
  _items (fields self) !! i = Some c_i ->
  run c_i w_i = (Return res, c_i', w_f, n) ->
  success res = false ->
  exists undone w',
    undone_swallowing (rev pre') w_f undone w' /\
    composite_execute self w =
      (Some (rolled_back_error self (sub_command_failed c_i' res)),
       mkCommand (_description self) false (_retry_policy self)
         (mkComposite (rev undone ++ c_i' :: drop (S i) (_items (fields self))) i),
       w',
       map CallRun (seq 0 (S i)) ++ map CallUndo (rev (seq 0 i))).
Proof.
  intros Hok Hi Hf Hfs.
  pose proof (lookup_lt_Some _ _ _ Hi) as Hlt.
  pose proof (device_runs_ok_length _ _ _ _ Hok) as Hlen.
  rewrite length_take in Hlen.
  assert (Hpre : length pre' = i) by lia.
  assert (Hall : Forall (fun c => _executed c = true) (rev pre')).
  { apply Forall_rev. eapply runs_ok_executed; eauto. }
  destruct (device_rollback_loop_spec (rev pre') w_f Hall) as (undone & w' & Hr & Hs).
  exists undone, w'. split; [exact Hs|].
  unfold composite_execute.
  rewrite <- (take_drop_middle _ _ _ Hi) at 1.
  rewrite (device_execute_loop_fails_at _ _ _ _ Hok 0%nat c_i _ res c_i' w_f n Hf Hfs).
  rewrite length_take, Nat.min_l by lia. simpl catches. cbv iota.
  rewrite (take_app_length' pre') by lia.
  rewrite Hr. unfold write_back.
  rewrite (drop_app_length' pre') by lia.
  rewrite length_rev, Hpre. reflexivity.
Qed.

Lemma device_composite_execute_raise_inv (self : Command (Composite X)) (w : W) err self' w' tr :
  composite_execute self w = (Some err, self', w', tr) ->
  exists i c_i pre' w_i c_i' w_f res n undone,
    _items (fields self) !! i = Some c_i /\
    runs_ok (take i (_items (fields self))) w pre' w_i /\
    run c_i w_i = (Return res, c_i', w_f, n) /\
    success res = false /\
    undone_swallowing (rev pre') w_f undone w' /\
    err = rolled_back_error self (sub_command_failed c_i' res) /\
    _executed self' = false /\
    _executed_count (fields self') = i /\
    _items (fields self') = rev undone ++ c_i' :: drop (S i) (_items (fields self)) /\
    tr = map CallRun (seq 0 (S i)) ++ map CallUndo (rev (seq 0 i)).
Proof.
  intros He.
  destruct (execute_loop (_items (fields self)) 0 w) as [[[[r items1] count] w1] tr1] eqn:Hl.
  destruct r as [exc|].
  - destruct (device_execute_loop_raise_inv _ _ _ _ _ _ _ _ Hl)
      as (pre & c & post & pre' & c' & w_i & res & n & Hitems & Hok & Hf & Hfs & -> & -> & -> & ->).
    simpl in *.
    assert (Hi : _items (fields self) !! length pre = Some c).
    { rewrite Hitems. by rewrite list_lookup_middle. }
    assert (Htake : take (length pre) (_items (fields self)) = pre).
    { rewrite Hitems. by rewrite take_app_length. }
    rewrite <- Htake in Hok.
    destruct (device_composite_execute_first_failure self w (length pre) pre' w_i c c' w1 res n
                Hok Hi Hf Hfs) as (undone & w2 & Hs & Heq).
    rewrite Heq in He. inversion He; subst.
    exists (length pre), c, pre', w_i, c', w1, res, n, undone. simpl.
    repeat split; auto.
  - unfold composite_execute in He. rewrite Hl in He. discriminate.
Qed.
End CompositeExecute.

(** *** The concrete device commands: [undo] *)

Lemma device_undo_keeps_fields (c : Command DeviceFields) (w : Plant) r c' w' :
  device_undo c w = (r, c', w') -> c' = c.
Proof.
  unfold device_undo. intros H.
  destruct (fields c) as [d t|d|d k v p h|d p|d p];
    repeat match type of H with
      | context [if ?b then _ else _] => destruct b
      | context [let '(_, _) := ?x in _] => destruct x
      | context [match ?x with _ => _ end] => destruct x
      end; by inversion H.
Qed.

Lemma disconnect_again a (w : Plant) r w' :
  disconnect a w = (r, w') -> exists r', disconnect a w' = (r', w').
Proof.
  unfold disconnect. intros H.
  destruct (connected (w !!! a)) eqn:Hc; simpl in H.
  - destruct (fails_on (w !!! a) "disconnect") eqn:Hf; inversion H; subst.
    + rewrite Hc, Hf. simpl. eauto.
    + rewrite lookup_total_insert_eq. simpl. eauto.
  - inversion H; subst. rewrite Hc. simpl. eauto.
Qed.

Lemma set_param_again a k v (w : Plant) r w' :
  set_param a k v w = (r, w') -> exists r', set_param a k v w' = (r', w').
Proof.
  unfold set_param. intros H.
  destruct (connected (w !!! a)) eqn:Hc; simpl in H.
  - destruct (fails_on (w !!! a) "set_param") eqn:Hf; inversion H; subst.
    + rewrite Hc, Hf. simpl. eauto.
    + rewrite lookup_total_insert_eq. unfold fails_on in *. simpl. rewrite Hc. simpl.
      rewrite Hf. unfold set_params. simpl.
      rewrite !insert_insert_eq. eauto.
  - inversion H; subst. rewrite Hc. simpl. eauto.
Qed.

Lemma stop_program_settles a p (w : Plant) r w' :
  stop_program a w = (r, w') ->
  running_program (w !!! a) = Some p ->
  r = None -> running_program (w' !!! a) = None.
Proof.
  unfold stop_program. intros H Hp ->.
  destruct (connected (w !!! a)); simpl in H; [|discriminate].
  destruct (fails_on (w !!! a) "stop_program"); inversion H; subst.
  by rewrite lookup_total_insert_eq.
Qed.

Lemma stop_program_raise_unchanged a (w : Plant) e w' :
  stop_program a w = (Some e, w') -> w' = w.
Proof.
  unfold stop_program.
  destruct (connected (w !!! a)); simpl; [|by inversion 1].
  destruct (fails_on (w !!! a) "stop_program"); by inversion 1.
Qed.

Lemma start_program_raise_unchanged a p (w : Plant) e w' :
  start_program a p w = (Some e, w') -> w' = w.
Proof.
  unfold start_program.
  destruct (connected (w !!! a)); simpl; [|by inversion 1].
  destruct (fails_on (w !!! a) "start_program"); [by inversion 1|].
  destruct (truthy (running_program (w !!! a))); by inversion 1.
Qed.

Lemma start_program_again a p (w : Plant) w' :
  truthy (Some p) = true ->
  start_program a p w = (None, w') ->
  exists e, start_program a p w' = (Some e, w').
Proof.
  unfold start_program. intros Hp H.
  destruct (connected (w !!! a)) eqn:Hc; simpl in H; [|discriminate].
  destruct (fails_on (w !!! a) "start_program") eqn:Hf; [discriminate|].
  destruct (truthy (running_program (w !!! a))); inversion H; subst.
  rewrite lookup_total_insert_eq. unfold fails_on in *. simpl in *. rewrite Hc, Hf. simpl.
  rewrite Hp. eauto.
Qed.

(** A second [undo] in a row leaves the command and the devices as the
    first one left them. *)
Lemma device_undo_twice (c : Command DeviceFields) (w : Plant) r c' w' :
  device_undo c w = (r, c', w') -> exists r', device_undo c' w' = (r', c', w').
Proof.
  intros H. pose proof (device_undo_keeps_fields _ _ _ _ _ H) as ->.
  unfold device_undo in *.
  destruct (fields c) as [d t|d|d k v p h|d p|d p].
  - destruct (disconnect d w) as [r1 w1] eqn:Hd. inversion H; subst.
    destruct (disconnect_again _ _ _ _ Hd) as (r' & ->). eauto.
  - inversion H; subst. eauto.
  - destruct (_executed c); simpl in *; [|inversion H; subst; eauto].
    destruct h.
    + destruct (set_param d k p w) as [r1 w1] eqn:Hs.
      assert (w1 = w') as -> by (destruct r1; by inversion H).
      destruct (set_param_again _ _ _ _ _ _ Hs) as (r' & ->).
      destruct r'; eauto.
    + inversion H; subst. rewrite lookup_total_insert_eq. unfold set_params. simpl.
      rewrite delete_delete_eq, insert_insert_eq. eauto.
  - destruct (_executed c); simpl in *; [|inversion H; subst; eauto].
    destruct (bool_decide (running_program (w !!! d) = Some p)) eqn:Hb.
    + apply bool_decide_eq_true in Hb.
      destruct (stop_program d w) as [[e|] w1] eqn:Hs; inversion H; subst.
      * pose proof (stop_program_raise_unchanged _ _ _ _ Hs) as ->.
        rewrite bool_decide_eq_true_2 by done. rewrite Hs. eauto.
      * rewrite (stop_program_settles _ _ _ _ _ Hs Hb eq_refl).
        rewrite bool_decide_eq_false_2 by done. eauto.
    + inversion H; subst. rewrite Hb. eauto.
  - destruct (_executed c); simpl in *; [|inversion H; subst; eauto].
    destruct (truthy p) eqn:Hp; [|inversion H; subst; eauto].
    destruct p as [p|]; [|discriminate]. simpl in *.
    destruct (start_program d p w) as [[e|] w1] eqn:Hs; inversion H; subst.
    + pose proof (start_program_raise_unchanged _ _ _ _ _ Hs) as ->. rewrite Hs. eauto.
    + destruct (start_program_again _ _ _ _ Hp Hs) as (e & ->). eauto.
Qed.

(** [undo] on a command that is not marked executed does nothing, for
    every concrete command but [ConnectCommand]. *)
Lemma device_undo_not_executed (c : Command DeviceFields) (w : Plant) :
  _executed c = false ->
  (forall d t, fields c ≠ ConnectF d t) ->
  device_undo c w = (None, c, w).
Proof.
  intros He Hn. unfold device_undo.
  destruct (fields c) as [d t|d|d k v p h|d p|d p]; rewrite ?He; simpl; try done.
  by destruct (Hn d t).
Qed.

Section DeviceCompositeUndo.
Context {W X : Type} `{!Methods W X}.

Lemma device_composite_undo_not_executed (self : Command (Composite X)) (w : W) :
  _executed self = false -> composite_undo self w = (None, self, w, []).
Proof. intros H. unfold composite_undo. by rewrite H. Qed.

(** After an [undo] that returned, the composite is not executed and
    its counter is 0: a second [undo] does nothing. *)
Lemma composite_undo_returned (self : Command (Composite X)) (w : W) self' w' tr :
  composite_undo self w = (None, self', w', tr) ->
  forall w2, composite_undo self' w2 = (None, self', w2, []).
Proof.
  unfold composite_undo at 1. intros H w2.
  destruct (_executed self) eqn:He; simpl in H.
  - destruct (undo_loop _ w) as [[[[e|] undone] w1] tr1]; inversion H; subst.
    by apply device_composite_undo_not_executed.
  - inversion H; subst. by apply device_composite_undo_not_executed.
Qed.
End DeviceCompositeUndo.

(** *** [SetParameterCommand]: [run] then [undo] *)
Section SetParameter.
Variables (w : Plant) (device : addr) (key : string) (v : pyval).
Hypothesis is_connected : connected (w !!! device) = true.
Hypothesis no_failure : fails_on (w !!! device) "set_param" = false.

Let cmd := SetParameterCommand w device key v None.

Lemma set_parameter_run :
  run cmd w =
    (Return (mkCommandResult true VNone None),
     mkCommand (_description cmd) true default_policy
       (SetParameterF device key v (default VNone (params (w !!! device) !! key)) true),
     <[device := set_params (<[key := v]> (params (w !!! device))) (w !!! device)]> w,
     1%nat).
Proof.
  unfold run, total_attempts, cmd, SetParameterCommand, new_command. simpl.
  unfold device_execute. simpl. unfold set_param.
  rewrite is_connected, no_failure. simpl.
  rewrite lookup_total_insert_eq. simpl. rewrite lookup_insert_eq.
  reflexivity.
Qed.

(** The key was present before: [undo] puts its value back and the
    parameters are exactly as before. *)
Lemma set_parameter_undo_present v0 :
  params (w !!! device) !! key = Some v0 ->
  exists c1 w1 c2 w2,
    run cmd w = (Return (mkCommandResult true VNone None), c1, w1, 1%nat) /\
    undo c1 w1 = (None, c2, w2) /\
    params (w2 !!! device) = params (w !!! device).
Proof.
  intros Hk. do 4 eexists. split; [apply set_parameter_run|].
  simpl. unfold device_undo. simpl. unfold set_param.
  rewrite lookup_total_insert_eq. simpl. rewrite is_connected. simpl.
  unfold fails_on in *. simpl. rewrite no_failure.
  split; [reflexivity|].
  rewrite lookup_total_insert_eq. simpl.
  rewrite insert_insert_eq, Hk. simpl. by apply insert_id.
Qed.

(** The key was absent before: [_had_prev] was read after the write, so
    [undo] writes [None] under the key instead of removing it. *)
Lemma set_parameter_undo_absent :
  params (w !!! device) !! key = None ->
  exists c1 w1 c2 w2,
    run cmd w = (Return (mkCommandResult true VNone None), c1, w1, 1%nat) /\
    undo c1 w1 = (None, c2, w2) /\
    params (w2 !!! device) !! key = Some VNone.
Proof.
  intros Hk. do 4 eexists. split; [apply set_parameter_run|].
  simpl. unfold device_undo. simpl. unfold set_param.
  rewrite lookup_total_insert_eq. simpl. rewrite is_connected. simpl.
  unfold fails_on in *. simpl. rewrite no_failure.
  split; [reflexivity|].
  rewrite lookup_total_insert_eq. simpl.
  rewrite lookup_insert_eq, Hk. reflexivity.
Qed.
End SetParameter.


End DeviceFacts.

(** ** Facts about text_editor_command.py *)
Module EditorFacts.
Import TextEditor.

Lemma execute_macro d items n w :
  execute (MacroCommandC d items n) w =
    let '(items', n', w') := execute_loop items 0 w in (MacroCommandC d items' n', w').
Proof. reflexivity. Qed.

Lemma undo_macro d items n w :
  undo (MacroCommandC d items n) w =
    let '(items', w') := undo_first items n w in (MacroCommandC d items' 0, w').
Proof. reflexivity. Qed.

(** *** Facts about slicing *)

Lemma app_str_cons ch (a b : string) : String ch a +:+ b = String ch (a +:+ b).
Proof. reflexivity. Qed.

Lemma app_str_nil_l (b : string) : EmptyString +:+ b = b.
Proof. reflexivity. Qed.

Lemma length_app_str (a b : string) :
  String.length (a +:+ b) = (String.length a + String.length b)%nat.
Proof.
  induction a as [|ch a IH]; [done|].
  rewrite app_str_cons. simpl. by rewrite IH.
Qed.

Lemma str_take_drop n s : str_take n s +:+ str_drop n s = s.
Proof.
  revert s. induction n as [|n IH]; intros [|ch s]; simpl; try done.
  by rewrite app_str_cons, IH.
Qed.

Lemma str_take_length n s :
  (n <= String.length s)%nat -> String.length (str_take n s) = n.
Proof.
  revert s. induction n as [|n IH]; intros [|ch s]; simpl; intros H; try done; try lia.
  rewrite IH; [done|lia].
Qed.

Lemma str_take_app_length a b : str_take (String.length a) (a +:+ b) = a.
Proof.
  induction a as [|ch a IH].
  - rewrite app_str_nil_l. by destruct b.
  - rewrite app_str_cons. simpl. by rewrite IH.
Qed.

Lemma str_drop_app_length a b n :
  str_drop (String.length a + n) (a +:+ b) = str_drop n b.
Proof.
  induction a as [|ch a IH]; [done|].
  rewrite app_str_cons. simpl. exact IH.
Qed.

Lemma app_str_nil_r s : s +:+ EmptyString = s.
Proof.
  induction s as [|ch s IH]; [done|]. by rewrite app_str_cons, IH.
Qed.


Lemma slice_index_in_range i s :
  0 <= i <= len s -> slice_index i s = Z.to_nat i.
Proof.
  intros H. unfold slice_index.
  destruct (i <? 0) eqn:Hneg; [lia|]. f_equal. lia.
Qed.

Lemma insert_text_at buf s :
  cursor_in_text buf ->
  insert s buf =
    mkTextBuffer (str_take (Z.to_nat (cursor buf)) (text buf) +:+ s +:+
                  str_drop (Z.to_nat (cursor buf)) (text buf))
                 (cursor buf + len s).
Proof.
  intros H. unfold insert, slice_to, slice_from.
  by rewrite slice_index_in_range.
Qed.

Lemma insert_keeps_cursor_in_text buf s :
  cursor_in_text buf -> cursor_in_text (insert s buf).
Proof.
  intros H. rewrite insert_text_at by done. unfold cursor_in_text in *. simpl.
  unfold len in *. rewrite !length_app_str.
  pose proof (str_take_drop (Z.to_nat (cursor buf)) (text buf)) as Htd.
  apply (f_equal String.length) in Htd. rewrite length_app_str in Htd. lia.
Qed.

(** Deleting the inserted slice from where it was inserted gives the
    buffer back: what [InsertText.undo] does after [InsertText.execute]. *)
Lemma insert_then_remove buf s :
  cursor_in_text buf ->
  (delete (len s) (move_cursor (cursor buf) (insert s buf)).2).2 = buf.
Proof.
  intros H. rewrite insert_text_at by done.
  destruct buf as [t c]. unfold cursor_in_text, len in *. simpl in *.
  set (n := Z.to_nat c).
  assert (Hn : (n <= String.length t)%nat) by lia.
  pose proof (str_take_length n t Hn) as Htl.
  assert (Hc : c = Z.of_nat n) by lia.
  set (t' := str_take n t +:+ s +:+ str_drop n t).
  assert (Hlen : String.length t' =
                 (n + String.length s + String.length (str_drop n t))%nat).
  { unfold t'. rewrite !length_app_str, Htl. lia. }
  unfold move_cursor, delete, slice_to, slice_from, len. simpl.
  replace (Z.max 0 (Z.min c (Z.of_nat (String.length t')))) with c by lia.
  rewrite !slice_index_in_range by (unfold len; lia).
  f_equal.
  replace (Z.to_nat c) with (String.length (str_take n t)) by lia.
  unfold t'. rewrite str_take_app_length.
  replace (Z.to_nat (c + Z.of_nat (String.length s)))
    with (String.length (str_take n t) + (String.length s + 0))%nat by lia.
  rewrite !str_drop_app_length. simpl.
  apply str_take_drop.
Qed.

(** *** A macro of insertions into one buffer *)
Section MacroOfInserts.
Variable b : addr.


(** After the loop of [execute], undoing the first [length ts] items
    last-to-first gives every buffer its content back. *)
Lemma inserts_round_trip ts : forall k (w : Buffers),
  cursor_in_text (w !!! b) ->
  forall items' n w1,
    execute_loop (map (InsertText b) ts) k w = (items', n, w1) ->
    n = (k + length ts)%nat /\
    w1 !!! b = insert_all ts (w !!! b) /\
    forall items'' w2,
      undo_first items' (length ts) w1 = (items'', w2) ->
      forall b', w2 !!! b' = w !!! b'.
Proof.
  induction ts as [|t ts IH]; intros k w Hc items' n w1 He.
  - simpl in He. inversion He; subst. split; [simpl; lia|]. split; [done|].
    intros items'' w2 Hu. simpl in Hu. by inversion Hu.
  - simpl in He.
    destruct (execute_loop (map (InsertText b) ts) (S k) (<[b:=insert t (w !!! b)]> w))
      as [[rest' n'] w'] eqn:Hl.
    inversion He; subst. clear He.
    assert (Hc' : cursor_in_text ((<[b:=insert t (w !!! b)]> w) !!! b)).
    { rewrite lookup_total_insert_eq. by apply insert_keeps_cursor_in_text. }
    destruct (IH _ _ Hc' _ _ _ Hl) as (Hn & Hb & Hback).
    rewrite lookup_total_insert_eq in Hb.
    split; [simpl; lia|]. split; [exact Hb|].
    intros items'' w2 Hu. simpl in Hu.
    destruct (undo_first rest' (length ts) w1) as [rest'' w3] eqn:Hr.
    pose proof (Hback _ _ eq_refl) as H3.
    inversion Hu; subst. clear Hu.
    intros b'. destruct (decide (b = b')) as [<-|Hne].
    + rewrite lookup_total_insert_eq.
      rewrite (H3 b), lookup_total_insert_eq.
      pose proof (insert_then_remove (w !!! b) t Hc) as Hrt.
      unfold move_cursor in *. simpl in *. exact Hrt.
    + rewrite lookup_total_insert_ne by done.
      rewrite (H3 b'). by rewrite lookup_total_insert_ne.
Qed.
End MacroOfInserts.

(** *** [undo] before [execute], and [undo] twice *)

Lemma insert_empty buf : insert EmptyString buf = buf.
Proof.
  destruct buf as [t c]. unfold insert, slice_to, slice_from. simpl.
  rewrite app_str_nil_l, str_take_drop. f_equal. unfold len. simpl. lia.
Qed.


Lemma undo_first_none items (w : Buffers) : undo_first items 0 w = (items, w).
Proof. by destruct items. Qed.

Lemma undo_never_executed (c : Command) (w : Buffers) :
  never_executed c ->
  (undo c w).1 = c /\ forall b, (undo c w).2 !!! b = w !!! b.
Proof.
  destruct c as [d b t sp|d b n del|d b t p|d items n]; simpl; intros ->; try done.
  - split; [done|]. intros b'. rewrite insert_empty.
    destruct (decide (b = b')) as [<-|Hne].
    + by rewrite lookup_total_insert_eq.
    + by rewrite lookup_total_insert_ne.
  - change (undo (MacroCommandC d items 0) w) with
      (let '(items', w') := undo_first items 0 w in (MacroCommandC d items' 0, w')).
    by rewrite undo_first_none.
Qed.

Lemma move_cursor_undo_twice d b t p (w : Buffers) :
  let '(c1, w1) := undo (MoveCursorC d b t p) w in undo c1 w1 = (c1, w1).
Proof.
  destruct p as [p|]; simpl; [|done].
  rewrite lookup_total_insert_eq. simpl. by rewrite insert_insert_eq.
Qed.

Lemma macro_undo_twice d items n (w : Buffers) :
  let '(c1, w1) := undo (MacroCommandC d items n) w in undo c1 w1 = (c1, w1).
Proof.
  rewrite undo_macro. destruct (undo_first items n w) as [items' w'].
  rewrite undo_macro. by rewrite undo_first_none.
Qed.

(** [InsertText.undo] keeps [_start_pos], so a second call deletes again
    at the same place. *)
Example insert_text_undo_twice :
  let w : Buffers := {[ 0%nat := mkTextBuffer "XY" 0 ]} in
  let '(c1, w1) := execute (InsertText 0%nat "ab") w in
  let '(c2, w2) := undo c1 w1 in
  let '(c3, w3) := undo c2 w2 in
  w1 !!! 0%nat = mkTextBuffer "abXY" 2 /\
  w2 !!! 0%nat = mkTextBuffer "XY" 0 /\
  w3 !!! 0%nat = mkTextBuffer EmptyString 0.
Proof. vm_compute. auto. Qed.

(** [DeleteText.undo] inserts the deleted text each time it is called. *)
Example delete_text_undo_twice :
  let w : Buffers := {[ 0%nat := mkTextBuffer "abc" 0 ]} in
  let '(c1, w1) := execute (DeleteText 0%nat 1) w in
  let '(c2, w2) := undo c1 w1 in
  let '(c3, w3) := undo c2 w2 in
  w1 !!! 0%nat = mkTextBuffer "bc" 0 /\
  w2 !!! 0%nat = mkTextBuffer "abc" 1 /\
  w3 !!! 0%nat = mkTextBuffer "aabc" 2.
Proof. vm_compute. auto. Qed.


End EditorFacts.

(** ** Facts about queued_command_bus.py *)
Module QueueFacts.
Import QueuedBus.


(** *** The empty queue *)


Lemma dequeue_empty {C} (self : InMemoryQueue C) :
  _q self = [] -> dequeue self = (Raise empty_queue_error, self).
Proof. destruct self as [n q]. simpl. intros ->. reflexivity. Qed.

Lemma dequeue_head {C} (self : InMemoryQueue C) env rest :
  _q self = env :: rest -> dequeue self = (Return env, mkQueue (_name self) rest).
Proof. destruct self as [n q]. simpl. intros ->. reflexivity. Qed.

Section WorkerFacts.
Context {W C : Type} `{!Methods W C}.
Variable repr : exn -> string.

Lemma poll_once_empty (self : CommandWorker C) (w : W) :
  _q (_queue self) = [] -> poll_once repr self w = (Return false, self, w).
Proof.
  intros Hq. unfold poll_once. rewrite (dequeue_empty _ Hq). simpl.
  by destruct self.
Qed.

(** *** The dead-letter store *)





(** One step only ever appends to the dead-letter store; if the queued
    envelopes satisfy [pending_ok], they still do afterwards and what
    was appended satisfies [dead_ok]. *)
Lemma poll_once_step (self : CommandWorker C) (w : W) r self' w' :
  poll_once repr self w = (r, self', w') ->
  (exists new, _dead_letter self' = _dead_letter self ++ new /\
               (Forall pending_ok (_q (_queue self)) -> Forall dead_ok new)) /\
  (Forall pending_ok (_q (_queue self)) -> Forall pending_ok (_q (_queue self'))).
Proof.
  unfold poll_once. intros Hp.
  destruct (_q (_queue self)) as [|env rest] eqn:Hq.
  - rewrite (dequeue_empty _ Hq) in Hp. simpl in Hp. inversion Hp; subst. simpl.
    split; [exists []; split; [by rewrite app_nil_r|constructor]|].
    intros _. by rewrite Hq.
  - rewrite (dequeue_head _ _ _ Hq) in Hp.
    assert (Hrest : Forall pending_ok (env :: rest) -> pending_ok env /\ Forall pending_ok rest)
      by (by intros H1; apply Forall_cons in H1).
    destruct (execute (command env) w) as [[[exc|] cmd'] w1].
    + destruct (catches ExceptException exc).
      * simpl in Hp.
        destruct (attempts env + 1 <=? max_retries (retry_policy env)) eqn:Hle;
          inversion Hp; subst; simpl.
        -- apply Z.leb_le in Hle.
           split; [exists []; split; [by rewrite app_nil_r|constructor]|].
           intros Hok. destruct (Hrest Hok) as [He Hr].
           apply Forall_app. split; [done|]. constructor; [|constructor].
           unfold pending_ok in *. simpl. lia.
        -- apply Z.leb_gt in Hle. split.
           ++ eexists. split; [reflexivity|].
              intros Hok. destruct (Hrest Hok) as [He _].
              constructor; [|constructor].
              unfold dead_ok, pending_ok in *. simpl. lia.
           ++ intros Hok. by destruct (Hrest Hok).
      * inversion Hp; subst; simpl.
        split; [exists []; split; [by rewrite app_nil_r|constructor]|].
        intros Hok. by destruct (Hrest Hok).
    + inversion Hp; subst; simpl.
      split; [exists []; split; [by rewrite app_nil_r|constructor]|].
      intros Hok. by destruct (Hrest Hok).
Qed.
End WorkerFacts.

Section WorkerRuns.
Context {W C : Type} `{!Methods W C}.
Variable repr : exn -> string.



End WorkerRuns.


End QueueFacts.

(** ** The repository's tests, on the model *)
Module RepositoryTests.

(** test_atomic_transfer_command.py *)
Example test_transfer_success :
  let w : gmap nat AtomicTransfer.BankAccount :=
    <[1%nat := AtomicTransfer.mkBankAccount "B" 500 0]>
      {[ 0%nat := AtomicTransfer.mkBankAccount "A" 2000 0 ]} in
  let '(r, _, w', _) :=
    AtomicTransfer.composite_execute (AtomicTransfer.TransferCommand w 0%nat 1%nat 1000) w in
  r = None /\
  AtomicTransfer.balance_cents (w' !!! 0%nat) = 1000 /\
  AtomicTransfer.balance_cents (w' !!! 1%nat) = 1500.
Proof. vm_compute. auto. Qed.

Example test_transfer_rollback_on_overdraft :
  let w : gmap nat AtomicTransfer.BankAccount :=
    <[1%nat := AtomicTransfer.mkBankAccount "B" 500 0]>
      {[ 0%nat := AtomicTransfer.mkBankAccount "A" 500 0 ]} in
  let '(r, _, w', _) :=
    AtomicTransfer.composite_execute (AtomicTransfer.TransferCommand w 0%nat 1%nat 1000) w in
  (exn_cls <$> r) = Some TransactionError /\
  AtomicTransfer.balance_cents (w' !!! 0%nat) = 500 /\
  AtomicTransfer.balance_cents (w' !!! 1%nat) = 500.
Proof. vm_compute. auto. Qed.

(** test_device_command_runner.py, with the PLC stub as the device *)
Example test_atomic_setup_success :
  let w : gmap nat DeviceRunner.PLCDevice := {[ 0%nat := DeviceRunner.new_PLCDevice "plc" None ]} in
  let seq :=
    DeviceRunner.AtomicCompositeCommand "init"
      [DeviceRunner.ConnectCommand w 0%nat 2 (Some (DeviceRunner.mkRetryPolicy 1 0));
       DeviceRunner.SetParameterCommand w 0%nat "speed" (DeviceRunner.VInt 42) None;
       DeviceRunner.StartProgramCommand w 0%nat "Main" None] in
  let '(res, _, w', _) := DeviceRunner.run seq w in
  res = Return (DeviceRunner.mkCommandResult true DeviceRunner.VNone None) /\
  DeviceRunner.connected (w' !!! 0%nat) = true /\
  DeviceRunner.params (w' !!! 0%nat) !! "speed" = Some (DeviceRunner.VInt 42) /\
  DeviceRunner.running_program (w' !!! 0%nat) = Some "Main".
Proof. vm_compute. auto. Qed.

Example test_atomic_setup_rollback_on_failure :
  let '(res, _, w', _) := DeviceRunner.run Scenes.init Scenes.plant in
  (DeviceRunner.success <$> (match res with Return r => Some r | Raise _ => None end))
    = Some false /\
  DeviceRunner.params (w' !!! 0%nat) !! "speed" = None /\
  DeviceRunner.running_program (w' !!! 0%nat) = None.
Proof. vm_compute. auto. Qed.

(** test_queued_command_bus.py *)
Example test_queue_success_path :
  let w : gmap nat QueuedBus.EmailService := {[ 0%nat := QueuedBus.new_EmailService 120 ]} in
  let s := QueuedBus.send (QueuedBus.new_SendEmailCommand 0%nat "u@example.com" "S" "B") None
             (QueuedBus.new_worker (QueuedBus.new_queue "q")) in
  let '(r, _, w') := QueuedBus.drain exn_msg 1000 s w in
  r = Return (1, 0) /\
  QueuedBus.outbox (w' !!! 0%nat) = [("u@example.com", "S", "B")].
Proof. vm_compute. auto. Qed.

Example test_queue_dead_letter_on_retries_exhausted :
  let s := QueuedBus.send QueuedBus.mkAlwaysFail (Some (QueuedBus.mkRetryPolicy 1 1))
             (QueuedBus.new_worker (QueuedBus.new_queue "q")) in
  let '(r, s', _) := QueuedBus.drain exn_msg 10 s tt in
  r = Return (2, 1) /\
  QueuedBus.attempts <$> QueuedBus._dead_letter s' = [2].
Proof. vm_compute. auto. Qed.

(** test_text_editor_command.py *)
Example test_insert_and_undo :
  let w : gmap nat TextEditor.TextBuffer := {[ 0%nat := TextEditor.new_TextBuffer ]} in
  let '(cmd, w1) := TextEditor.execute (TextEditor.InsertText 0%nat "Hi") w in
  let '(_, w2) := TextEditor.undo cmd w1 in
  TextEditor.text (w1 !!! 0%nat) = "Hi" /\ TextEditor.text (w2 !!! 0%nat) = EmptyString.
Proof. vm_compute. auto. Qed.

Example test_macro_execute_and_undo :
  let w : gmap nat TextEditor.TextBuffer := {[ 0%nat := TextEditor.new_TextBuffer ]} in
  let macro :=
    TextEditor.MacroCommand
      [TextEditor.InsertText 0%nat "Hello"; TextEditor.InsertText 0%nat " ";
       TextEditor.InsertText 0%nat "World"] in
  let '(macro', w1) := TextEditor.execute macro w in
  let '(_, w2) := TextEditor.undo macro' w1 in
  TextEditor.text (w1 !!! 0%nat) = "Hello World" /\ TextEditor.text (w2 !!! 0%nat) = EmptyString.
Proof. vm_compute. auto. Qed.

Example test_invoker_undo_redo :
  let w : gmap nat TextEditor.TextBuffer := {[ 0%nat := TextEditor.new_TextBuffer ]} in
  let '(inv1, w1) :=
    TextEditor.invoker_run (TextEditor.InsertText 0%nat "A") (TextEditor.new_Invoker 100) w in
  let '(inv2, w2) := TextEditor.invoker_run (TextEditor.InsertText 0%nat "B") inv1 w1 in
  let '(ok3, inv3, w3) := TextEditor.invoker_undo inv2 w2 in
  let '(ok4, inv4, w4) := TextEditor.invoker_redo inv3 w3 in
  TextEditor.text (w2 !!! 0%nat) = "AB" /\
  ok3 = true /\ TextEditor.text (w3 !!! 0%nat) = "A" /\
  ok4 = true /\ TextEditor.text (w4 !!! 0%nat) = "AB".
Proof. vm_compute. auto 10. Qed.

End RepositoryTests.

(** * The properties of the specification *)

(** ** Atomic composites *)


(** C1.  When the [i]-th sub-command of an atomic composite is the first
    to fail during [execute], the composite calls [execute] (ledger) or
    [run] (device) on the sub-commands [0..i] in order, then [undo] on
    exactly the sub-commands [i-1, ..., 0] in that order, drops whatever
    those [undo] calls raise, and raises: in the ledger module a
    [TransactionError] whose cause is the exception of the [i]-th
    sub-command; in the device module a [CommandError] whose cause is the
    [CommandError] naming the failed sub-command, raised from the last
    exception of that sub-command's attempts. *)
Theorem atomic_composite_rolls_back_at_first_failure :
  (forall (W X : Type) (M : AtomicTransfer.Methods W X)
          (self : AtomicTransfer.Command (AtomicTransfer.Composite X)) (w : W)
          (i : nat) pre' w_i c_i c_i' w_f exc,
      AtomicTransfer.runs_ok
        (take i (AtomicTransfer._items (AtomicTransfer.fields self))) w pre' w_i ->
      AtomicTransfer._items (AtomicTransfer.fields self) !! i = Some c_i ->
      AtomicTransfer.execute c_i w_i = (Some exc, c_i', w_f) ->
      exists undone w',
        AtomicTransfer.undone_swallowing (rev pre') w_f undone w' /\
        AtomicTransfer.composite_execute self w =
          (Some (PyExn TransactionError "Atomic composite failed and was rolled back."
                   (Some exc)),
           AtomicTransfer.mkCommand (AtomicTransfer._description self) false
             (AtomicTransfer.mkComposite
                (rev undone ++ c_i' ::
                   drop (S i) (AtomicTransfer._items (AtomicTransfer.fields self))) i),
           w',
           map AtomicTransfer.CallExecute (seq 0 (S i)) ++
           map AtomicTransfer.CallUndo (rev (seq 0 i)))) /\
  (forall (W X : Type) (M : DeviceRunner.Methods W X)
          (self : DeviceRunner.Command (DeviceRunner.Composite X)) (w : W)
          (i : nat) pre' w_i c_i c_i' w_f res n,
      DeviceRunner.runs_ok
        (take i (DeviceRunner._items (DeviceRunner.fields self))) w pre' w_i ->
      DeviceRunner._items (DeviceRunner.fields self) !! i = Some c_i ->
      DeviceRunner.run c_i w_i = (Return res, c_i', w_f, n) ->
      DeviceRunner.success res = false ->
      DeviceRunner.fails_times n c_i w_i None c_i' w_f (DeviceRunner.error res) /\
      exists undone w',
        DeviceRunner.undone_swallowing (rev pre') w_f undone w' /\
        DeviceRunner.composite_execute self w =
          (Some (PyExn CommandError
                   ("Composite '" +:+ DeviceRunner._description self +:+
                    "' rolled back due to failure.")
                   (Some (PyExn CommandError
                            ("Sub-command failed: " +:+ DeviceRunner._description c_i')
                            (DeviceRunner.error res)))),
           DeviceRunner.mkCommand (DeviceRunner._description self) false
             (DeviceRunner._retry_policy self)
             (DeviceRunner.mkComposite
                (rev undone ++ c_i' ::
                   drop (S i) (DeviceRunner._items (DeviceRunner.fields self))) i),
           w',
           map DeviceRunner.CallRun (seq 0 (S i)) ++
           map DeviceRunner.CallUndo (rev (seq 0 i)))).
Proof.
  split.
  - intros W X M self w i pre' w_i c_i c_i' w_f exc Hok Hi Hf.
    exact (LedgerFacts.composite_execute_first_failure self w i pre' w_i c_i c_i' w_f exc
             Hok Hi Hf).
  - intros W X M self w i pre' w_i c_i c_i' w_f res n Hok Hi Hf Hfs. split.
    + destruct (DeviceFacts.run_loop_inv _ _ _ _ _ _ _ _ Hf)
        as [(_ & -> & _ & Hft)|(Hs & _)]; [exact Hft|congruence].
    + exact (DeviceFacts.device_composite_execute_first_failure self w i pre' w_i c_i c_i' w_f res n
               Hok Hi Hf Hfs).
Qed.

Lemma atomic_composite_rolls_back_at_first_failure_witness :
  (exists self' w',
     AtomicTransfer.composite_execute Scenes.pay Scenes.bank =
       (Some (PyExn TransactionError "Atomic composite failed and was rolled back."
                (Some (PyExn AccountError "Insufficient funds (overdraft limit exceeded)." None))),
        self', w',
        [AtomicTransfer.CallExecute 0; AtomicTransfer.CallExecute 1;
         AtomicTransfer.CallUndo 0])) /\
  (exists self' w',
     DeviceRunner.composite_execute Scenes.init Scenes.plant =
       (Some (PyExn CommandError "Composite 'init' rolled back due to failure."
                (Some (PyExn CommandError "Sub-command failed: SetParam(plc.speed=42)"
                         (Some (PyExn DeviceError "[plc] Simulated set_param failure." None))))),
        self', w',
        [DeviceRunner.CallRun 0; DeviceRunner.CallRun 1; DeviceRunner.CallUndo 0])).
Proof.
  split.
  - edestruct (proj1 atomic_composite_rolls_back_at_first_failure
                 _ _ _ Scenes.pay Scenes.bank 1%nat) as (undone & w' & _ & Heq).
    + econstructor; [reflexivity|constructor].
    + reflexivity.
    + reflexivity.
    + rewrite Heq. eauto.
  - edestruct (proj2 atomic_composite_rolls_back_at_first_failure
                 _ _ _ Scenes.init Scenes.plant 1%nat) as (_ & undone & w' & _ & Heq).
    + econstructor; [reflexivity|reflexivity|constructor].
    + reflexivity.
    + reflexivity.
    + reflexivity.
    + rewrite Heq. eauto.
Defined.

(** The claim C2 as stated fails: after this failed [execute] the counter
    is 1, the number of sub-commands that had succeeded. *)
Lemma executed_count_not_reset_on_failure :
  exists err self' w' tr,
    AtomicTransfer.composite_execute Scenes.pay Scenes.bank = (Some err, self', w', tr) /\
    AtomicTransfer._executed_count (AtomicTransfer.fields self') = 1%nat /\
    AtomicTransfer._executed_count (AtomicTransfer.fields self') ≠ 0%nat /\
    tr = [AtomicTransfer.CallExecute 0; AtomicTransfer.CallExecute 1; AtomicTransfer.CallUndo 0].
Proof.
  do 4 eexists. split; [reflexivity|]. split; [reflexivity|]. split; [discriminate|reflexivity].
Qed.

(** C2, amended.  After [execute] of an atomic composite has raised, the
    composite is marked not executed, its counter [_executed_count] is
    the index [i] of the sub-command that failed (the number of
    sub-commands that had succeeded; the counter is not reset), and
    before raising the composite called [undo] on every sub-command of
    index below [i], last to first. *)
Theorem failed_execute_leaves_rolled_back_state :
  (forall (W X : Type) (M : AtomicTransfer.Methods W X)
          (self : AtomicTransfer.Command (AtomicTransfer.Composite X)) (w : W)
          err self' w' tr,
      AtomicTransfer.composite_execute self w = (Some err, self', w', tr) ->
      exists i,
        (i < length (AtomicTransfer._items (AtomicTransfer.fields self)))%nat /\
        AtomicTransfer._executed self' = false /\
        AtomicTransfer._executed_count (AtomicTransfer.fields self') = i /\
        tr = map AtomicTransfer.CallExecute (seq 0 (S i)) ++
             map AtomicTransfer.CallUndo (rev (seq 0 i))) /\
  (forall (W X : Type) (M : DeviceRunner.Methods W X)
          (self : DeviceRunner.Command (DeviceRunner.Composite X)) (w : W)
          err self' w' tr,
      DeviceRunner.composite_execute self w = (Some err, self', w', tr) ->
      exists i,
        (i < length (DeviceRunner._items (DeviceRunner.fields self)))%nat /\
        DeviceRunner._executed self' = false /\
        DeviceRunner._executed_count (DeviceRunner.fields self') = i /\
        tr = map DeviceRunner.CallRun (seq 0 (S i)) ++
             map DeviceRunner.CallUndo (rev (seq 0 i))).
Proof.
  split.
  - intros W X M self w err self' w' tr He.
    destruct (LedgerFacts.composite_execute_raise_inv self w err self' w' tr He)
      as (i & c_i & pre' & w_i & c_i' & w_f & exc & undone & Hi & _ & _ & _ & _ & Hex & Hc & _ & Ht).
    exists i. repeat split; auto. eapply lookup_lt_Some; eauto.
  - intros W X M self w err self' w' tr He.
    destruct (DeviceFacts.device_composite_execute_raise_inv self w err self' w' tr He)
      as (i & c_i & pre' & w_i & c_i' & w_f & res & n & undone & Hi & _ & _ & _ & _ & _ & Hex & Hc & _ & Ht).
    exists i. repeat split; auto. eapply lookup_lt_Some; eauto.
Qed.

Lemma failed_execute_leaves_rolled_back_state_witness :
  (exists i,
     (i < 2)%nat /\
     AtomicTransfer._executed (AtomicTransfer.composite_execute Scenes.pay Scenes.bank).1.1.2
       = false /\
     AtomicTransfer._executed_count
       (AtomicTransfer.fields (AtomicTransfer.composite_execute Scenes.pay Scenes.bank).1.1.2)
       = i /\
     (AtomicTransfer.composite_execute Scenes.pay Scenes.bank).2 =
       map AtomicTransfer.CallExecute (seq 0 (S i)) ++
       map AtomicTransfer.CallUndo (rev (seq 0 i))) /\
  (exists i,
     (i < 3)%nat /\
     DeviceRunner._executed (DeviceRunner.composite_execute Scenes.init Scenes.plant).1.1.2
       = false /\
     DeviceRunner._executed_count
       (DeviceRunner.fields (DeviceRunner.composite_execute Scenes.init Scenes.plant).1.1.2)
       = i /\
     (DeviceRunner.composite_execute Scenes.init Scenes.plant).2 =
       map DeviceRunner.CallRun (seq 0 (S i)) ++
       map DeviceRunner.CallUndo (rev (seq 0 i))).
Proof.
  split.
  - eapply (proj1 failed_execute_leaves_rolled_back_state _ _ _ Scenes.pay Scenes.bank
             (PyExn TransactionError "Atomic composite failed and was rolled back."
                (Some (PyExn AccountError "Insufficient funds (overdraft limit exceeded)." None)))).
    reflexivity.
  - eapply (proj2 failed_execute_leaves_rolled_back_state _ _ _ Scenes.init Scenes.plant
             (PyExn CommandError "Composite 'init' rolled back due to failure."
                (Some (PyExn CommandError "Sub-command failed: SetParam(plc.speed=42)"
                         (Some (PyExn DeviceError "[plc] Simulated set_param failure." None)))))).
    reflexivity.
Defined.

(** ** The ledger transfer *)

(** C7.  Transferring 1000 from an account holding 2000 to another
    holding 500 returns and leaves 1000 and 1500.  Transferring 1000
    from an account holding 500 with no overdraft raises the
    [TransactionError] of the composite, caused by the [AccountError] of
    the withdrawal, and leaves the whole store, so both balances, as it
    was. *)
Theorem ledger_transfer_commits_or_rolls_back :
  forall (w : gmap AtomicTransfer.addr AtomicTransfer.BankAccount)
         (source destination : AtomicTransfer.addr) n1 n2,
    source ≠ destination ->
    (w !!! source = AtomicTransfer.mkBankAccount n1 2000 0 ->
     w !!! destination = AtomicTransfer.mkBankAccount n2 500 0 ->
     exists self' w' tr,
       AtomicTransfer.composite_execute
         (AtomicTransfer.TransferCommand w source destination 1000) w = (None, self', w', tr) /\
       AtomicTransfer.balance_cents (w' !!! source) = 1000 /\
       AtomicTransfer.balance_cents (w' !!! destination) = 1500) /\
    (w !!! source = AtomicTransfer.mkBankAccount n1 500 0 ->
     w !!! destination = AtomicTransfer.mkBankAccount n2 500 0 ->
     exists msg self' w' tr,
       AtomicTransfer.composite_execute
         (AtomicTransfer.TransferCommand w source destination 1000) w =
         (Some (PyExn TransactionError "Atomic composite failed and was rolled back."
                  (Some (PyExn AccountError msg None))), self', w', tr) /\
       w' = w /\
       AtomicTransfer.balance_cents (w' !!! source) = 500 /\
       AtomicTransfer.balance_cents (w' !!! destination) = 500).
Proof.
  intros w source destination n1 n2 Hne. split; intros Hs Hd.
  - destruct (LedgerFacts.transfer_succeeds w source destination Hne n1 n2 Hs Hd)
      as (self' & w' & tr & He & _ & Hs' & Hd').
    exists self', w', tr. split; [exact He|]. by rewrite Hs', Hd'.
  - destruct (LedgerFacts.transfer_rolls_back w source destination n1 n2 Hs Hd)
      as (self' & tr & He & _).
    do 4 eexists. split; [exact He|]. split; [done|]. by rewrite Hs, Hd.
Qed.

Lemma ledger_transfer_commits_or_rolls_back_witness :
  (exists self' w' tr,
     AtomicTransfer.composite_execute
       (AtomicTransfer.TransferCommand
          (<[1%nat := AtomicTransfer.mkBankAccount "B" 500 0]>
             (<[0%nat := AtomicTransfer.mkBankAccount "A" 2000 0]> ∅)) 0%nat 1%nat 1000)
       (<[1%nat := AtomicTransfer.mkBankAccount "B" 500 0]>
          (<[0%nat := AtomicTransfer.mkBankAccount "A" 2000 0]> ∅)) = (None, self', w', tr) /\
     AtomicTransfer.balance_cents (w' !!! 0%nat) = 1000 /\
     AtomicTransfer.balance_cents (w' !!! 1%nat) = 1500) /\
  (exists msg self' w' tr,
     AtomicTransfer.composite_execute
       (AtomicTransfer.TransferCommand
          (<[1%nat := AtomicTransfer.mkBankAccount "B" 500 0]>
             (<[0%nat := AtomicTransfer.mkBankAccount "A" 500 0]> ∅)) 0%nat 1%nat 1000)
       (<[1%nat := AtomicTransfer.mkBankAccount "B" 500 0]>
          (<[0%nat := AtomicTransfer.mkBankAccount "A" 500 0]> ∅)) =
       (Some (PyExn TransactionError "Atomic composite failed and was rolled back."
                (Some (PyExn AccountError msg None))), self', w', tr) /\
     w' = <[1%nat := AtomicTransfer.mkBankAccount "B" 500 0]>
            (<[0%nat := AtomicTransfer.mkBankAccount "A" 500 0]> ∅) /\
     AtomicTransfer.balance_cents (w' !!! 0%nat) = 500 /\
     AtomicTransfer.balance_cents (w' !!! 1%nat) = 500).
Proof.
  split.
  - apply (proj1 (ledger_transfer_commits_or_rolls_back _ 0%nat 1%nat "A" "B"
                    ltac:(discriminate))); reflexivity.
  - apply (proj2 (ledger_transfer_commits_or_rolls_back _ 0%nat 1%nat "A" "B"
                    ltac:(discriminate))); reflexivity.
Defined.

(** ** [SetParameterCommand] *)

(** C4, at the input where the code departs from it.  On a connected
    device with no parameter ["speed"], [run] of
    [SetParameterCommand(d, "speed", 42)] succeeds; the [undo] that
    follows leaves the key present, bound to [None], where the claim (and
    the comment in [undo]) want it removed. *)
Theorem set_parameter_undo_keeps_absent_key :
  let d := DeviceRunner.mkPLCDevice "plc" true ∅ None ∅ in
  let w : gmap DeviceRunner.addr DeviceRunner.PLCDevice := {[ 0%nat := d ]} in
  let cmd := DeviceRunner.SetParameterCommand w 0%nat "speed" (DeviceRunner.VInt 42) None in
  exists c1 w1 c2 w2,
    DeviceRunner.run cmd w =
      (Return (DeviceRunner.mkCommandResult true DeviceRunner.VNone None), c1, w1, 1%nat) /\
    DeviceRunner.params (w1 !!! 0%nat) !! "speed" = Some (DeviceRunner.VInt 42) /\
    DeviceRunner.undo c1 w1 = (None, c2, w2) /\
    DeviceRunner.params (w !!! 0%nat) !! "speed" = None /\
    DeviceRunner.params (w2 !!! 0%nat) !! "speed" = Some DeviceRunner.VNone.
Proof.
  do 4 eexists. split; [reflexivity|]. split; [reflexivity|].
  split; [reflexivity|]. split; reflexivity.
Qed.

(** ** Retry *)

(** C5.  With [max_retries = N >= 0]: [run] never raises; if [execute]
    always raises, [run] calls it exactly [N + 1] times and returns a
    failure result carrying the exception of the last call; if the first
    [k <= N] calls raise and the next returns, [run] returns a success
    result after exactly [k + 1] calls. *)
Theorem run_retries_then_reports :
  forall (W X : Type) (M : DeviceRunner.Methods W X)
         (self : DeviceRunner.Command X) (w : W) (N : Z),
    DeviceRunner.max_retries (DeviceRunner._retry_policy self) = N ->
    0 <= N ->
    (exists res self' w' calls, DeviceRunner.run self w = (Return res, self', w', calls)) /\
    (forall Inv : DeviceRunner.Command X -> W -> Prop,
        DeviceRunner.always_raises Inv -> Inv self w ->
        exists exc self' w',
          DeviceRunner.fails_times (S (Z.to_nat N)) self w None self' w' (Some exc) /\
          DeviceRunner.run self w =
            (Return (DeviceRunner.mkCommandResult false DeviceRunner.VNone (Some exc)),
             self', w', S (Z.to_nat N))) /\
    (forall (k : nat) c1 w1 last c2 w2,
        (k <= Z.to_nat N)%nat ->
        DeviceRunner.fails_times k self w None c1 w1 last ->
        DeviceRunner.execute c1 w1 = (None, c2, w2) ->
        DeviceRunner.run self w =
          (Return (DeviceRunner.mkCommandResult true DeviceRunner.VNone None),
           DeviceRunner.set_executed true c2, w2, S k)).
Proof.
  intros W X M self w N HN Hpos.
  pose proof (DeviceFacts.total_attempts_nat self N HN Hpos) as Htot.
  split; [apply DeviceFacts.run_returns|]. split.
  - intros Inv Hinv Hself.
    destruct (DeviceFacts.always_raises_fails_times Inv Hinv (S (Z.to_nat N)) self w None Hself)
      as (self' & w' & last' & Hf & _ & Hlast).
    destruct Hlast as [exc ->]; [lia|].
    exists exc, self', w'. split; [exact Hf|].
    unfold DeviceRunner.run. rewrite Htot.
    by apply DeviceFacts.run_loop_all_fail.
  - intros k c1 w1 last c2 w2 Hk Hf Hx.
    unfold DeviceRunner.run. rewrite Htot.
    eapply DeviceFacts.run_loop_first_success; eauto. lia.
Qed.


Lemma connect_keeps_failing_always_raises :
  DeviceRunner.always_raises connect_keeps_failing.
Proof.
  intros c w [Hc Hw].
  change (DeviceRunner.execute c w) with (DeviceRunner.device_execute c w).
  unfold DeviceRunner.device_execute, DeviceRunner.connect.
  rewrite Hc, Hw. do 3 eexists. split; [reflexivity|]. by split.
Qed.

Lemma run_retries_then_reports_witness :
  let failing : gmap DeviceRunner.addr DeviceRunner.PLCDevice :=
    {[ 0%nat := DeviceRunner.new_PLCDevice "plc" (Some {[ "connect" := true ]}) ]} in
  let working : gmap DeviceRunner.addr DeviceRunner.PLCDevice :=
    {[ 0%nat := DeviceRunner.new_PLCDevice "plc" None ]} in
  let cmd := DeviceRunner.ConnectCommand failing 0%nat 10
               (Some (DeviceRunner.mkRetryPolicy 2 0)) in
  (exists exc self' w',
     DeviceRunner.fails_times 3 cmd failing None self' w' (Some exc) /\
     DeviceRunner.run cmd failing =
       (Return (DeviceRunner.mkCommandResult false DeviceRunner.VNone (Some exc)),
        self', w', 3%nat)) /\
  (exists self' w',
     DeviceRunner.run cmd working =
       (Return (DeviceRunner.mkCommandResult true DeviceRunner.VNone None), self', w', 1%nat) /\
     DeviceRunner.connected (w' !!! 0%nat) = true).
Proof.
  intros failing working cmd. split.
  - apply (proj1 (proj2 (run_retries_then_reports _ _ _ cmd failing 2 eq_refl ltac:(lia)))
             connect_keeps_failing connect_keeps_failing_always_raises).
    split; reflexivity.
  - do 2 eexists. split.
    + apply (proj2 (proj2 (run_retries_then_reports _ _ _ cmd working 2 eq_refl ltac:(lia)))
               0%nat cmd working None).
      * simpl. lia.
      * constructor.
      * reflexivity.
    + reflexivity.
Defined.

(** ** The text editor *)

(** C8.  On a new buffer the macro of [InsertText("Hello")],
    [InsertText(" ")], [InsertText("World")] gives the text
    ["Hello World"], and undoing it gives the empty text back.  On any buffer whose
    cursor lies inside its text, undoing the macro after executing it
    gives every buffer its text (and cursor) back. *)
Theorem editor_macro_round_trip :
  forall (w : gmap TextEditor.addr TextEditor.TextBuffer) (b : TextEditor.addr),
    let macro :=
      TextEditor.MacroCommand
        [TextEditor.InsertText b "Hello"; TextEditor.InsertText b " ";
         TextEditor.InsertText b "World"] in
    let done := TextEditor.execute macro w in
    let undone := TextEditor.undo done.1 done.2 in
    (w !!! b = TextEditor.new_TextBuffer ->
     TextEditor.text (done.2 !!! b) = "Hello World" /\
     TextEditor.text (undone.2 !!! b) = EmptyString) /\
    (TextEditor.cursor_in_text (w !!! b) ->
     TextEditor.text (undone.2 !!! b) = TextEditor.text (w !!! b) /\
     forall b', undone.2 !!! b' = w !!! b').
Proof.
  intros w b macro done undone.
  assert (Hgen : TextEditor.cursor_in_text (w !!! b) ->
                 done.2 !!! b =
                   TextEditor.insert_all ["Hello"; " "; "World"] (w !!! b) /\
                 forall b', undone.2 !!! b' = w !!! b').
  { intros Hc. subst undone done macro. unfold TextEditor.MacroCommand.
    rewrite EditorFacts.execute_macro.
    destruct (TextEditor.execute_loop _ 0 w) as [[items' n] w1] eqn:Hl.
    destruct (EditorFacts.inserts_round_trip b ["Hello"; " "; "World"] 0%nat w Hc _ _ _ Hl)
      as (-> & Hb & Hback).
    cbn [fst snd]. split; [exact Hb|].
    rewrite EditorFacts.undo_macro.
    destruct (TextEditor.undo_first items' _ w1) as [items'' w2] eqn:Hu.
    cbn [snd]. exact (Hback _ _ eq_refl). }
  split.
  - intros Hnew.
    assert (Hc : TextEditor.cursor_in_text (w !!! b)).
    { rewrite Hnew. unfold TextEditor.cursor_in_text. simpl. unfold TextEditor.len. simpl. lia. }
    destruct (Hgen Hc) as [Hd Hu]. rewrite Hd, (Hu b), Hnew. by vm_compute.
  - intros Hc. destruct (Hgen Hc) as [_ Hu]. split; [by rewrite (Hu b)|exact Hu].
Qed.

Lemma editor_macro_round_trip_witness :
  let macro :=
    TextEditor.MacroCommand
      [TextEditor.InsertText 0%nat "Hello"; TextEditor.InsertText 0%nat " ";
       TextEditor.InsertText 0%nat "World"] in
  let fresh : gmap TextEditor.addr TextEditor.TextBuffer :=
    {[ 0%nat := TextEditor.new_TextBuffer ]} in
  let w : gmap TextEditor.addr TextEditor.TextBuffer :=
    {[ 0%nat := TextEditor.mkTextBuffer "say: !" 5 ]} in
  (TextEditor.text ((TextEditor.execute macro fresh).2 !!! 0%nat) = "Hello World" /\
   TextEditor.text
     ((TextEditor.undo (TextEditor.execute macro fresh).1 (TextEditor.execute macro fresh).2).2
        !!! 0%nat) = EmptyString) /\
  (TextEditor.text ((TextEditor.execute macro w).2 !!! 0%nat) = "say: Hello World!" /\
   TextEditor.text
     ((TextEditor.undo (TextEditor.execute macro w).1 (TextEditor.execute macro w).2).2
        !!! 0%nat) = "say: !").
Proof.
  intros macro fresh w. split.
  - apply (proj1 (editor_macro_round_trip fresh 0%nat)). reflexivity.
  - split; [reflexivity|].
    apply (proj2 (editor_macro_round_trip w 0%nat)).
    vm_compute. split; discriminate.
Defined.

(** ** The queue and its worker *)

(** C9.  On an empty queue [dequeue] raises [EmptyQueueError] (from the
    [IndexError] of the deque) and leaves the queue as it was;
    [poll_once] returns [False] without raising and leaves the queue, the
    dead-letter store and the world as they were. *)
Theorem empty_queue_is_reported_not_raised :
  forall (W C : Type) (M : QueuedBus.Methods W C) (repr : exn -> string)
         (self : QueuedBus.CommandWorker C) (w : W),
    QueuedBus._q (QueuedBus._queue self) = [] ->
    QueuedBus.dequeue (QueuedBus._queue self) =
      (Raise (PyExn EmptyQueueError "Queue is empty."
                (Some (PyExn IndexError "pop from an empty deque" None))),
       QueuedBus._queue self) /\
    QueuedBus.poll_once repr self w = (Return false, self, w).
Proof.
  intros W C M repr self w Hq. split.
  - by apply QueueFacts.dequeue_empty.
  - by apply QueueFacts.poll_once_empty.
Qed.

Lemma empty_queue_is_reported_not_raised_witness :
  let dead := [QueuedBus.mkEnvelope QueuedBus.mkAlwaysFail (QueuedBus.mkRetryPolicy 1 1) 2
                 (Some "boom")] in
  let self := QueuedBus.mkWorker (QueuedBus.new_queue "q") dead in
  QueuedBus.dequeue (QueuedBus._queue self) =
    (Raise (PyExn EmptyQueueError "Queue is empty."
              (Some (PyExn IndexError "pop from an empty deque" None))),
     QueuedBus._queue self) /\
  QueuedBus.poll_once exn_msg self tt = (Return false, self, tt).
Proof.
  intros dead self.
  apply (empty_queue_is_reported_not_raised unit QueuedBus.AlwaysFail _ exn_msg self tt).
  reflexivity.
Defined.

(** C6.  [C1], whose [execute] returns, and [C2], whose [execute] always
    raises, are sent in that order, [C2] with [max_retries = 1].  The
    first [poll_once] executes [C1] and leaves [C2]'s envelope queued and
    untouched; the second requeues [C2] with [attempts = 1]; the third
    moves it to the dead-letter store with [attempts = 2].  A [drain] of
    at least three steps does exactly this and returns [(3, 1)]. *)
Theorem queue_is_fifo_then_dead_letters :
  forall (W C : Type) (M : QueuedBus.Methods W C) (repr : exn -> string)
         (Inv : C -> W -> Prop) (c1 c2 : C)
         (p1 : option QueuedBus.RetryPolicy) (p2 : QueuedBus.RetryPolicy)
         (name : string) (w : W) c1' w1,
    QueuedBus.always_fails Inv ->
    QueuedBus.execute c1 w = (None, c1', w1) ->
    Inv c2 w1 ->
    QueuedBus.max_retries p2 = 1 ->
    let s0 := QueuedBus.send c2 (Some p2)
                (QueuedBus.send c1 p1 (QueuedBus.new_worker (QueuedBus.new_queue name))) in
    exists e1 c2' w2 e2 c2'' w3,
      let s1 := QueuedBus.mkWorker
                  (QueuedBus.mkQueue name [QueuedBus.mkEnvelope c2 p2 0 None]) [] in
      let s2 := QueuedBus.mkWorker
                  (QueuedBus.mkQueue name [QueuedBus.mkEnvelope c2' p2 1 (Some (repr e1))]) [] in
      let s3 := QueuedBus.mkWorker (QueuedBus.mkQueue name [])
                  [QueuedBus.mkEnvelope c2'' p2 2 (Some (repr e2))] in
      QueuedBus.poll_once repr s0 w = (Return true, s1, w1) /\
      QueuedBus.poll_once repr s1 w1 = (Return true, s2, w2) /\
      QueuedBus.poll_once repr s2 w2 = (Return true, s3, w3) /\
      forall max_steps, 3 <= max_steps ->
        QueuedBus.drain repr max_steps s0 w = (Return (3, 1), s3, w3).
Proof.
  intros W C M repr Inv c1 c2 p1 p2 name w c1' w1 Hfail H1 Hinv Hmax s0.
  destruct (Hfail _ _ Hinv) as (e1 & c2' & w2 & Hx1 & Hc1 & Hinv').
  destruct (Hfail _ _ Hinv') as (e2 & c2'' & w3 & Hx2 & Hc2 & _).
  exists e1, c2', w2, e2, c2'', w3. simpl.
  (* first step: C1 runs, C2 waits *)
  assert (P1 : QueuedBus.poll_once repr s0 w =
               (Return true,
                QueuedBus.mkWorker
                  (QueuedBus.mkQueue name [QueuedBus.mkEnvelope c2 p2 0 None]) [], w1)).
  { unfold QueuedBus.poll_once, s0. simpl. by rewrite H1. }
  (* second step: C2 fails once and is requeued *)
  assert (P2 : QueuedBus.poll_once repr
                 (QueuedBus.mkWorker
                    (QueuedBus.mkQueue name [QueuedBus.mkEnvelope c2 p2 0 None]) []) w1 =
               (Return true,
                QueuedBus.mkWorker
                  (QueuedBus.mkQueue name
                     [QueuedBus.mkEnvelope c2' p2 1 (Some (repr e1))]) [], w2)).
  { unfold QueuedBus.poll_once. simpl in *. rewrite Hx1, Hc1, Hmax. reflexivity. }
  (* third step: C2 fails again and is dead-lettered *)
  assert (P3 : QueuedBus.poll_once repr
                 (QueuedBus.mkWorker
                    (QueuedBus.mkQueue name
                       [QueuedBus.mkEnvelope c2' p2 1 (Some (repr e1))]) []) w2 =
               (Return true,
                QueuedBus.mkWorker (QueuedBus.mkQueue name [])
                  [QueuedBus.mkEnvelope c2'' p2 2 (Some (repr e2))], w3)).
  { unfold QueuedBus.poll_once. simpl in *. rewrite Hx2, Hc2, Hmax. reflexivity. }
  repeat split; auto.
  intros max_steps Hsteps. unfold QueuedBus.drain.
  destruct (Z.to_nat max_steps) as [|[|[|k]]] eqn:Hk; try lia.
  simpl. rewrite P1, P2, P3. simpl.
  destruct k; reflexivity.
Qed.


Lemma no_recipient_always_fails : QueuedBus.always_fails no_recipient.
Proof.
  intros c w Hc. unfold no_recipient in Hc.
  exists (PyExn ValueError "Recipient is required." None), c, w.
  split; [|by split].
  simpl. unfold QueuedBus.email_send. by rewrite Hc.
Qed.

Lemma queue_is_fifo_then_dead_letters_witness :
  let w : gmap nat QueuedBus.EmailService := {[ 0%nat := QueuedBus.new_EmailService 120 ]} in
  let c1 := QueuedBus.new_SendEmailCommand 0%nat "u@example.com" "S" "B" in
  let c2 := QueuedBus.new_SendEmailCommand 0%nat EmptyString "S" "B" in
  let p2 := QueuedBus.mkRetryPolicy 1 1 in
  let s0 := QueuedBus.send c2 (Some p2)
              (QueuedBus.send c1 None (QueuedBus.new_worker (QueuedBus.new_queue "q"))) in
  exists e1 c2' w2 e2 c2'' w3,
    QueuedBus.poll_once exn_msg s0 w =
      (Return true,
       QueuedBus.mkWorker (QueuedBus.mkQueue "q" [QueuedBus.mkEnvelope c2 p2 0 None]) [],
       (QueuedBus.execute c1 w).2) /\
    QueuedBus.poll_once exn_msg
      (QueuedBus.mkWorker (QueuedBus.mkQueue "q" [QueuedBus.mkEnvelope c2 p2 0 None]) [])
      (QueuedBus.execute c1 w).2 =
      (Return true,
       QueuedBus.mkWorker
         (QueuedBus.mkQueue "q" [QueuedBus.mkEnvelope c2' p2 1 (Some (exn_msg e1))]) [],
       w2) /\
    QueuedBus.poll_once exn_msg
      (QueuedBus.mkWorker
         (QueuedBus.mkQueue "q" [QueuedBus.mkEnvelope c2' p2 1 (Some (exn_msg e1))]) [])
      w2 =
      (Return true,
       QueuedBus.mkWorker (QueuedBus.mkQueue "q" [])
         [QueuedBus.mkEnvelope c2'' p2 2 (Some (exn_msg e2))],
       w3) /\
    forall max_steps, 3 <= max_steps ->
      QueuedBus.drain exn_msg max_steps s0 w =
        (Return (3, 1),
         QueuedBus.mkWorker (QueuedBus.mkQueue "q" [])
           [QueuedBus.mkEnvelope c2'' p2 2 (Some (exn_msg e2))],
         w3).
Proof.
  intros w c1 c2 p2 s0.
  apply (queue_is_fifo_then_dead_letters _ _ _ exn_msg no_recipient c1 c2 None p2 "q" w
           c1 (QueuedBus.execute c1 w).2 no_recipient_always_fails);
    reflexivity.
Defined.




(** ** Repeating [undo] *)

(** The claim C3 as stated fails on [InsertText]: [undo] never clears
    [_start_pos], so the second [undo] in a row deletes two more
    characters of the buffer. *)
Lemma insert_text_second_undo_changes_buffer :
  let w : gmap TextEditor.addr TextEditor.TextBuffer :=
    {[ 0%nat := TextEditor.mkTextBuffer "XY" 0 ]} in
  let '(c1, w1) := TextEditor.execute (TextEditor.InsertText 0%nat "ab") w in
  let '(c2, w2) := TextEditor.undo c1 w1 in
  let '(c3, w3) := TextEditor.undo c2 w2 in
  TextEditor.text (w1 !!! 0%nat) = "abXY" /\
  TextEditor.text (w2 !!! 0%nat) = "XY" /\
  TextEditor.text (w3 !!! 0%nat) = EmptyString /\
  w3 !!! 0%nat ≠ w2 !!! 0%nat.
Proof. vm_compute. repeat split; discriminate. Qed.

(** [ConnectCommand.undo] has no guard: on a command that never executed
    it disconnects a connected device. *)
Example connect_undo_without_execute :
  let w : gmap DeviceRunner.addr DeviceRunner.PLCDevice :=
    {[ 0%nat := DeviceRunner.mkPLCDevice "plc" true ∅ None ∅ ]} in
  let cmd := DeviceRunner.ConnectCommand w 0%nat 10 None in
  DeviceRunner._executed cmd = false /\
  exists w',
    DeviceRunner.undo cmd w = (None, cmd, w') /\
    DeviceRunner.connected (w !!! 0%nat) = true /\
    DeviceRunner.connected (w' !!! 0%nat) = false.
Proof. split; [reflexivity|]. eexists. repeat split; reflexivity. Qed.

(** C3, amended.  Idempotent [undo] holds where the code guards it.
    - Ledger: [undo] of a [DepositCommand] or [WithdrawCommand] that is
      not executed does nothing, and a second [undo] in a row changes
      neither the command nor the accounts; the same holds for an
      [AtomicCompositeCommand] over sub-commands whose [undo] is stable
      in this sense (as the ledger commands' is).
    - Device: a second [undo] in a row of any of the five concrete
      commands changes nothing; [undo] of a command that is not executed
      does nothing, except for [ConnectCommand]; [undo] of a composite
      that is not executed, or a second [undo] after one that returned,
      does nothing.
    - Editor: [undo] of a command that has not executed changes no
      buffer; a second [undo] in a row of a [MoveCursor] or a
      [MacroCommand] changes nothing.  Nothing is promised for a second
      [undo] of [InsertText] or [DeleteText]. *)
Theorem undo_again_changes_nothing_where_guarded :
  (* ledger *)
  ((forall (c : AtomicTransfer.Command AtomicTransfer.LedgerFields)
           (w : gmap AtomicTransfer.addr AtomicTransfer.BankAccount),
       (AtomicTransfer._executed c = false -> AtomicTransfer.undo c w = (None, c, w)) /\
       (forall r c' w', AtomicTransfer.undo c w = (r, c', w') ->
                        exists r', AtomicTransfer.undo c' w' = (r', c', w'))) /\
   AtomicTransfer.undo_stable (gmap AtomicTransfer.addr AtomicTransfer.BankAccount)
     AtomicTransfer.LedgerFields /\
   (forall (W X : Type) (M : AtomicTransfer.Methods W X),
       AtomicTransfer.undo_stable W X ->
       AtomicTransfer.undo_stable W (AtomicTransfer.Composite X) /\
       forall (c : AtomicTransfer.Command (AtomicTransfer.Composite X)) (w : W),
         (AtomicTransfer._executed c = false ->
          AtomicTransfer.composite_undo c w = (None, c, w, [])) /\
         (forall r c' w', AtomicTransfer.undo c w = (r, c', w') ->
                          exists r', AtomicTransfer.undo c' w' = (r', c', w')))) /\
  (* device *)
  ((forall (c : DeviceRunner.Command DeviceRunner.DeviceFields)
           (w : gmap DeviceRunner.addr DeviceRunner.PLCDevice),
       (DeviceRunner._executed c = false ->
        (forall d t, DeviceRunner.fields c ≠ DeviceRunner.ConnectF d t) ->
        DeviceRunner.undo c w = (None, c, w)) /\
       (forall r c' w', DeviceRunner.undo c w = (r, c', w') ->
                        exists r', DeviceRunner.undo c' w' = (r', c', w'))) /\
   (forall (W X : Type) (M : DeviceRunner.Methods W X)
           (c : DeviceRunner.Command (DeviceRunner.Composite X)) (w : W),
       (DeviceRunner._executed c = false ->
        DeviceRunner.composite_undo c w = (None, c, w, [])) /\
       (forall c' w' tr, DeviceRunner.composite_undo c w = (None, c', w', tr) ->
                         forall w2, DeviceRunner.composite_undo c' w2 = (None, c', w2, [])))) /\
  (* editor *)
  ((forall (c : TextEditor.Command) (w : gmap TextEditor.addr TextEditor.TextBuffer),
       TextEditor.never_executed c ->
       (TextEditor.undo c w).1 = c /\ forall b, (TextEditor.undo c w).2 !!! b = w !!! b) /\
   (forall d b t p (w : gmap TextEditor.addr TextEditor.TextBuffer),
       let '(c1, w1) := TextEditor.undo (TextEditor.MoveCursorC d b t p) w in
       TextEditor.undo c1 w1 = (c1, w1)) /\
   (forall d items n (w : gmap TextEditor.addr TextEditor.TextBuffer),
       let '(c1, w1) := TextEditor.undo (TextEditor.MacroCommandC d items n) w in
       TextEditor.undo c1 w1 = (c1, w1))).
Proof.
  split; [|split].
  - split; [|split].
    + intros c w. split.
      * apply LedgerFacts.ledger_undo_not_executed.
      * apply (LedgerFacts.undo_twice_no_change LedgerFacts.ledger_undo_stable).
    + exact LedgerFacts.ledger_undo_stable.
    + intros W X M Hst.
      pose proof (LedgerFacts.composite_undo_stable Hst) as Hc.
      split; [exact Hc|]. intros c w. split.
      * apply LedgerFacts.composite_undo_not_executed.
      * apply (LedgerFacts.undo_twice_no_change Hc).
  - split.
    + intros c w. split.
      * apply DeviceFacts.device_undo_not_executed.
      * apply DeviceFacts.device_undo_twice.
    + intros W X M c w. split.
      * apply DeviceFacts.device_composite_undo_not_executed.
      * apply DeviceFacts.composite_undo_returned.
  - split; [|split].
    + apply EditorFacts.undo_never_executed.
    + apply EditorFacts.move_cursor_undo_twice.
    + apply EditorFacts.macro_undo_twice.
Qed.

Lemma undo_again_changes_nothing_where_guarded_witness :
  (* not executed: nothing happens *)
  (AtomicTransfer.undo (AtomicTransfer.DepositCommand Scenes.bank 0%nat 100) Scenes.bank =
     (None, AtomicTransfer.DepositCommand Scenes.bank 0%nat 100, Scenes.bank)) /\
  (AtomicTransfer.composite_undo Scenes.pay Scenes.bank = (None, Scenes.pay, Scenes.bank, [])) /\
  (DeviceRunner.undo
     (DeviceRunner.StartProgramCommand Scenes.plant 0%nat "Main" None) Scenes.plant =
     (None, DeviceRunner.StartProgramCommand Scenes.plant 0%nat "Main" None, Scenes.plant)) /\
  (DeviceRunner.composite_undo Scenes.init Scenes.plant =
     (None, Scenes.init, Scenes.plant, [])) /\
  (forall w : gmap TextEditor.addr TextEditor.TextBuffer,
      (TextEditor.undo (TextEditor.DeleteText 0%nat 3) w).1 = TextEditor.DeleteText 0%nat 3 /\
      forall b, (TextEditor.undo (TextEditor.DeleteText 0%nat 3) w).2 !!! b = w !!! b) /\
  (* executed, then undone twice *)
  (let deposited :=
     AtomicTransfer.execute (AtomicTransfer.DepositCommand Scenes.bank 0%nat 100) Scenes.bank in
   let undone := AtomicTransfer.undo deposited.1.2 deposited.2 in
   exists r', AtomicTransfer.undo undone.1.2 undone.2 = (r', undone.1.2, undone.2)) /\
  (let connected :=
     DeviceRunner.run (DeviceRunner.ConnectCommand Scenes.plant 0%nat 2 None) Scenes.plant in
   let undone := DeviceRunner.undo connected.1.1.2 connected.1.2 in
   exists r', DeviceRunner.undo undone.1.2 undone.2 = (r', undone.1.2, undone.2)).
Proof.
  pose proof undo_again_changes_nothing_where_guarded as [[HL1 [HL2 HL3]] [[HD1 HD2] [HE1 _]]].
  split; [|split; [|split; [|split; [|split; [|split]]]]].
  - apply (proj1 (HL1 _ _)). reflexivity.
  - apply (proj1 (proj2 (HL3 _ _ _ HL2) _ _)). reflexivity.
  - apply (proj1 (HD1 _ _)); [reflexivity|]. intros d t. discriminate.
  - apply (proj1 (HD2 _ _ _ _ _)). reflexivity.
  - intros w. apply HE1. reflexivity.
  - intros deposited undone.
    apply (proj2 (HL1 deposited.1.2 deposited.2) undone.1.1). reflexivity.
  - intros connected undone.
    apply (proj2 (HD1 connected.1.1.2 connected.1.2) undone.1.1). reflexivity.
Defined.
(** * Further properties of the code *)

(** ** atomic_transfer_command.py *)
Module LedgerProps.
Import AtomicTransfer LedgerFacts LedgerTerms.

(** *** The overdraft floor *)

Lemma deposit_keeps_floor a n (w : Bank) :
  bank_within_overdraft w -> bank_within_overdraft (deposit a n w).2.
Proof.
  intros Hw. unfold deposit. destruct (n <? 0) eqn:Hn; [exact Hw|].
  apply Z.ltb_ge in Hn. intros a'. simpl.
  destruct (decide (a = a')) as [<-|Hne].
  - rewrite lookup_total_insert_eq. specialize (Hw a).
    unfold within_overdraft in *. simpl. lia.
  - rewrite lookup_total_insert_ne by done. apply Hw.
Qed.

Lemma withdraw_keeps_floor a n (w : Bank) :
  bank_within_overdraft w -> bank_within_overdraft (withdraw a n w).2.
Proof.
  intros Hw. unfold withdraw. destruct (n <? 0) eqn:Hn; [exact Hw|].
  destruct (balance_cents (w !!! a) - n <? _) eqn:Hb; [exact Hw|].
  apply Z.ltb_ge in Hb. intros a'. simpl.
  destruct (decide (a = a')) as [<-|Hne].
  - rewrite lookup_total_insert_eq. unfold within_overdraft. simpl. lia.
  - rewrite lookup_total_insert_ne by done. apply Hw.
Qed.

Lemma ledger_keeps_floor : kept_by Bank LedgerFields bank_within_overdraft.
Proof.
  intros c w Hw. simpl. unfold ledger_execute, ledger_undo. split.
  - destruct (fields c) as [a n|a n].
    + pose proof (deposit_keeps_floor a n w Hw) as H.
      destruct (deposit a n w) as [[e|] w1]; exact H.
    + pose proof (withdraw_keeps_floor a n w Hw) as H.
      destruct (withdraw a n w) as [[e|] w1]; exact H.
  - destruct (_executed c); simpl; [|exact Hw].
    destruct (fields c) as [a n|a n].
    + pose proof (withdraw_keeps_floor a n w Hw) as H.
      destruct (withdraw a n w) as [[e|] w1]; exact H.
    + pose proof (deposit_keeps_floor a n w Hw) as H.
      destruct (deposit a n w) as [[e|] w1]; exact H.
Qed.

Section KeptByComposite.
Context {W X : Type} `{!Methods W X}.
Variable P : W -> Prop.
Hypothesis kept : kept_by W X P.

Lemma execute_loop_keeps todo : forall k w,
  P w -> P (execute_loop todo k w).1.2.
Proof.
  induction todo as [|c rest IH]; intros k w Hw; simpl; [done|].
  pose proof (proj1 (kept c w Hw)) as Hc.
  destruct (execute c w) as [[[e|] c'] w']; simpl in *; [done|].
  specialize (IH (S k) w' Hc).
  destruct (execute_loop rest (S k) w') as [[[[r rest'] n] w''] tr]. exact IH.
Qed.

Lemma rollback_loop_keeps cmds : forall w,
  P w -> P (rollback_loop cmds w).1.2.
Proof.
  induction cmds as [|c rest IH]; intros w Hw; simpl; [done|].
  pose proof (proj2 (kept c w Hw)) as Hc.
  destruct (undo c w) as [[r c'] w']; simpl in *.
  specialize (IH w' Hc).
  destruct (rollback_loop rest w') as [[rest' w''] tr]. exact IH.
Qed.

Lemma undo_loop_keeps cmds : forall w,
  P w -> P (undo_loop cmds w).1.2.
Proof.
  induction cmds as [|c rest IH]; intros w Hw; simpl; [done|].
  pose proof (proj2 (kept c w Hw)) as Hc.
  destruct (undo c w) as [[[e|] c'] w']; simpl in *; [done|].
  specialize (IH w' Hc).
  destruct (undo_loop rest w') as [[[r rest'] w''] tr]. exact IH.
Qed.

Lemma composite_keeps : kept_by W (Composite X) P.
Proof.
  intros self w Hw. simpl. split.
  - unfold composite_execute.
    pose proof (execute_loop_keeps (_items (fields self)) 0 w Hw) as H1.
    destruct (execute_loop (_items (fields self)) 0 w) as [[[[r items1] n] w1] tr1].
    simpl in H1. destruct r as [exc|]; [|exact H1]. simpl.
    pose proof (rollback_loop_keeps (rev (take n items1)) w1 H1) as H2.
    destruct (rollback_loop (rev (take n items1)) w1) as [[undone w2] tr2]. exact H2.
  - unfold composite_undo. destruct (_executed self); simpl; [|exact Hw].
    pose proof (undo_loop_keeps
                  (rev (take (_executed_count (fields self)) (_items (fields self)))) w Hw) as H1.
    destruct (undo_loop _ w) as [[[[e|] undone] w1] tr]; exact H1.
Qed.
End KeptByComposite.

(** X1.  No method of the ledger ever takes an account below its
    overdraft floor: if every account of the store is within its limit,
    it still is after [execute] or [undo] of a [DepositCommand] or
    [WithdrawCommand], and after [execute] or [undo] of a composite of
    them (a [TransferCommand] or any other), whether the call returned
    or raised. *)
Theorem ledger_never_breaches_overdraft :
  forall w : gmap addr BankAccount,
    bank_within_overdraft w ->
    (forall c : Command LedgerFields,
        bank_within_overdraft (execute c w).2 /\ bank_within_overdraft (undo c w).2) /\
    (forall c : Command (Composite LedgerFields),
        bank_within_overdraft (composite_execute c w).1.2 /\
        bank_within_overdraft (composite_undo c w).1.2).
Proof.
  intros w Hw. split.
  - intros c. by apply ledger_keeps_floor.
  - intros c.
    pose proof (composite_keeps bank_within_overdraft ledger_keeps_floor c w Hw) as [H1 H2].
    simpl in *. split.
    + by destruct (composite_execute c w) as [[[r c'] w'] tr].
    + by destruct (composite_undo c w) as [[[r c'] w'] tr].
Qed.

Lemma scene_bank_within_overdraft : bank_within_overdraft Scenes.bank.
Proof.
  intros a. unfold Scenes.bank.
  destruct (decide (a = 1%nat)) as [->|H1]; [by vm_compute|].
  rewrite lookup_total_insert_ne by done.
  destruct (decide (a = 0%nat)) as [->|H0]; [by vm_compute|].
  rewrite lookup_total_insert_ne by done.
  rewrite lookup_total_empty. by vm_compute.
Qed.

Lemma ledger_never_breaches_overdraft_witness :
  bank_within_overdraft (composite_execute Scenes.pay Scenes.bank).1.2 /\
  bank_within_overdraft
    (composite_execute (TransferCommand Scenes.bank 0%nat 1%nat 5) Scenes.bank).1.2.
Proof.
  split.
  - apply (proj2 (ledger_never_breaches_overdraft _ scene_bank_within_overdraft)).
  - apply (proj2 (ledger_never_breaches_overdraft _ scene_bank_within_overdraft)).
Defined.

(** *** A command and its compensation *)

Lemma set_balance_back acct n :
  set_balance (balance_cents acct + n - n) (set_balance (balance_cents acct + n) acct) = acct.
Proof. destruct acct as [nm b o]. unfold set_balance. simpl. f_equal. lia. Qed.

Lemma set_balance_forth acct n :
  set_balance (balance_cents acct - n + n) (set_balance (balance_cents acct - n) acct) = acct.
Proof. destruct acct as [nm b o]. unfold set_balance. simpl. f_equal. lia. Qed.

Lemma insert_back_total (w : Bank) a x :
  forall a', (<[a := w !!! a]> (<[a := x]> w)) !!! a' = w !!! a'.
Proof.
  intros a'. rewrite insert_insert_eq.
  destruct (decide (a = a')) as [<-|Hne].
  - by rewrite lookup_total_insert_eq.
  - by rewrite lookup_total_insert_ne.
Qed.

(** X2.  [undo] after a successful [execute] puts the account back.  For
    a [WithdrawCommand] this always works.  For a [DepositCommand] it
    works when the account was within its overdraft limit before the
    deposit (otherwise the compensating withdrawal is refused).  Either
    way the command is marked not executed again and every account of
    the store holds what it held before. *)
Theorem ledger_undo_reverses_execute :
  forall (w : gmap addr BankAccount) (c c1 : Command LedgerFields) w1,
    execute c w = (None, c1, w1) ->
    (forall a n, fields c = DepositF a n -> within_overdraft (w !!! a)) ->
    exists w2,
      undo c1 w1 = (None, set_executed false c1, w2) /\
      _executed c1 = true /\
      forall a, w2 !!! a = w !!! a.
Proof.
  intros w c c1 w1 Hx Hfloor. simpl in *. unfold ledger_execute in Hx.
  unfold ledger_undo.
  destruct (fields c) as [a n|a n] eqn:Hf.
  - specialize (Hfloor a n eq_refl). unfold within_overdraft in Hfloor.
    unfold deposit in Hx. destruct (n <? 0) eqn:Hn; [discriminate|].
    inversion Hx; subst; clear Hx. simpl. rewrite Hf.
    unfold withdraw. rewrite Hn, lookup_total_insert_eq. simpl.
    destruct (balance_cents (w !!! a) + n - n <? _) eqn:Hb; [apply Z.ltb_lt in Hb; lia|].
    eexists. split; [reflexivity|]. split; [done|].
    rewrite set_balance_back. apply insert_back_total.
  - unfold withdraw in Hx. destruct (n <? 0) eqn:Hn; [discriminate|].
    destruct (balance_cents (w !!! a) - n <? _) eqn:Hb; [discriminate|].
    inversion Hx; subst; clear Hx. simpl. rewrite Hf.
    unfold deposit. rewrite Hn, lookup_total_insert_eq. simpl.
    eexists. split; [reflexivity|]. split; [done|].
    rewrite set_balance_forth. apply insert_back_total.
Qed.

Lemma ledger_undo_reverses_execute_witness :
  let c := DepositCommand Scenes.bank 0%nat 100 in
  let done := execute c Scenes.bank in
  exists w2,
    undo done.1.2 done.2 = (None, set_executed false done.1.2, w2) /\
    _executed done.1.2 = true /\
    forall a, w2 !!! a = Scenes.bank !!! a.
Proof.
  intros c done.
  apply (ledger_undo_reverses_execute Scenes.bank c).
  - reflexivity.
  - intros a n Hf. apply LedgerProps.scene_bank_within_overdraft.
Defined.

(** *** The transfer, for every input *)

Lemma transfer_execute_allowed (w : Bank) s d n :
  transfer_allowed w s n ->
  composite_execute (TransferCommand w s d n) w =
    (None,
     mkCommand (_description (TransferCommand w s d n)) true
       (mkComposite [set_executed true (WithdrawCommand w s n);
                     set_executed true (DepositCommand w d n)] 2),
     (deposit d n (withdraw s n w).2).2,
     [CallExecute 0; CallExecute 1]) /\
  (withdraw s n w).2 = <[s := set_balance (balance_cents (w !!! s) - n) (w !!! s)]> w /\
  forall w1 : Bank,
    (deposit d n w1).2 = <[d := set_balance (balance_cents (w1 !!! d) + n) (w1 !!! d)]> w1.
Proof.
  intros [Hn Hb].
  assert (Hn' : (n <? 0) = false) by (apply Z.ltb_ge; lia).
  assert (Hb' : (balance_cents (w !!! s) - n <? - overdraft_limit_cents (w !!! s)) = false)
    by (apply Z.ltb_ge; lia).
  split; [|split].
  - unfold TransferCommand, add, AtomicCompositeCommand, composite_execute. simpl.
    unfold ledger_execute. simpl. unfold withdraw at 1. rewrite Hn', Hb'.
    unfold deposit at 1. rewrite Hn'. unfold withdraw, deposit. rewrite Hn', Hb'. reflexivity.
  - unfold withdraw. by rewrite Hn', Hb'.
  - intros w1. unfold deposit. by rewrite Hn'.
Qed.

Lemma transfer_execute_refused (w : Bank) s d n :
  ~ transfer_allowed w s n ->
  exists msg,
    composite_execute (TransferCommand w s d n) w =
      (Some (rolled_back_error (PyExn AccountError msg None)),
       mkCommand (_description (TransferCommand w s d n)) false
         (mkComposite [WithdrawCommand w s n; DepositCommand w d n] 0),
       w, [CallExecute 0]).
Proof.
  intros Hno.
  unfold TransferCommand, add, AtomicCompositeCommand, composite_execute. simpl.
  unfold ledger_execute. simpl. unfold withdraw.
  destruct (n <? 0) eqn:Hn; [eexists; reflexivity|].
  destruct (balance_cents (w !!! s) - n <? _) eqn:Hb; [eexists; reflexivity|].
  exfalso. apply Hno. apply Z.ltb_ge in Hn, Hb. split; lia.
Qed.

(** X3.  A transfer is all or nothing, for every amount and every pair
    of accounts.  If the amount is not negative and the source stays
    within its overdraft limit, [execute] returns, the source holds the
    amount less and the destination the amount more (the same balance
    when they are one account), and no other account changes.
    Otherwise [execute] raises [TransactionError] caused by the
    [AccountError] of the withdrawal and the store is exactly as it
    was. *)
Theorem transfer_is_all_or_nothing :
  forall (w : gmap addr BankAccount) (s d : addr) (n : Z),
    let result := composite_execute (TransferCommand w s d n) w in
    let w' := result.1.2 in
    (transfer_allowed w s n /\
     result.1.1.1 = None /\
     _executed result.1.1.2 = true /\
     (s <> d ->
      balance_cents (w' !!! s) = balance_cents (w !!! s) - n /\
      balance_cents (w' !!! d) = balance_cents (w !!! d) + n) /\
     (s = d -> balance_cents (w' !!! s) = balance_cents (w !!! s)) /\
     (forall a, a <> s -> a <> d -> w' !!! a = w !!! a)) \/
    (~ transfer_allowed w s n /\
     (exists msg,
        result.1.1.1 =
          Some (PyExn TransactionError "Atomic composite failed and was rolled back."
                  (Some (PyExn AccountError msg None)))) /\
     _executed result.1.1.2 = false /\
     w' = w).
Proof.
  intros w s d n result w'.
  destruct (decide (0 <= n /\
                    - overdraft_limit_cents (w !!! s) <= balance_cents (w !!! s) - n))
    as [Hok|Hno].
  - left. destruct (transfer_execute_allowed w s d n Hok) as (He & Hw1 & Hw2).
    subst w' result. rewrite He. simpl. rewrite Hw2, Hw1.
    split; [exact Hok|]. split; [done|]. split; [done|]. split; [|split].
    + intros Hne. rewrite lookup_total_insert_eq.
      rewrite (lookup_total_insert_ne _ d s) by done. rewrite lookup_total_insert_eq.
      rewrite (lookup_total_insert_ne _ s d) by done. done.
    + intros <-. rewrite !lookup_total_insert_eq. simpl. lia.
    + intros a Hs Hd. by rewrite !lookup_total_insert_ne.
  - right. destruct (transfer_execute_refused w s d n Hno) as (msg & He).
    subst w' result. rewrite He. simpl.
    split; [exact Hno|]. split; [by exists msg|]. done.
Qed.

(** X4.  Undoing a transfer that went through gives every account its
    balance back: [undo] takes the amount out of the destination first,
    then puts it back into the source.  The destination must have been
    within its overdraft limit before the transfer, or the compensating
    withdrawal is refused. *)
Theorem transfer_undo_restores_balances :
  forall (w : gmap addr BankAccount) (s d : addr) (n : Z) self' w' tr,
    composite_execute (TransferCommand w s d n) w = (None, self', w', tr) ->
    within_overdraft (w !!! d) ->
    exists self'' w'',
      composite_undo self' w' = (None, self'', w'', [CallUndo 1; CallUndo 0]) /\
      _executed self'' = false /\
      _executed_count (fields self'') = 0%nat /\
      forall a, w'' !!! a = w !!! a.
Proof.
  intros w s d n self' w' tr He Hd.
  destruct (decide (0 <= n /\
                    - overdraft_limit_cents (w !!! s) <= balance_cents (w !!! s) - n))
    as [Hok|Hno].
  2:{ destruct (transfer_execute_refused w s d n Hno) as (msg & He').
      rewrite He' in He. discriminate. }
  destruct (transfer_execute_allowed w s d n Hok) as (He' & Hw1 & Hw2).
  rewrite He' in He. inversion He; subst; clear He.
  destruct Hok as [Hn Hb]. unfold within_overdraft in Hd.
  assert (Hn' : (n <? 0) = false) by (apply Z.ltb_ge; lia).
  rewrite Hw2, Hw1.
  unfold composite_undo. simpl. unfold ledger_undo. simpl.
  unfold withdraw at 1. rewrite Hn', lookup_total_insert_eq. simpl.
  destruct (decide (s = d)) as [<-|Hne].
  - rewrite lookup_total_insert_eq. simpl.
    destruct (balance_cents (w !!! s) - n + n - n <? _) eqn:Hc; [apply Z.ltb_lt in Hc; lia|].
    unfold deposit. rewrite Hn', lookup_total_insert_eq. simpl.
    do 2 eexists. split; [reflexivity|]. split; [done|]. split; [done|].
    intros a. rewrite !insert_insert_eq.
    destruct (decide (s = a)) as [<-|Ha].
    + rewrite lookup_total_insert_eq. destruct (w !!! s) as [nm b o].
      unfold set_balance. simpl. f_equal. lia.
    + by rewrite lookup_total_insert_ne.
  - rewrite (lookup_total_insert_ne _ s d) by done.
    destruct (balance_cents (w !!! d) + n - n <? _) eqn:Hc; [apply Z.ltb_lt in Hc; lia|].
    unfold deposit. rewrite Hn'.
    rewrite !(lookup_total_insert_ne _ d s) by done. rewrite lookup_total_insert_eq. simpl.
    do 2 eexists. split; [reflexivity|]. split; [done|]. split; [done|].
    intros a. rewrite insert_insert_eq.
    destruct (decide (s = a)) as [<-|Ha].
    + rewrite lookup_total_insert_eq. destruct (w !!! s) as [nm b o].
      unfold set_balance. simpl. f_equal. lia.
    + rewrite lookup_total_insert_ne by done.
      destruct (decide (d = a)) as [<-|Ha'].
      * rewrite lookup_total_insert_eq. destruct (w !!! d) as [nm b o].
        unfold set_balance. simpl. f_equal. lia.
      * by rewrite !lookup_total_insert_ne.
Qed.

Lemma transfer_undo_restores_balances_witness :
  let w : gmap addr BankAccount :=
    <[1%nat := mkBankAccount "B" 500 0]> {[ 0%nat := mkBankAccount "A" 2000 0 ]} in
  let done := composite_execute (TransferCommand w 0%nat 1%nat 1000) w in
  exists self'' w'',
    composite_undo done.1.1.2 done.1.2 = (None, self'', w'', [CallUndo 1; CallUndo 0]) /\
    _executed self'' = false /\
    _executed_count (fields self'') = 0%nat /\
    forall a, w'' !!! a = w !!! a.
Proof.
  intros w done.
  eapply (transfer_undo_restores_balances w 0%nat 1%nat 1000).
  - reflexivity.
  - vm_compute. discriminate.
Defined.

(** *** [AtomicCompositeCommand.undo] *)
Section CompositeUndoOrder.
Context {W X : Type} `{!Methods W X}.

Lemma undoes_ok_length cmds (w : W) cmds' w' :
  undoes_ok cmds w cmds' w' -> length cmds' = length cmds.
Proof. induction 1; simpl; congruence. Qed.

Lemma rev_seq_S a n : rev (seq a (S n)) = (a + n)%nat :: rev (seq a n).
Proof. by rewrite seq_S, rev_app_distr. Qed.

Lemma undo_loop_stops_at pre (w : W) pre' w_j :
  undoes_ok pre w pre' w_j ->
  forall c post exc c' w',
    undo c w_j = (Some exc, c', w') ->
    undo_loop (pre ++ c :: post) w =
      (Some exc, pre' ++ c' :: post, w',
       map CallUndo (rev (seq (length post) (S (length pre))))).
Proof.
  induction 1 as [w|c0 cs w c0' w1 cs' w2 Hc _ IH]; intros c post exc c' w' Hf.
  - simpl. by rewrite Hf.
  - change ((c0 :: cs) ++ c :: post) with (c0 :: (cs ++ c :: post)).
    change (length (c0 :: cs)) with (S (length cs)).
    rewrite (rev_seq_S (length post) (S (length cs))).
    cbn [undo_loop]. rewrite Hc, (IH c post exc c' w' Hf).
    rewrite length_app. cbn [length map]. do 3 f_equal. lia.
Qed.

Lemma undo_loop_all cmds (w : W) cmds' w' :
  undoes_ok cmds w cmds' w' ->
  undo_loop cmds w = (None, cmds', w', map CallUndo (rev (seq 0 (length cmds)))).
Proof.
  induction 1 as [w|c0 cs w c0' w1 cs' w2 Hc _ IH]; [done|].
  change (length (c0 :: cs)) with (S (length cs)). rewrite rev_seq_S.
  cbn [undo_loop]. by rewrite Hc, IH.
Qed.

(** X5.  [undo] of an executed composite calls [undo] on the executed
    sub-commands from the last to the first.  If all of them return, the
    composite ends not executed with its counter at 0.  Unlike the
    rollback inside [execute], [undo] is not best effort: the first
    sub-command whose [undo] raises stops it, the exception reaches the
    caller, the sub-commands before it are left as they were, and the
    composite stays marked executed with its counter unchanged. *)
Theorem composite_undo_unwinds_or_stops :
  forall (self : Command (Composite X)) (w : W),
    _executed self = true ->
    (_executed_count (fields self) <= length (_items (fields self)))%nat ->
    let items := _items (fields self) in
    let count := _executed_count (fields self) in
    (forall undone w',
        undoes_ok (rev (take count items)) w undone w' ->
        composite_undo self w =
          (None,
           mkCommand (_description self) false (mkComposite (rev undone ++ drop count items) 0),
           w', map CallUndo (rev (seq 0 count)))) /\
    (forall j c_j later' w_j exc c_j' w',
        (j < count)%nat ->
        items !! j = Some c_j ->
        undoes_ok (rev (drop (S j) (take count items))) w later' w_j ->
        undo c_j w_j = (Some exc, c_j', w') ->
        composite_undo self w =
          (Some exc,
           mkCommand (_description self) true
             (mkComposite (take j items ++ c_j' :: rev later' ++ drop count items) count),
           w', map CallUndo (rev (seq j (count - j))))).
Proof.
  intros self w He Hcount items count. split.
  - intros undone w' Hu. unfold composite_undo. rewrite He. simpl.
    fold items count. rewrite (undo_loop_all _ _ _ _ Hu).
    rewrite length_rev, length_take, Nat.min_l by done. reflexivity.
  - intros j c_j later' w_j exc c_j' w' Hj Hi Hu Hf.
    unfold composite_undo. rewrite He. simpl. fold items count.
    assert (Hsplit : rev (take count items) =
                     rev (drop (S j) (take count items)) ++ c_j :: rev (take j items)).
    { assert (Htj : take count items !! j = Some c_j) by (by rewrite lookup_take_lt).
      rewrite <- (take_drop_middle _ _ _ Htj) at 1.
      rewrite take_take, Nat.min_l by lia.
      rewrite rev_app_distr. simpl. by rewrite <- app_assoc. }
    rewrite Hsplit, (undo_loop_stops_at _ _ _ _ Hu c_j _ exc c_j' w' Hf).
    unfold write_back. rewrite rev_app_distr. simpl.
    rewrite rev_involutive, <- !app_assoc. simpl.
    rewrite !length_rev, length_drop, !length_take.
    assert (Hc : (count <= length items)%nat) by exact Hcount.
    clearbody items count.
    replace (count `min` length items)%nat with count by lia.
    replace (j `min` length items)%nat with j by lia.
    replace (count - j)%nat with (S (count - S j)) by lia. reflexivity.
Qed.
End CompositeUndoOrder.

Lemma composite_undo_unwinds_or_stops_witness :
  (let w : Bank := <[1%nat := mkBankAccount "B" 500 0]> {[ 0%nat := mkBankAccount "A" 2000 0 ]} in
   let done := composite_execute (TransferCommand w 0%nat 1%nat 1000) w in
   exists self' w',
     composite_undo done.1.1.2 done.1.2 = (None, self', w', [CallUndo 1; CallUndo 0])) /\
  (let done := composite_execute top_up overdrawn_bank in
   exists self' w',
     composite_undo done.1.1.2 done.1.2 =
       (Some (PyExn AccountError "Insufficient funds (overdraft limit exceeded)." None),
        self', w', [CallUndo 1; CallUndo 0]) /\
     _executed self' = true /\
     balance_cents (w' !!! 0%nat) = -400 /\
     balance_cents (w' !!! 1%nat) = 100).
Proof.
  split.
  - intros w done. do 2 eexists.
    eapply (proj1 (composite_undo_unwinds_or_stops done.1.1.2 done.1.2 eq_refl
                     ltac:(vm_compute; lia))).
    econstructor; [reflexivity|]. econstructor; [reflexivity|]. constructor.
  - intros done. do 2 eexists. split; [|split; [|split]].
    + eapply (proj2 (composite_undo_unwinds_or_stops done.1.1.2 done.1.2 eq_refl
                       ltac:(vm_compute; lia)) 0%nat).
      * vm_compute. lia.
      * reflexivity.
      * econstructor; [reflexivity|]. constructor.
      * reflexivity.
    + reflexivity.
    + reflexivity.
    + reflexivity.
Defined.

End LedgerProps.

(** ** The device runner, further *)
Module DeviceProps.
Import DeviceRunner DeviceFacts.

(** *** [Command.run] *)
Section RunBounds.
Context {W X : Type} `{!Methods W X}.

Lemma fails_times_last n (c : Command X) (w : W) last c' w' last' :
  fails_times n c w last c' w' last' ->
  is_Some last \/ (0 < n)%nat -> is_Some last'.
Proof.
  induction 1 as [c w last|n c w last exc c1 w1 c' w' last' _ _ IH]; intros Hn.
  - destruct Hn as [Hn|Hn]; [done|lia].
  - apply IH. by left.
Qed.

(** X6.  [run] never raises and calls [execute] at least once and at
    most [1 + max(0, max_retries)] times; a policy with zero or a
    negative number of retries gives exactly one call.  A failure
    result is reported only after all attempts and always carries the
    exception of the last one; a success result carries none and
    leaves the command marked executed. *)
Theorem run_makes_bounded_attempts (self : Command X) (w : W) :
  exists res self' w' n,
    run self w = (Return res, self', w', n) /\
    (1 <= n)%nat /\
    Z.of_nat n <= 1 + Z.max 0 (max_retries (_retry_policy self)) /\
    (max_retries (_retry_policy self) <= 0 -> n = 1%nat) /\
    value res = VNone /\
    (success res = false ->
     is_Some (error res) /\ Z.of_nat n = 1 + Z.max 0 (max_retries (_retry_policy self))) /\
    (success res = true -> error res = None /\ _executed self' = true).
Proof.
  destruct (run_returns self w) as (res & self' & w' & n & Hrun).
  exists res, self', w', n. split; [exact Hrun|].
  unfold run in Hrun.
  assert (Htot : Z.of_nat (Z.to_nat (total_attempts self)) =
                 1 + Z.max 0 (max_retries (_retry_policy self)))
    by (unfold total_attempts; lia).
  set (remaining := Z.to_nat (total_attempts self)) in *.
  assert (Hpos : (1 <= remaining)%nat) by lia.
  destruct (run_loop_inv _ _ _ _ _ _ _ _ Hrun)
    as [(Hs & Hn & Hv & Hf)|(Hs & He & Herr & k & c1 & w1 & last1 & c2 & Hk & Hn & Hf & Hx & Hc)].
  - subst n. repeat split; try lia; try done.
    + eapply fails_times_last; [exact Hf|right; lia].
    + congruence.
    + congruence.
  - pose proof (run_loop_first_success _ _ _ _ _ _ _ _ _ Hf Hx _ Hk) as Hrun'.
    assert (Hres : res = mkCommandResult true VNone None) by congruence.
    rewrite Hres.
    subst n. repeat split; try lia; try done.
Qed.
End RunBounds.

(** *** The concrete commands on the PLC stub *)
Import DeviceTerms.

Lemma connected_lookup (w : Plant) a :
  connected (w !!! a) = true -> w !! a = Some (w !!! a).
Proof.
  unfold lookup_total, map_lookup_total. destruct (w !! a); simpl; [done|discriminate].
Qed.

Lemma device_execute_raise (c : Command DeviceFields) (w : Plant) e c' w' :
  device_execute c w = (Some e, c', w') ->
  w' = w /\ _executed c' = _executed c /\ exists msg, e = PyExn DeviceError msg None.
Proof.
  unfold device_execute, connect, disconnect, set_param, start_program, stop_program,
    device_error.
  intros Hx. destruct (fields c); repeat (case_match; simplify_eq); simpl; eauto.
Qed.

Lemma device_fails_times n (c : Command DeviceFields) (w : Plant) last c' w' last' :
  fails_times n c w last c' w' last' ->
  w' = w /\ _executed c' = _executed c /\
  ((0 < n)%nat \/ (exists msg, last = Some (PyExn DeviceError msg None)) ->
   exists msg, last' = Some (PyExn DeviceError msg None)).
Proof.
  induction 1 as [c w last|n c w last exc c1 w1 c' w' last' Hx _ IH].
  - repeat split. intros [Hn|Hl]; [lia|done].
  - destruct (device_execute_raise _ _ _ _ _ Hx) as (-> & He & msg & ->).
    destruct IH as (-> & He' & IH). repeat split; [congruence|].
    intros _. apply IH. right. eauto.
Qed.

(** X7.  A [run] of one of the five device commands that reports
    failure has made every attempt its policy allows, has left the
    plant exactly as it was and the command's executed flag as it was,
    and reports a [DeviceError]. *)
Theorem failed_run_leaves_plant_untouched :
  forall (c : Command DeviceFields) (w : Plant) res c' w' n,
    run c w = (Return res, c', w', n) ->
    success res = false ->
    w' = w /\ _executed c' = _executed c /\
    Z.of_nat n = 1 + Z.max 0 (max_retries (_retry_policy c)) /\
    exists msg, error res = Some (PyExn DeviceError msg None).
Proof.
  intros c w res c' w' n Hrun Hs. unfold run in Hrun.
  destruct (run_loop_inv _ _ _ _ _ _ _ _ Hrun) as [(_ & Hn & _ & Hf)|(Hs' & _)];
    [|congruence].
  destruct (device_fails_times _ _ _ _ _ _ _ Hf) as (-> & He & Hl).
  repeat split; [done| |].
  - subst n. unfold total_attempts. lia.
  - apply Hl. left. unfold total_attempts. lia.
Qed.

Lemma failed_run_leaves_plant_untouched_witness :
  let w : Plant := {[ 0%nat := new_PLCDevice "plc" (Some {[ "connect" := true ]}) ]} in
  let c := ConnectCommand w 0%nat 10 (Some (mkRetryPolicy 2 0)) in
  let r := run c w in
  r.1.2 = w /\ _executed r.1.1.2 = false /\ r.2 = 3%nat.
Proof.
  intros w c r.
  destruct (failed_run_leaves_plant_untouched c w
              (mkCommandResult false VNone
                 (Some (PyExn DeviceError "[plc] Simulated connect failure." None)))
              r.1.1.2 r.1.2 r.2 eq_refl eq_refl) as (Hw & He & Hn & _).
  split; [exact Hw|]. split; [exact He|]. apply Nat2Z.inj. exact Hn.
Defined.

Lemma device_execute_not_connected (c : Command DeviceFields) (w : Plant) :
  needs_connection (fields c) = true ->
  connected (w !!! device_of (fields c)) = false ->
  exists c',
    device_execute c w = (Some (not_connected (w !!! device_of (fields c))), c', w) /\
    needs_connection (fields c') = true /\
    device_of (fields c') = device_of (fields c) /\
    _executed c' = _executed c.
Proof.
  unfold device_execute, set_param, start_program, stop_program, not_connected.
  destruct (fields c) as [d t|d|d k v p h|d p|d p] eqn:Hf; simpl; try discriminate;
    intros _ ->; simpl; eexists; (split; [reflexivity|]); rewrite ?Hf; done.
Qed.

Lemma not_connected_fails_times (w : Plant) n : forall (c : Command DeviceFields) last,
  needs_connection (fields c) = true ->
  connected (w !!! device_of (fields c)) = false ->
  exists c',
    fails_times n c w last c' w
      (match n with
       | O => last
       | S _ => Some (not_connected (w !!! device_of (fields c)))
       end) /\
    _executed c' = _executed c.
Proof.
  induction n as [|n IH]; intros c last Hn Hc.
  - exists c. split; [constructor|done].
  - destruct (device_execute_not_connected c w Hn Hc) as (c1 & Hx & Hn1 & Hd1 & He1).
    rewrite <- Hd1 in Hc.
    destruct (IH c1 (Some (not_connected (w !!! device_of (fields c)))) Hn1 Hc)
      as (c' & Hf & He').
    exists c'. split; [|congruence].
    econstructor; [exact Hx|]. destruct n; [exact Hf|]. rewrite Hd1 in Hf. exact Hf.
Qed.

(** X8.  On a device that is not connected, a [SetParameterCommand],
    [StartProgramCommand] or [StopProgramCommand] fails at every
    attempt, whatever its retry policy: [run] reports failure with the
    device's "Not connected." error after all attempts, and the plant
    and the executed flag are as before.  A [DisconnectCommand] on such
    a device succeeds at the first attempt without touching the plant,
    also when the device is set to fail on [disconnect]. *)
Theorem commands_need_a_connected_device :
  forall (c : Command DeviceFields) (w : Plant),
    connected (w !!! device_of (fields c)) = false ->
    (needs_connection (fields c) = true ->
     exists c',
       run c w =
         (Return (mkCommandResult false VNone
                    (Some (not_connected (w !!! device_of (fields c))))),
          c', w, Z.to_nat (1 + Z.max 0 (max_retries (_retry_policy c)))) /\
       _executed c' = _executed c) /\
    (forall d, fields c = DisconnectF d ->
       run c w = (Return (mkCommandResult true VNone None), set_executed true c, w, 1%nat)).
Proof.
  intros c w Hc. split.
  - intros Hn. unfold run, total_attempts.
    destruct (not_connected_fails_times w
                (Z.to_nat (1 + Z.max 0 (max_retries (_retry_policy c)))) c None Hn Hc)
      as (c' & Hf & He).
    exists c'. split; [|exact He].
    rewrite (run_loop_all_fail _ _ _ _ _ _ _ Hf).
    destruct (Z.to_nat (1 + Z.max 0 (max_retries (_retry_policy c)))) eqn:Ht; [lia|done].
  - intros d Hf. rewrite Hf in Hc. simpl in Hc.
    apply (run_loop_first_success 0 c w None c w None c w); [constructor| |].
    + change (execute c w) with (device_execute c w).
      unfold device_execute, disconnect. rewrite Hf, Hc. reflexivity.
    + unfold total_attempts. lia.
Qed.

Lemma commands_need_a_connected_device_witness :
  let w : Plant := {[ 0%nat := new_PLCDevice "plc" (Some {[ "disconnect" := true ]}) ]} in
  (exists c',
     run (StartProgramCommand w 0%nat "Main" (Some (mkRetryPolicy 2 0))) w =
       (Return (mkCommandResult false VNone
                  (Some (PyExn DeviceError "[plc] Not connected." None))), c', w, 3%nat)) /\
  (exists c', run (DisconnectCommand w 0%nat) w =
                (Return (mkCommandResult true VNone None), c', w, 1%nat)).
Proof.
  intros w. split.
  - destruct (proj1 (commands_need_a_connected_device
                       (StartProgramCommand w 0%nat "Main" (Some (mkRetryPolicy 2 0))) w
                       eq_refl) eq_refl) as (c' & Hrun & _).
    exists c'. exact Hrun.
  - eexists.
    exact (proj2 (commands_need_a_connected_device (DisconnectCommand w 0%nat) w eq_refl)
             0%nat eq_refl).
Defined.

Lemma plant_insert_back (w : Plant) a d :
  d = w !!! a -> forall b, <[a := d]> w !!! b = w !!! b.
Proof.
  intros -> b. destruct (decide (a = b)) as [->|Hne].
  - by rewrite lookup_total_insert_eq.
  - by rewrite lookup_total_insert_ne.
Qed.

Lemma plant_insert_twice_back (w : Plant) a d d1 :
  d = w !!! a -> forall b, <[a := d]> (<[a := d1]> w) !!! b = w !!! b.
Proof. intros Hd b. rewrite insert_insert_eq. by apply plant_insert_back. Qed.

Lemma run_once (c c1 : Command DeviceFields) (w w1 : Plant) :
  device_execute c w = (None, c1, w1) ->
  run c w = (Return (mkCommandResult true VNone None), set_executed true c1, w1, 1%nat).
Proof.
  intros Hx. apply (run_loop_first_success 0 c w None c w None c1 w1); [constructor|exact Hx|].
  unfold total_attempts. lia.
Qed.

(** X9.  From a state in which the command is compensable, [run]
    succeeds at the first attempt and an [undo] right after it returns
    and gives every device of the plant its state back. *)
Theorem run_then_undo_restores_plant :
  forall (c : Command DeviceFields) (w : Plant),
    compensable (fields c) (w !!! device_of (fields c)) ->
    exists c1 w1 c2 w2,
      run c w = (Return (mkCommandResult true VNone None), c1, w1, 1%nat) /\
      undo c1 w1 = (None, c2, w2) /\
      forall b, w2 !!! b = w !!! b.
Proof.
  intros c w Hc.
  destruct (fields c) as [a t|a|a k v p h|a p|a p] eqn:Hf; simpl in Hc.
  - destruct Hc as (Hcon & Hfc & Hfd).
    do 4 eexists. split; [|split].
    + apply run_once. unfold device_execute, connect. rewrite Hf, Hfc. reflexivity.
    + change (undo ?x ?y) with (device_undo x y). unfold device_undo, disconnect.
      simpl. rewrite Hf, lookup_total_insert_eq. simpl.
      unfold fails_on in *. simpl. rewrite Hfd. reflexivity.
    + apply plant_insert_twice_back. destruct (w !!! a); simpl in *. by subst.
  - do 4 eexists. split; [|split].
    + apply run_once. unfold device_execute, disconnect. rewrite Hf, Hc. reflexivity.
    + change (undo ?x ?y) with (device_undo x y). unfold device_undo.
      simpl. rewrite Hf. reflexivity.
    + done.
  - destruct Hc as (Hcon & Hfs & [v0 Hk]).
    do 4 eexists. split; [|split].
    + apply run_once. unfold device_execute, set_param. rewrite Hf, Hcon, Hfs. reflexivity.
    + change (undo ?x ?y) with (device_undo x y). unfold device_undo, set_param.
      simpl. rewrite !lookup_total_insert_eq. simpl. rewrite lookup_insert_eq.
      rewrite bool_decide_eq_true_2 by eauto.
      rewrite Hcon. unfold fails_on in *. simpl. rewrite Hfs. simpl. reflexivity.
    + apply plant_insert_twice_back. rewrite Hk. simpl.
      rewrite insert_insert_eq, insert_id by done.
      by destruct (w !!! a).
  - destruct Hc as (Hcon & Hfs & Hft & Hr).
    do 4 eexists. split; [|split].
    + apply run_once. unfold device_execute, start_program.
      rewrite Hf, Hcon, Hfs, Hr. reflexivity.
    + change (undo ?x ?y) with (device_undo x y). unfold device_undo, stop_program.
      simpl. rewrite Hf, !lookup_total_insert_eq. simpl.
      rewrite bool_decide_eq_true_2 by done.
      rewrite Hcon. unfold fails_on in *. simpl. rewrite Hft. reflexivity.
    + apply plant_insert_twice_back. destruct (w !!! a); simpl in *. by subst.
  - destruct Hc as (Hcon & Hfs & Hft & Hr).
    assert (Hrun : run c w =
              (Return (mkCommandResult true VNone None),
               set_executed true (with_fields (StopProgramF a (running_program (w !!! a))) c),
               <[a := set_running_program None (w !!! a)]> w, 1%nat)).
    { apply run_once. unfold device_execute, stop_program. rewrite Hf, Hcon, Hft. reflexivity. }
    destruct (truthy (running_program (w !!! a))) eqn:Ht.
    + destruct (running_program (w !!! a)) as [q|] eqn:Hq; [|discriminate].
      do 4 eexists. split; [exact Hrun|split].
      * change (undo ?x ?y) with (device_undo x y). unfold device_undo, start_program.
        simpl. simpl in Ht. rewrite Ht, !lookup_total_insert_eq. simpl.
        rewrite Hcon. unfold fails_on in *. simpl. rewrite Hfs. reflexivity.
      * apply plant_insert_twice_back. destruct (w !!! a); simpl in *. by subst.
    + destruct Hr as [Hr|Hr]; [|congruence].
      do 4 eexists. split; [exact Hrun|split].
      * change (undo ?x ?y) with (device_undo x y). unfold device_undo.
        simpl. rewrite Ht. reflexivity.
      * apply plant_insert_back. destruct (w !!! a); simpl in *. by subst.
Qed.

Lemma run_then_undo_restores_plant_witness :
  let w : Plant :=
    {[ 0%nat := mkPLCDevice "plc" true {[ "speed" := VInt 7 ]} (Some "Main") ∅ ]} in
  (exists c1 w1 c2 w2,
     run (SetParameterCommand w 0%nat "speed" (VInt 42) None) w =
       (Return (mkCommandResult true VNone None), c1, w1, 1%nat) /\
     undo c1 w1 = (None, c2, w2) /\ forall b, w2 !!! b = w !!! b) /\
  (exists c1 w1 c2 w2,
     run (StopProgramCommand w 0%nat None) w =
       (Return (mkCommandResult true VNone None), c1, w1, 1%nat) /\
     undo c1 w1 = (None, c2, w2) /\ forall b, w2 !!! b = w !!! b).
Proof.
  intros w. split.
  - apply (run_then_undo_restores_plant (SetParameterCommand w 0%nat "speed" (VInt 42) None) w).
    simpl. repeat split. by exists (VInt 7).
  - apply (run_then_undo_restores_plant (StopProgramCommand w 0%nat None) w).
    simpl. repeat split. by right.
Defined.

(** *** The set-up sequence of the repository's tests, on any device *)
Section StuckCommand.
Context {W X : Type} `{!Methods W X}.

Lemma stuck_fails_times (c : Command X) (w : W) e :
  execute c w = (Some e, c, w) ->
  forall n last,
    fails_times n c w last c w (match n with O => last | S _ => Some e end).
Proof.
  intros Hx. induction n as [|n IH]; intros last; [constructor|].
  econstructor; [exact Hx|]. specialize (IH (Some e)). by destruct n.
Qed.

Lemma run_first_try (c c1 : Command X) (w w1 : W) :
  execute c w = (None, c1, w1) ->
  run c w = (Return (mkCommandResult true VNone None), set_executed true c1, w1, 1%nat).
Proof.
  intros Hx. apply (run_loop_first_success 0 c w None c w None c1 w1); [constructor|exact Hx|].
  unfold total_attempts. lia.
Qed.

Lemma stuck_run (c : Command X) (w : W) e :
  execute c w = (Some e, c, w) ->
  run c w = (Return (mkCommandResult false VNone (Some e)), c, w,
             Z.to_nat (total_attempts c)).
Proof.
  intros Hx. unfold run.
  rewrite (run_loop_all_fail _ _ _ _ _ _ _
             (stuck_fails_times c w e Hx (Z.to_nat (total_attempts c)) None)).
  destruct (Z.to_nat (total_attempts c)) eqn:Ht; [unfold total_attempts in Ht; lia|done].
Qed.
End StuckCommand.

(** X10.  The sequence Connect, SetParameter, StartProgram as one
    composite, run on a device that exists, is not connected and does
    not fail on connect, set_param or disconnect.  If the program can
    start, the run succeeds and the device is connected, holds the
    value and runs the program.  If it cannot (the device fails on
    start_program, or already runs a program), the run reports failure
    with a [CommandError], the composite is not executed, and the
    device is as before except that the parameter holds its previous
    value, or [None] if it had none. *)
Theorem setup_sequence_commits_or_rolls_back :
  forall (w : Plant) (a : addr) (d : PLCDevice) key v program timeout p1 p2 p3,
    w !! a = Some d ->
    connected d = false ->
    fails_on d "connect" = false ->
    fails_on d "set_param" = false ->
    fails_on d "disconnect" = false ->
    let init :=
      AtomicCompositeCommand "init"
        [ConnectCommand w a timeout p1; SetParameterCommand w a key v p2;
         StartProgramCommand w a program p3] in
    (fails_on d "start_program" = false ->
     truthy (running_program d) = false ->
     exists c',
       run init w =
         (Return (mkCommandResult true VNone None), c',
          <[a := mkPLCDevice (name d) true (<[key := v]> (params d)) (Some program) (_fail d)]> w,
          1%nat) /\
       _executed c' = true /\ _executed_count (fields c') = 3%nat) /\
    (fails_on d "start_program" = true \/ truthy (running_program d) = true ->
     exists c' msg cause,
       run init w =
         (Return (mkCommandResult false VNone (Some (PyExn CommandError msg (Some cause)))), c',
          <[a := set_params (<[key := default VNone (params d !! key)]> (params d)) d]> w,
          1%nat) /\
       _executed c' = false /\
       (is_Some (params d !! key) ->
        <[a := set_params (<[key := default VNone (params d !! key)]> (params d)) d]> w = w)).
Proof.
  intros w a d key v program timeout p1 p2 p3 Hd Hcon Hfc Hfs Hfd init.
  assert (Hwa : w !!! a = d) by (by apply lookup_total_correct).
  set (w1 := <[a := set_connected true d]> w).
  set (d2 := set_params (<[key := v]> (params d)) (set_connected true d)).
  set (w2 := <[a := d2]> w1).
  set (c1 := ConnectCommand w a timeout p1) in *.
  set (c2 := SetParameterCommand w a key v p2) in *.
  set (c3 := StartProgramCommand w a program p3) in *.
  assert (H1 : run c1 w = (Return (mkCommandResult true VNone None),
                           set_executed true c1, w1, 1%nat)).
  { apply run_once. unfold device_execute, connect. simpl. rewrite Hwa, Hfc. reflexivity. }
  set (c2' := set_executed true
                (with_fields (SetParameterF a key v (default VNone (params d !! key)) true) c2)).
  assert (H2 : run c2 w1 = (Return (mkCommandResult true VNone None), c2', w2, 1%nat)).
  { apply run_once. unfold device_execute, set_param. simpl. unfold w1.
    rewrite !lookup_total_insert_eq. simpl. unfold fails_on in *. simpl. rewrite Hfs.
    rewrite lookup_total_insert_eq. simpl. rewrite lookup_insert_eq.
    rewrite bool_decide_eq_true_2 by eauto. reflexivity. }
  assert (Hw2 : w2 !!! a = d2) by (unfold w2; by rewrite lookup_total_insert_eq).
  split.
  - intros Hfp Hr.
    assert (H3 : run c3 w2 = (Return (mkCommandResult true VNone None), set_executed true c3,
                              <[a := set_running_program (Some program) d2]> w2, 1%nat)).
    { apply run_once. unfold device_execute, start_program. simpl. rewrite Hw2. simpl.
      unfold fails_on in *. simpl. rewrite Hfp, Hr. reflexivity. }
    eexists. split; [|split].
    + apply run_first_try.
      change (execute init w) with ((composite_execute init w).1).
      unfold composite_execute, init. cbn [_items fields AtomicCompositeCommand new_command
        execute_loop]. rewrite H1. cbn [success negb execute_loop]. rewrite H2.
      cbn [success negb execute_loop]. rewrite H3. cbn [success negb execute_loop].
      cbn [fst]. f_equal. unfold w2, w1, d2. rewrite !insert_insert_eq. reflexivity.
    + reflexivity.
    + reflexivity.
  - intros Hcannot.
    assert (He3 : exists e, execute c3 w2 = (Some e, c3, w2)).
    { change (execute c3 w2) with (device_execute c3 w2).
      unfold device_execute, start_program. simpl. rewrite Hw2. simpl.
      change (fails_on d2 "start_program") with (fails_on d "start_program").
      destruct (fails_on d "start_program") eqn:Hs; [eauto|].
      destruct Hcannot as [?|Hr]; [congruence|]. simpl in Hr. rewrite Hr. eauto. }
    destruct He3 as [e He3].
    pose proof (stuck_run c3 w2 e He3) as H3.
    set (c1' := set_executed true c1) in *.
    set (d3 := set_params (<[key := default VNone (params d !! key)]> (params d2)) d2).
    set (w3 := <[a := d3]> w2).
    set (w4 := <[a := set_connected false d3]> w3).
    assert (Hu2 : undo c2' w2 = (None, c2', w3)).
    { change (undo c2' w2) with (device_undo c2' w2). unfold device_undo, set_param.
      simpl. rewrite Hw2. simpl.
      change (fails_on d2 "set_param") with (fails_on d "set_param"). by rewrite Hfs. }
    assert (Hu1 : undo c1' w3 = (None, c1', w4)).
    { change (undo c1' w3) with (device_undo c1' w3). unfold device_undo, disconnect.
      simpl. unfold w3. rewrite lookup_total_insert_eq. simpl.
      change (fails_on d3 "disconnect") with (fails_on d "disconnect"). by rewrite Hfd. }
    assert (Hw4 : w4 = <[a := set_params (<[key := default VNone (params d !! key)]> (params d))
                                 d]> w).
    { unfold w4, w3, w2, w1. rewrite !insert_insert_eq. f_equal.
      unfold d3, d2, set_connected, set_params. simpl. rewrite insert_insert_eq.
      by rewrite <- Hcon. }
    assert (He1 : _executed c1' = true) by reflexivity.
    assert (He2 : _executed c2' = true) by reflexivity.
    rewrite <- Hw4.
    clearbody c1' c2' w4 w3 d3 w2 d2 w1 c1 c2 c3.
    do 3 eexists. split; [|split].
    + unfold run. change (Z.to_nat (total_attempts init)) with 1%nat.
      cbn [run_loop]. change (execute init w) with ((composite_execute init w).1).
      unfold composite_execute, init. cbn [_items fields AtomicCompositeCommand new_command
        execute_loop]. rewrite H1. cbn [success negb execute_loop]. rewrite H2.
      cbn [success negb execute_loop]. rewrite H3. cbn [success negb execute_loop].
      cbn [catches take rev app rollback_loop]. rewrite He2, Hu2, He1, Hu1.
      cbn [fst snd catches]. reflexivity.
    + reflexivity.
    + rewrite Hw4. intros [v0 Hk]. rewrite Hk. simpl. rewrite (insert_id (params d)) by done.
      apply insert_id. rewrite Hd. f_equal. by destruct d.
Qed.


Lemma setup_sequence_commits_or_rolls_back_witness :
  (exists c',
     run (AtomicCompositeCommand "init"
            [ConnectCommand free_plant 0%nat 2 (Some (mkRetryPolicy 1 0));
             SetParameterCommand free_plant 0%nat "speed" (VInt 42) None;
             StartProgramCommand free_plant 0%nat "Main" None])
         free_plant =
       (Return (mkCommandResult true VNone None), c',
        <[0%nat := mkPLCDevice "plc" true {[ "speed" := VInt 42 ]} (Some "Main") ∅]> free_plant,
        1%nat)) /\
  (exists c' msg cause,
     run (AtomicCompositeCommand "init"
            [ConnectCommand busy_plant 0%nat 2 None;
             SetParameterCommand busy_plant 0%nat "speed" (VInt 42) None;
             StartProgramCommand busy_plant 0%nat "Main" None])
         busy_plant =
       (Return (mkCommandResult false VNone (Some (PyExn CommandError msg (Some cause)))), c',
        busy_plant, 1%nat)).
Proof.
  split.
  - destruct (proj1 (setup_sequence_commits_or_rolls_back free_plant 0%nat
                       (new_PLCDevice "plc" None)
                       "speed" (VInt 42) "Main" 2 (Some (mkRetryPolicy 1 0)) None None
                       eq_refl eq_refl eq_refl eq_refl eq_refl) eq_refl eq_refl)
      as (c' & Hrun & _).
    exists c'. exact Hrun.
  - destruct (proj2 (setup_sequence_commits_or_rolls_back busy_plant 0%nat
                       (mkPLCDevice "plc" false {[ "speed" := VInt 7 ]} (Some "Other") ∅)
                       "speed" (VInt 42) "Main" 2 None None None
                       eq_refl eq_refl eq_refl eq_refl eq_refl) (or_intror eq_refl))
      as (c' & msg & cause & Hrun & _ & Hsame).
    exists c', msg, cause. rewrite Hsame in Hrun by (by exists (VInt 7)). exact Hrun.
Defined.

(** *** [AtomicCompositeCommand.undo] of the device runner *)
Section DeviceCompositeUndoOrder.
Context {W X : Type} `{!Methods W X}.

Lemma device_undoes_ok_length cmds (w : W) cmds' w' :
  undoes_ok cmds w cmds' w' -> length cmds' = length cmds.
Proof. induction 1; simpl; congruence. Qed.

Lemma device_undo_loop_stops_at pre (w : W) pre' w_j :
  undoes_ok pre w pre' w_j ->
  forall c post exc c' w',
    undo c w_j = (Some exc, c', w') ->
    undo_loop (pre ++ c :: post) w =
      (Some exc, pre' ++ c' :: post, w',
       map CallUndo (rev (seq (length post) (S (length pre))))).
Proof.
  induction 1 as [w|c0 cs w c0' w1 cs' w2 Hc _ IH]; intros c post exc c' w' Hf.
  - simpl. by rewrite Hf.
  - change ((c0 :: cs) ++ c :: post) with (c0 :: (cs ++ c :: post)).
    change (length (c0 :: cs)) with (S (length cs)).
    rewrite (LedgerProps.rev_seq_S (length post) (S (length cs))).
    cbn [undo_loop]. rewrite Hc, (IH c post exc c' w' Hf).
    rewrite length_app. cbn [length map]. do 3 f_equal. lia.
Qed.

Lemma device_undo_loop_all cmds (w : W) cmds' w' :
  undoes_ok cmds w cmds' w' ->
  undo_loop cmds w = (None, cmds', w', map CallUndo (rev (seq 0 (length cmds)))).
Proof.
  induction 1 as [w|c0 cs w c0' w1 cs' w2 Hc _ IH]; [done|].
  change (length (c0 :: cs)) with (S (length cs)). rewrite LedgerProps.rev_seq_S.
  cbn [undo_loop]. by rewrite Hc, IH.
Qed.

(** X11.  [undo] of an executed composite calls [undo] on the executed
    sub-commands from the last to the first.  If all of them return, the
    composite ends not executed with its counter at 0.  Unlike the
    rollback inside [execute], [undo] is not best effort: the first
    sub-command whose [undo] raises stops it, the exception reaches the
    caller, the sub-commands before it are left as they were, and the
    composite stays marked executed with its counter unchanged. *)
Theorem device_composite_undo_unwinds_or_stops :
  forall (self : Command (Composite X)) (w : W),
    _executed self = true ->
    (_executed_count (fields self) <= length (_items (fields self)))%nat ->
    let items := _items (fields self) in
    let count := _executed_count (fields self) in
    (forall undone w',
        undoes_ok (rev (take count items)) w undone w' ->
        composite_undo self w =
          (None,
           mkCommand (_description self) false (_retry_policy self)
             (mkComposite (rev undone ++ drop count items) 0),
           w', map CallUndo (rev (seq 0 count)))) /\
    (forall j c_j later' w_j exc c_j' w',
        (j < count)%nat ->
        items !! j = Some c_j ->
        undoes_ok (rev (drop (S j) (take count items))) w later' w_j ->
        undo c_j w_j = (Some exc, c_j', w') ->
        composite_undo self w =
          (Some exc,
           mkCommand (_description self) true (_retry_policy self)
             (mkComposite (take j items ++ c_j' :: rev later' ++ drop count items) count),
           w', map CallUndo (rev (seq j (count - j))))).
Proof.
  intros self w He Hcount items count. split.
  - intros undone w' Hu. unfold composite_undo. rewrite He. simpl.
    fold items count. rewrite (device_undo_loop_all _ _ _ _ Hu).
    rewrite length_rev, length_take, Nat.min_l by done. reflexivity.
  - intros j c_j later' w_j exc c_j' w' Hj Hi Hu Hf.
    unfold composite_undo. rewrite He. simpl. fold items count.
    assert (Hsplit : rev (take count items) =
                     rev (drop (S j) (take count items)) ++ c_j :: rev (take j items)).
    { assert (Htj : take count items !! j = Some c_j) by (by rewrite lookup_take_lt).
      rewrite <- (take_drop_middle _ _ _ Htj) at 1.
      rewrite take_take, Nat.min_l by lia.
      rewrite rev_app_distr. simpl. by rewrite <- app_assoc. }
    rewrite Hsplit, (device_undo_loop_stops_at _ _ _ _ Hu c_j _ exc c_j' w' Hf).
    unfold write_back. rewrite rev_app_distr. simpl.
    rewrite rev_involutive, <- !app_assoc. simpl.
    rewrite !length_rev, length_drop, !length_take.
    assert (Hc : (count <= length items)%nat) by exact Hcount.
    clearbody items count.
    replace (count `min` length items)%nat with count by lia.
    replace (j `min` length items)%nat with j by lia.
    replace (count - j)%nat with (S (count - S j)) by lia. reflexivity.
Qed.
End DeviceCompositeUndoOrder.

Lemma device_composite_undo_unwinds_or_stops_witness :
  let init :=
    AtomicCompositeCommand "init"
      [ConnectCommand sticky_plant 0%nat 2 None;
       SetParameterCommand sticky_plant 0%nat "speed" (VInt 42) None] in
  let done := composite_execute init sticky_plant in
  exists self' w',
    composite_undo done.1.1.2 done.1.2 =
      (Some (PyExn DeviceError "[plc] Simulated disconnect failure." None),
       self', w', [CallUndo 1; CallUndo 0]) /\
    _executed self' = true /\
    connected (w' !!! 0%nat) = true.
Proof.
  intros init done. do 2 eexists. split; [|split].
  - eapply (proj2 (device_composite_undo_unwinds_or_stops done.1.1.2 done.1.2 eq_refl
                     ltac:(vm_compute; lia)) 0%nat).
    + vm_compute. lia.
    + reflexivity.
    + econstructor; [reflexivity|]. constructor.
    + reflexivity.
  - reflexivity.
  - reflexivity.
Defined.

End DeviceProps.

(** ** The text editor, further *)
Module EditorProps.
Import TextEditor EditorFacts EditorTerms.

(** Induction on commands, macros included. *)
Section CommandInduction.
Variable P : Command -> Prop.
Hypothesis P_insert : forall d b t p, P (InsertTextC d b t p).
Hypothesis P_delete : forall d b n s, P (DeleteTextC d b n s).
Hypothesis P_move : forall d b t p, P (MoveCursorC d b t p).
Hypothesis P_macro : forall d items n, Forall P items -> P (MacroCommandC d items n).

Fixpoint command_ind (c : Command) : P c :=
  match c with
  | InsertTextC d b t p => P_insert d b t p
  | DeleteTextC d b n s => P_delete d b n s
  | MoveCursorC d b t p => P_move d b t p
  | MacroCommandC d items n =>
      P_macro d items n
        ((fix all (l : list Command) : Forall P l :=
            match l with
            | [] => @List.Forall_nil _ P
            | x :: r => @List.Forall_cons _ P x r (command_ind x) (all r)
            end) items)
  end.
End CommandInduction.

(** *** The cursor stays inside the text *)

Lemma str_drop_length n s : String.length (str_drop n s) = (String.length s - n)%nat.
Proof. revert s. induction n as [|n IH]; intros [|ch s]; simpl; try done. Qed.

Lemma delete_keeps_cursor_in_text n buf :
  cursor_in_text buf -> cursor_in_text (delete n buf).2.
Proof.
  unfold cursor_in_text, delete, slice_to. simpl. intros H.
  rewrite slice_index_in_range by done. unfold len in *.
  rewrite length_app_str, str_take_length by lia. lia.
Qed.

Lemma move_cursor_puts_cursor_in_text p buf : cursor_in_text (move_cursor p buf).2.
Proof. unfold cursor_in_text, move_cursor, len. simpl. lia. Qed.

Lemma buffers_ok_insert (w : Buffers) b buf :
  buffers_ok w -> cursor_in_text buf -> buffers_ok (<[b := buf]> w).
Proof.
  intros Hw Hb b'. destruct (decide (b = b')) as [->|Hne].
  - by rewrite lookup_total_insert_eq.
  - by rewrite lookup_total_insert_ne.
Qed.

Lemma editor_execute_loop_keeps items :
  Forall keeps_buffers_ok items ->
  forall k w, buffers_ok w -> buffers_ok (execute_loop items k w).2.
Proof.
  induction 1 as [|c items Hc _ IH]; intros k w Hw; [done|].
  simpl. destruct (execute c w) as [c' w1] eqn:Hx.
  specialize (IH (S k) w1). destruct (execute_loop items (S k) w1) as [[rest' n] w2].
  simpl in *. apply IH. pose proof (proj1 (Hc w Hw)) as H1. by rewrite Hx in H1.
Qed.

Lemma undo_first_keeps items :
  Forall keeps_buffers_ok items ->
  forall n w, buffers_ok w -> buffers_ok (undo_first items n w).2.
Proof.
  induction 1 as [|c items Hc _ IH]; intros n w Hw; [by destruct n|].
  destruct n as [|n]; [done|]. simpl.
  specialize (IH n w Hw). destruct (undo_first items n w) as [rest' w1].
  pose proof (proj2 (Hc w1 IH)) as H2. by destruct (undo c w1).
Qed.

Lemma insert_text_keeps d b t p : keeps_buffers_ok (InsertTextC d b t p).
Proof.
  intros w Hw. split; simpl.
  - apply buffers_ok_insert; [done|]. by apply insert_keeps_cursor_in_text.
  - destruct p as [p|]; [|done]. simpl. apply buffers_ok_insert; [done|].
    apply (delete_keeps_cursor_in_text (len t) (move_cursor p (w !!! b)).2).
    apply move_cursor_puts_cursor_in_text.
Qed.

Lemma delete_text_keeps d b n s : keeps_buffers_ok (DeleteTextC d b n s).
Proof.
  intros w Hw. split; simpl.
  - apply buffers_ok_insert; [done|]. by apply (delete_keeps_cursor_in_text n).
  - apply buffers_ok_insert; [done|]. by apply insert_keeps_cursor_in_text.
Qed.

Lemma move_cursor_keeps d b t p : keeps_buffers_ok (MoveCursorC d b t p).
Proof.
  intros w Hw. split; simpl.
  - apply buffers_ok_insert; [done|]. apply (move_cursor_puts_cursor_in_text t).
  - destruct p as [p|]; [|done]. simpl. apply buffers_ok_insert; [done|].
    apply (move_cursor_puts_cursor_in_text p).
Qed.

Lemma macro_keeps d items n :
  Forall keeps_buffers_ok items -> keeps_buffers_ok (MacroCommandC d items n).
Proof.
  intros H w Hw. split.
  - rewrite execute_macro. pose proof (editor_execute_loop_keeps items H 0%nat w Hw) as Hl.
    by destruct (execute_loop items 0 w) as [[items' n'] w'].
  - rewrite undo_macro. pose proof (undo_first_keeps items H n w Hw) as Hl.
    by destruct (undo_first items n w) as [items' w'].
Qed.

(** X12.  If every buffer has its cursor inside its text, this is
    still so after [execute] and after [undo] of any command, macros of
    macros included, whatever state the command is in. *)
Theorem commands_keep_cursor_in_text :
  forall (c : Command) (w : Buffers),
    buffers_ok w -> buffers_ok (execute c w).2 /\ buffers_ok (undo c w).2.
Proof.
  intros c. change (keeps_buffers_ok c).
  induction c as [d b t p|d b n s|d b t p|d items n IH] using command_ind.
  - apply insert_text_keeps.
  - apply delete_text_keeps.
  - apply move_cursor_keeps.
  - apply macro_keeps. exact IH.
Qed.

Lemma commands_keep_cursor_in_text_witness :
  let w : Buffers := {[ 0%nat := mkTextBuffer "Hello" 2 ]} in
  let c := MacroCommand [InsertText 0%nat "abc"; MacroCommand [DeleteText 0%nat 9];
                         MoveCursor 0%nat (-4)] in
  cursor_in_text ((execute c w).2 !!! 0%nat) /\
  cursor_in_text ((undo (execute c w).1 (execute c w).2).2 !!! 0%nat).
Proof.
  intros w c.
  assert (Hw : buffers_ok w).
  { intros b. destruct (decide (b = 0%nat)) as [->|Hne].
    - vm_compute. split; discriminate.
    - unfold w. rewrite lookup_total_singleton_ne by done. vm_compute. split; discriminate. }
  pose proof (commands_keep_cursor_in_text c w Hw) as [Hx _].
  split; [apply Hx|].
  apply (commands_keep_cursor_in_text (execute c w).1 (execute c w).2 Hx).
Defined.

(** *** [DeleteText] and [MoveCursor] *)

Lemma str_drop_drop n m s : str_drop m (str_drop n s) = str_drop (n + m) s.
Proof. revert s. induction n as [|n IH]; intros [|ch s]; simpl; try done. by destruct m. Qed.

Lemma buffers_insert_twice_back (w : Buffers) b buf buf1 :
  buf = w !!! b -> forall b', <[b := buf]> (<[b := buf1]> w) !!! b' = w !!! b'.
Proof.
  intros -> b'. rewrite insert_insert_eq. destruct (decide (b = b')) as [->|Hne].
  - by rewrite lookup_total_insert_eq.
  - by rewrite lookup_total_insert_ne.
Qed.

(** X13.  [DeleteText] removes the characters from the cursor on, as
    many as asked for and as there are (none for a negative count), and
    its [undo] puts them back: the text is as before.  The cursor is
    not: it ends behind the restored characters. *)
Theorem delete_text_undo_restores_text :
  forall (w : Buffers) (b : addr) (count : Z),
    cursor_in_text (w !!! b) ->
    let done := execute (DeleteText b count) w in
    let undone := undo done.1 done.2 in
    let k := Z.max 0 (Z.min count (len (text (w !!! b)) - cursor (w !!! b))) in
    len (text (done.2 !!! b)) = len (text (w !!! b)) - k /\
    cursor (done.2 !!! b) = cursor (w !!! b) /\
    text (undone.2 !!! b) = text (w !!! b) /\
    cursor (undone.2 !!! b) = cursor (w !!! b) + k /\
    forall b', b' <> b -> undone.2 !!! b' = w !!! b'.
Proof.
  intros w b count Hc done undone k.
  destruct (w !!! b) as [t c] eqn:Hb. unfold cursor_in_text, len in Hc. simpl in Hc.
  set (n := Z.to_nat c).
  set (m := Z.to_nat (Z.min (c + Z.max 0 count) (Z.of_nat (String.length t)))).
  assert (Hnm : (n <= m <= String.length t)%nat) by lia.
  set (A := str_take n t). set (B := str_drop n t).
  assert (HA : String.length A = n) by (apply str_take_length; lia).
  assert (HB : String.length B = (String.length t - n)%nat) by apply str_drop_length.
  assert (Hd : delete (Z.max 0 count) (mkTextBuffer t c) =
               (str_take (m - n) B, mkTextBuffer (A +:+ str_drop (m - n) B) c)).
  { unfold delete, slice, slice_to, slice_from. simpl.
    rewrite (slice_index_in_range c t) by (unfold len; lia).
    assert (Hm : slice_index (c + Z.max 0 count) t = m).
    { unfold slice_index, len. destruct (c + Z.max 0 count <? 0) eqn:Hneg; [lia|].
      unfold m. f_equal. lia. }
    rewrite Hm. fold n A B. unfold B. rewrite str_drop_drop.
    replace (n + (m - n))%nat with m by lia. reflexivity. }
  assert (Hk : k = Z.of_nat (m - n)) by (unfold k, len; simpl; lia).
  assert (Hlen1 : String.length (str_take (m - n) B) = (m - n)%nat)
    by (apply str_take_length; lia).
  assert (Hx : done = (DeleteTextC ("Delete " +:+ str_int count +:+ " chars") b (Z.max 0 count)
                         (str_take (m - n) B),
                       <[b := mkTextBuffer (A +:+ str_drop (m - n) B) c]> w)).
  { unfold done, DeleteText. cbn [execute]. by rewrite Hb, Hd. }
  assert (Hi : insert (str_take (m - n) B) (mkTextBuffer (A +:+ str_drop (m - n) B) c) =
               mkTextBuffer t (c + k)).
  { rewrite insert_text_at.
    - simpl. fold n.
      pose proof (str_take_app_length A (str_drop (m - n) B)) as Ht.
      pose proof (str_drop_app_length A (str_drop (m - n) B) 0) as Hdr.
      rewrite HA in Ht. rewrite Nat.add_0_r, HA in Hdr. rewrite Ht, Hdr. simpl.
      rewrite str_take_drop.
      f_equal; [unfold A, B; apply str_take_drop|unfold len; rewrite Hlen1; lia].
    - unfold cursor_in_text, len. simpl. rewrite length_app_str. lia. }
  assert (Hu : undone.2 = <[b := mkTextBuffer t (c + k)]>
                            (<[b := mkTextBuffer (A +:+ str_drop (m - n) B) c]> w)).
  { unfold undone. rewrite Hx. cbn [undo fst snd]. by rewrite lookup_total_insert_eq, Hi. }
  rewrite Hu, Hx. simpl. rewrite !lookup_total_insert_eq. simpl.
  repeat split.
  - unfold len. rewrite length_app_str, str_drop_length. lia.
  - intros b' Hne. by rewrite !lookup_total_insert_ne.
Qed.

Lemma delete_text_undo_restores_text_witness :
  let w : Buffers := {[ 0%nat := mkTextBuffer "Hello World" 5 ]} in
  let done := execute (DeleteText 0%nat 3) w in
  let undone := undo done.1 done.2 in
  done.2 !!! 0%nat = mkTextBuffer "Hellorld" 5 /\
  text (undone.2 !!! 0%nat) = "Hello World" /\
  cursor (undone.2 !!! 0%nat) = 8.
Proof.
  intros w done undone.
  destruct (delete_text_undo_restores_text w 0%nat 3 ltac:(vm_compute; split; discriminate))
    as (_ & _ & Ht & Hc & _).
  split; [reflexivity|]. split; [exact Ht|exact Hc].
Defined.

(** X14.  [MoveCursor] puts the cursor at its target, brought into
    [0, len(text)], and leaves the text alone; afterwards the cursor is
    inside the text whatever it was before.  Its [undo] gives every
    buffer back as it was if the cursor was inside the text. *)
Theorem move_cursor_clamps_and_returns :
  forall (w : Buffers) (b : addr) (target : Z),
    let done := execute (MoveCursor b target) w in
    let undone := undo done.1 done.2 in
    cursor (done.2 !!! b) = Z.max 0 (Z.min target (len (text (w !!! b)))) /\
    text (done.2 !!! b) = text (w !!! b) /\
    cursor_in_text (done.2 !!! b) /\
    text (undone.2 !!! b) = text (w !!! b) /\
    cursor (undone.2 !!! b) = Z.max 0 (Z.min (cursor (w !!! b)) (len (text (w !!! b)))) /\
    (cursor_in_text (w !!! b) -> forall b', undone.2 !!! b' = w !!! b').
Proof.
  intros w b target done undone. unfold undone, done. simpl.
  rewrite !lookup_total_insert_eq. simpl.
  do 5 (split; [first [reflexivity|unfold cursor_in_text, len; simpl; lia]|]).
  intros Hc b'. apply buffers_insert_twice_back.
  destruct (w !!! b) as [t c]. unfold cursor_in_text in Hc. simpl in *.
  f_equal. lia.
Qed.

(** *** The invoker *)

Lemma pop_last_snoc (l : list Command) x : pop_last (l ++ [x]) = Some (x, l).
Proof. unfold pop_last. rewrite rev_app_distr. simpl. by rewrite rev_involutive. Qed.

Lemma pop_last_some (l : list Command) x rest :
  pop_last l = Some (x, rest) -> l = rest ++ [x].
Proof.
  unfold pop_last. destruct (rev l) as [|y r] eqn:Hr; [discriminate|].
  intros H. injection H as <- <-.
  rewrite <- (rev_involutive l), Hr. reflexivity.
Qed.

Lemma pop_last_nil : pop_last [] = None.
Proof. reflexivity. Qed.

Lemma serve_keeps_bound r (self : Invoker) (w : Buffers) :
  history_size self <= _undo_limit self ->
  history_size (serve r self w).1 <= _undo_limit (serve r self w).1 /\
  _undo_limit (serve r self w).1 = _undo_limit self.
Proof.
  unfold history_size. intros Hb. destruct r as [cmd| |]; simpl.
  - unfold invoker_run. destruct (execute cmd w) as [cmd' w'].
    destruct (_undo_limit self <? Z.of_nat (length (_undo_stack self ++ [cmd']))) eqn:Hl;
      simpl; (split; [|done]).
    + rewrite length_drop, length_app. simpl. lia.
    + apply Z.ltb_ge in Hl. lia.
  - unfold invoker_undo. destruct (pop_last (_undo_stack self)) as [[cmd stack]|] eqn:Hp.
    + apply pop_last_some in Hp. destruct (undo cmd w) as [cmd' w']. simpl.
      split; [|done]. rewrite Hp in Hb. rewrite !length_app in *. simpl in *. lia.
    + done.
  - unfold invoker_redo. destruct (pop_last (_redo_stack self)) as [[cmd stack]|] eqn:Hp.
    + apply pop_last_some in Hp. destruct (execute cmd w) as [cmd' w']. simpl.
      split; [|done]. rewrite Hp in Hb. rewrite !length_app in *. simpl in *. lia.
    + done.
Qed.

Lemma serve_all_keeps_bound rs : forall (self : Invoker) (w : Buffers),
  history_size self <= _undo_limit self ->
  history_size (serve_all rs self w).1 <= _undo_limit self /\
  _undo_limit (serve_all rs self w).1 = _undo_limit self.
Proof.
  unfold serve_all. induction rs as [|r rs IH]; intros self w Hb; [done|].
  simpl. destruct (serve_keeps_bound r self w Hb) as [Hb1 Hl1].
  destruct (serve r self w) as [self1 w1] eqn:Hs. simpl in *.
  destruct (IH self1 w1 Hb1) as [Hb2 Hl2]. rewrite <- Hl1. by split.
Qed.

Lemma insert_text_execute d b t p (w : Buffers) :
  execute (InsertTextC d b t p) w =
    (InsertTextC d b t (Some (cursor (w !!! b))), <[b := insert t (w !!! b)]> w).
Proof. reflexivity. Qed.

Lemma insert_text_undo d b t p (w : Buffers) :
  undo (InsertTextC d b t (Some p)) w =
    (InsertTextC d b t (Some p),
     <[b := (delete (len t) (move_cursor p (w !!! b)).2).2]> w).
Proof. reflexivity. Qed.

(** X15.  Whatever is asked of an invoker made by [Invoker(undo_limit)],
    in whatever order (run a command, undo, redo), the commands it
    holds on its two stacks together never number more than
    [max(1, undo_limit)]. *)
Theorem invoker_history_is_bounded :
  forall (undo_limit : Z) (rs : list request) (w : Buffers),
    history_size (serve_all rs (new_Invoker undo_limit) w).1 <= Z.max 1 undo_limit.
Proof.
  intros undo_limit rs w.
  apply (serve_all_keeps_bound rs (new_Invoker undo_limit) w).
  unfold history_size, new_Invoker. simpl. lia.
Qed.

(** X16.  With room for at least one command, [run] executes the
    command and leaves nothing to redo; an [undo] right after it
    returns [True] and undoes that very command, also when the history
    was full; a [redo] right after that returns [True], executes it
    again and leaves the stacks as long as they were after [run].  For
    an [InsertText] on a buffer whose cursor is inside its text, the
    [undo] gives every buffer back and the [redo] gives the buffers
    [run] had produced. *)
Theorem invoker_undoes_and_redoes_the_last_run :
  forall (self : Invoker) (w : Buffers) (cmd : Command),
    1 <= _undo_limit self ->
    let done := execute cmd w in
    let ran := invoker_run cmd self w in
    let undone := invoker_undo ran.1 ran.2 in
    let redone := invoker_redo undone.1.2 undone.2 in
    ran.2 = done.2 /\
    invoker_redo ran.1 ran.2 = (false, ran.1, ran.2) /\
    undone.1.1 = true /\
    undone.2 = (undo done.1 done.2).2 /\
    _redo_stack undone.1.2 = [(undo done.1 done.2).1] /\
    redone.1.1 = true /\
    redone.2 = (execute (undo done.1 done.2).1 undone.2).2 /\
    length (_undo_stack redone.1.2) = length (_undo_stack ran.1) /\
    _redo_stack redone.1.2 = [] /\
    (forall b t, cmd = InsertText b t -> cursor_in_text (w !!! b) ->
       (forall b', undone.2 !!! b' = w !!! b') /\
       (forall b', redone.2 !!! b' = ran.2 !!! b')).
Proof.
  intros self w cmd Hl done ran undone redone.
  destruct (execute cmd w) as [c1 w1] eqn:Hx.
  set (stack := let s := _undo_stack self ++ [c1] in
                if _undo_limit self <? Z.of_nat (length s) then drop 1 s else s).
  assert (Hran : ran = (mkInvoker stack [] (_undo_limit self), w1)).
  { unfold ran, invoker_run. by rewrite Hx. }
  assert (Hstack : exists front, stack = front ++ [c1]).
  { unfold stack. simpl.
    destruct (_undo_limit self <? Z.of_nat (length (_undo_stack self ++ [c1]))) eqn:Hlt.
    - apply Z.ltb_lt in Hlt.
      destruct (_undo_stack self) as [|x l]; simpl in *; [lia|]. by exists l.
    - by eexists. }
  destruct Hstack as [front Hfront].
  destruct (undo c1 w1) as [c2 w2] eqn:Hu.
  assert (Hundone : undone = (true, mkInvoker front [c2] (_undo_limit self), w2)).
  { unfold undone. rewrite Hran. unfold invoker_undo. simpl.
    by rewrite Hfront, pop_last_snoc, Hu. }
  destruct (execute c2 w2) as [c3 w3] eqn:Hr.
  assert (Hredone : redone = (true, mkInvoker (front ++ [c3]) [] (_undo_limit self), w3)).
  { unfold redone. rewrite Hundone. unfold invoker_redo, pop_last.
    cbn [_redo_stack _undo_stack _undo_limit rev app fst snd]. by rewrite Hr. }
  rewrite Hredone, Hundone, Hran. unfold done.
  cbn [fst snd _redo_stack _undo_stack]. rewrite Hu. cbn [fst snd]. rewrite Hr.
  do 9 (split; [first [reflexivity|by rewrite Hfront, !length_app]|]).
  intros b t -> Hc. unfold InsertText in Hx. rewrite insert_text_execute in Hx.
  injection Hx as <- <-. rewrite insert_text_undo in Hu.
  rewrite lookup_total_insert_eq, insert_then_remove in Hu by done.
  injection Hu as <- <-. rewrite insert_text_execute in Hr. injection Hr as _ <-.
  assert (Hw2 : forall b', <[b := w !!! b]> (<[b := insert t (w !!! b)]> w) !!! b' = w !!! b')
    by (by apply buffers_insert_twice_back).
  split; [exact Hw2|].
  intros b'. rewrite (Hw2 b), !insert_insert_eq. reflexivity.
Qed.

Lemma invoker_undoes_and_redoes_the_last_run_witness :
  let w : Buffers := {[ 0%nat := new_TextBuffer ]} in
  let ran := invoker_run (InsertText 0%nat "abc") (new_Invoker 100) w in
  let undone := invoker_undo ran.1 ran.2 in
  let redone := invoker_redo undone.1.2 undone.2 in
  text (ran.2 !!! 0%nat) = "abc" /\
  undone.1.1 = true /\ (forall b', undone.2 !!! b' = w !!! b') /\
  redone.1.1 = true /\ (forall b', redone.2 !!! b' = ran.2 !!! b').
Proof.
  intros w ran undone redone.
  destruct (invoker_undoes_and_redoes_the_last_run (new_Invoker 100) w (InsertText 0%nat "abc")
              ltac:(vm_compute; discriminate))
    as (_ & _ & Hu & _ & _ & Hr & _ & _ & _ & Hins).
  destruct (Hins 0%nat "abc" eq_refl ltac:(vm_compute; split; discriminate)) as [H1 H2].
  split; [reflexivity|]. split; [exact Hu|]. split; [exact H1|]. split; [exact Hr|exact H2].
Defined.

(** *** Undoing macros *)

Lemma same_buffers_insert (w w' : Buffers) b buf :
  same_buffers w w' -> same_buffers (<[b := buf]> w) (<[b := buf]> w').
Proof.
  intros Hw b'. destruct (decide (b = b')) as [->|Hne].
  - by rewrite !lookup_total_insert_eq.
  - by rewrite !lookup_total_insert_ne.
Qed.

Lemma execute_loop_reads_buffers_only items :
  Forall reads_buffers_only items ->
  forall k w w', same_buffers w w' ->
    (execute_loop items k w).1 = (execute_loop items k w').1 /\
    same_buffers (execute_loop items k w).2 (execute_loop items k w').2.
Proof.
  induction 1 as [|c items Hc _ IH]; intros k w w' Hw; [done|].
  simpl. destruct (Hc w w' Hw) as (H1 & H2 & _).
  destruct (execute c w) as [c1 w1], (execute c w') as [c1' w1']. simpl in *. subst c1'.
  destruct (IH (S k) w1 w1' H2) as [H3 H4].
  destruct (execute_loop items (S k) w1) as [[r n] w2],
           (execute_loop items (S k) w1') as [[r' n'] w2'].
  simpl in *. injection H3 as -> ->. done.
Qed.

Lemma undo_first_reads_buffers_only items :
  Forall reads_buffers_only items ->
  forall n w w', same_buffers w w' ->
    (undo_first items n w).1 = (undo_first items n w').1 /\
    same_buffers (undo_first items n w).2 (undo_first items n w').2.
Proof.
  induction 1 as [|c items Hc _ IH]; intros n w w' Hw; [by destruct n|].
  destruct n as [|n]; [done|]. simpl.
  destruct (IH n w w' Hw) as [H1 H2].
  destruct (undo_first items n w) as [r w1], (undo_first items n w') as [r' w1'].
  simpl in *. subst r'.
  destruct (Hc w1 w1' H2) as (_ & _ & H3 & H4).
  destruct (undo c w1) as [c1 w2], (undo c w1') as [c1' w2']. simpl in *. by subst c1'.
Qed.

Lemma commands_read_buffers_only (c : Command) : reads_buffers_only c.
Proof.
  induction c using command_ind; intros w w' Hw.
  - destruct p; simpl; rewrite ?(Hw b);
      repeat split; first [done|by apply same_buffers_insert].
  - simpl. rewrite ?(Hw b). repeat split; first [done|by apply same_buffers_insert].
  - destruct p; simpl; rewrite ?(Hw b);
      repeat split; first [done|by apply same_buffers_insert].
  - rewrite !execute_macro, !undo_macro.
    destruct (execute_loop_reads_buffers_only items H 0%nat w w' Hw) as [H1 H2].
    destruct (undo_first_reads_buffers_only items H n w w' Hw) as [H3 H4].
    destruct (execute_loop items 0 w) as [[r k] w1], (execute_loop items 0 w') as [[r' k'] w1'].
    destruct (undo_first items n w) as [u w2], (undo_first items n w') as [u' w2'].
    simpl in *. injection H1 as -> ->. by subst u'.
Qed.

Lemma execute_loop_count items : forall k w,
  (execute_loop items k w).1.2 = (k + length items)%nat /\
  length (execute_loop items k w).1.1 = length items.
Proof.
  induction items as [|c items IH]; intros k w; simpl; [split; [lia|done]|].
  destruct (execute c w) as [c1 w1]. specialize (IH (S k) w1).
  destruct (execute_loop items (S k) w1) as [[r n] w2]. simpl in *.
  destruct IH as [-> ->]. split; [lia|done].
Qed.

Lemma execute_loop_undone items :
  Forall keeps_buffers_ok items ->
  Forall undone_by_undo items ->
  forall k w, buffers_ok w ->
    same_buffers
      (undo_first (execute_loop items k w).1.1 (length items) (execute_loop items k w).2).2 w.
Proof.
  intros Hkeep. induction 1 as [|c items Hc _ IH]; intros k w Hw; [done|].
  apply Forall_cons in Hkeep as [Hk Hkeep]. specialize (IH Hkeep).
  simpl. pose proof (Hc w Hw) as Hcw. pose proof (proj1 (Hk w Hw)) as Hw1.
  destruct (execute c w) as [c1 w1]. simpl in Hcw, Hw1.
  specialize (IH (S k) w1 Hw1).
  destruct (execute_loop items (S k) w1) as [[r n] w2]. simpl in *.
  destruct (undo_first r (length items) w2) as [r' wa]. simpl in *.
  destruct (commands_read_buffers_only c1 wa w1 IH) as (_ & _ & _ & H4).
  destruct (undo c1 wa) as [c2 wb]. simpl in *.
  intros b. rewrite (H4 b). apply Hcw.
Qed.

Lemma insert_text_undone d b t p : undone_by_undo (InsertTextC d b t p).
Proof.
  intros w Hw. unfold undone_by_undo. rewrite insert_text_execute. cbn [fst snd].
  rewrite insert_text_undo. cbn [fst snd].
  rewrite lookup_total_insert_eq, insert_then_remove by apply Hw.
  intros b'. by apply buffers_insert_twice_back.
Qed.

Lemma move_cursor_undone d b t p : undone_by_undo (MoveCursorC d b t p).
Proof.
  intros w Hw. simpl. rewrite lookup_total_insert_eq. simpl.
  intros b'. apply buffers_insert_twice_back.
  specialize (Hw b). destruct (w !!! b) as [tx cu]. unfold cursor_in_text in Hw.
  simpl in *. f_equal. lia.
Qed.

Lemma macro_undone d items n :
  Forall keeps_buffers_ok items ->
  Forall undone_by_undo items ->
  undone_by_undo (MacroCommandC d items n).
Proof.
  intros Hkeep Hall w Hw. rewrite execute_macro.
  pose proof (execute_loop_undone items Hkeep Hall 0%nat w Hw) as Hu.
  pose proof (execute_loop_count items 0%nat w) as [Hn _].
  destruct (execute_loop items 0 w) as [[r k] w1]. cbn [fst snd] in *.
  rewrite Nat.add_0_l in Hn. subst k.
  rewrite undo_macro. by destruct (undo_first r (length items) w1).
Qed.

(** X17.  A command made of [InsertText], [MoveCursor] and macros of
    these, nested as one likes and in whatever state, in which every
    listed sub-command is an object of its own (no command object is
    listed twice, which is what the lists of this model express),
    executed on buffers whose cursors are inside their texts: an [undo]
    right after [execute] gives every buffer its text and its cursor
    back. *)
Theorem inserts_and_moves_are_undone :
  forall (c : Command) (w : Buffers),
    inserts_and_moves c ->
    buffers_ok w ->
    forall b, (undo (execute c w).1 (execute c w).2).2 !!! b = w !!! b.
Proof.
  intros c.
  assert (Hboth : keeps_buffers_ok c /\ (inserts_and_moves c -> undone_by_undo c)).
  { induction c as [d b t p|d b n s|d b t p|d items n IH] using command_ind.
    - split; [apply insert_text_keeps|intros _; apply insert_text_undone].
    - split; [apply delete_text_keeps|inversion 1].
    - split; [apply move_cursor_keeps|intros _; apply move_cursor_undone].
    - assert (Hkeep : Forall keeps_buffers_ok items)
        by (eapply Forall_impl; [exact IH|by intros x [Hx _]]).
      split; [by apply macro_keeps|].
      inversion 1 as [| |d' items' n' Hitems]; subst.
      apply macro_undone; [exact Hkeep|].
      rewrite Forall_forall in *. intros x Hx. by apply IH; [|apply Hitems]. }
  intros w Him Hw. exact (proj2 Hboth Him w Hw).
Qed.

Lemma inserts_and_moves_are_undone_witness :
  let w : Buffers := {[ 0%nat := mkTextBuffer "Hello" 2 ]} in
  let c := MacroCommand [InsertText 0%nat "abc"; MoveCursor 0%nat 0;
                         MacroCommand [InsertText 0%nat ">> "; MoveCursor 0%nat 99]] in
  text ((execute c w).2 !!! 0%nat) = ">> Heabcllo" /\
  (undo (execute c w).1 (execute c w).2).2 !!! 0%nat = mkTextBuffer "Hello" 2.
Proof.
  intros w c. split; [reflexivity|].
  apply (inserts_and_moves_are_undone c w).
  - repeat constructor.
  - intros b. destruct (decide (b = 0%nat)) as [->|Hne].
    + vm_compute. split; discriminate.
    + unfold w. rewrite lookup_total_singleton_ne by done. vm_compute. split; discriminate.
Defined.

End EditorProps.

(** ** The queued command bus, further *)
Module QueueProps.
Import QueuedBus QueueFacts QueueTerms.

(** *** [InMemoryQueue] *)

Lemma enqueue_all_q {C} (envs : list (CommandEnvelope C)) : forall q,
  enqueue_all envs q = mkQueue (_name q) (_q q ++ envs).
Proof.
  unfold enqueue_all. induction envs as [|env envs IH]; intros q; simpl.
  - rewrite app_nil_r. by destruct q.
  - rewrite IH. simpl. by rewrite <- app_assoc.
Qed.

Lemma dequeue_n_all {C} (envs : list (CommandEnvelope C)) name :
  dequeue_n (length envs) (mkQueue name envs) = (envs, mkQueue name []).
Proof.
  induction envs as [|env envs IH]; [done|].
  simpl. change (dequeue_n (length envs) _) with (dequeue_n (length envs) (mkQueue name envs)).
  by rewrite IH.
Qed.

(** X18.  The queue is first in, first out: after any envelopes are
    enqueued, as many [dequeue] calls as the queue is long return what
    was queued before followed by the new envelopes, each in the order
    of its [enqueue]; the queue is then empty, and one more [dequeue]
    raises [EmptyQueueError] (from the deque's [IndexError]) and leaves
    it empty. *)
Theorem queue_is_first_in_first_out :
  forall (C : Type) (q : InMemoryQueue C) (envs : list (CommandEnvelope C)),
    queue_len (enqueue_all envs q) = queue_len q + Z.of_nat (length envs) /\
    dequeue_n (Z.to_nat (queue_len (enqueue_all envs q))) (enqueue_all envs q) =
      (_q q ++ envs, mkQueue (_name q) []) /\
    dequeue (mkQueue (_name q) [] : InMemoryQueue C) =
      (Raise empty_queue_error, mkQueue (_name q) []).
Proof.
  intros C q envs. rewrite enqueue_all_q. unfold queue_len. simpl.
  rewrite length_app. split; [lia|]. split; [|reflexivity].
  rewrite Nat2Z.id, <- length_app. apply dequeue_n_all.
Qed.

(** *** [CommandWorker.poll_once] and [drain] *)
Section WorkerProps.
Context {W C : Type} `{!Methods W C}.
Variable repr : exn -> string.

Lemma poll_once_success (self : CommandWorker C) (w : W) env rest cmd' w' :
  _q (_queue self) = env :: rest ->
  execute (command env) w = (None, cmd', w') ->
  poll_once repr self w =
    (Return true, mkWorker (mkQueue (_name (_queue self)) rest) (_dead_letter self), w').
Proof.
  intros Hq Hx. unfold poll_once. by rewrite (dequeue_head _ _ _ Hq), Hx.
Qed.

Lemma poll_once_failure (self : CommandWorker C) (w : W) env rest exc cmd' w' :
  _q (_queue self) = env :: rest ->
  execute (command env) w = (Some exc, cmd', w') ->
  catches ExceptException exc = true ->
  let env' := mkEnvelope cmd' (retry_policy env) (attempts env + 1) (Some (repr exc)) in
  poll_once repr self w =
    if attempts env + 1 <=? max_retries (retry_policy env) then
      (Return true,
       mkWorker (mkQueue (_name (_queue self)) (rest ++ [env'])) (_dead_letter self), w')
    else
      (Return true,
       mkWorker (mkQueue (_name (_queue self)) rest) (_dead_letter self ++ [env']), w').
Proof.
  intros Hq Hx Hc env'. unfold poll_once. rewrite (dequeue_head _ _ _ Hq), Hx, Hc. simpl.
  by destruct (attempts env + 1 <=? max_retries (retry_policy env)).
Qed.

Lemma poll_once_interrupted (self : CommandWorker C) (w : W) env rest exc cmd' w' :
  _q (_queue self) = env :: rest ->
  execute (command env) w = (Some exc, cmd', w') ->
  catches ExceptException exc = false ->
  poll_once repr self w =
    (Raise exc, mkWorker (mkQueue (_name (_queue self)) rest) (_dead_letter self), w').
Proof.
  intros Hq Hx Hc. unfold poll_once. by rewrite (dequeue_head _ _ _ Hq), Hx, Hc.
Qed.

(** X19.  [poll_once] catches [Exception] only.  If the command at
    the head of the queue raises anything else (a [KeyboardInterrupt],
    say), the exception leaves [poll_once], and [drain] with it; the
    envelope has been taken off the queue and is neither queued again
    nor dead-lettered, and the envelopes behind it stay queued. *)
Theorem poll_once_loses_interrupted_envelope :
  forall (self : CommandWorker C) (w : W) env rest exc cmd' w',
    _q (_queue self) = env :: rest ->
    execute (command env) w = (Some exc, cmd', w') ->
    catches ExceptException exc = false ->
    let self' := mkWorker (mkQueue (_name (_queue self)) rest) (_dead_letter self) in
    poll_once repr self w = (Raise exc, self', w') /\
    forall max_steps, 1 <= max_steps ->
      drain repr max_steps self w = (Raise exc, self', w').
Proof.
  intros self w env rest exc cmd' w' Hq Hx Hc self'.
  pose proof (poll_once_interrupted self w env rest exc cmd' w' Hq Hx Hc) as Hp.
  split; [exact Hp|].
  intros max_steps Hm. unfold drain.
  destruct (Z.to_nat max_steps) as [|n] eqn:Hn; [lia|].
  simpl. by rewrite Hp.
Qed.

(** [drain] stops at the cap or at the empty queue. *)
Lemma poll_once_false (self : CommandWorker C) (w : W) self' w' :
  poll_once repr self w = (Return false, self', w') ->
  _q (_queue self) = [] /\ self' = self /\ w' = w.
Proof.
  intros Hp. destruct (_q (_queue self)) as [|env rest] eqn:Hq.
  - rewrite (poll_once_empty repr self w Hq) in Hp. by inversion Hp.
  - unfold poll_once in Hp. rewrite (dequeue_head _ _ _ Hq) in Hp.
    destruct (execute (command env) w) as [[[exc|] cmd'] w1]; [|discriminate].
    destruct (catches ExceptException exc); [|discriminate].
    simpl in Hp. destruct (_ <=? _); discriminate.
Qed.

Lemma drain_loop_stops n : forall (p0 : Z) (self : CommandWorker C) (w : W) p d self' w',
  drain_loop repr n p0 self w = (Return (p, d), self', w') ->
  p0 <= p <= p0 + Z.of_nat n /\
  d = Z.of_nat (length (_dead_letter self')) /\
  (p < p0 + Z.of_nat n -> _q (_queue self') = []) /\
  exists new, _dead_letter self' = _dead_letter self ++ new.
Proof.
  induction n as [|n IH]; intros p0 self w p d self' w' Hd.
  - simpl in Hd. inversion Hd; subst. repeat split; try lia.
    exists []. by rewrite app_nil_r.
  - simpl in Hd. destruct (poll_once repr self w) as [[[[|]|exc] self1] w1] eqn:Hp;
      [| |discriminate].
    + destruct (IH _ _ _ _ _ _ _ Hd) as (Hb & Hdl & He & new & Hnew).
      destruct (poll_once_step repr _ _ _ _ _ Hp) as [(new1 & Hd1 & _) _].
      repeat split; try lia.
      * intros Hlt. apply He. lia.
      * exists (new1 ++ new). by rewrite Hnew, Hd1, app_assoc.
    + inversion Hd; subst.
      destruct (poll_once_false _ _ _ _ Hp) as (Hq & -> & ->).
      repeat split; try lia; [done|]. exists []. by rewrite app_nil_r.
Qed.

(** X20.  When [drain(max_steps)] returns [(processed, dead)], then
    [0 <= processed <= max(0, max_steps)], [dead] is the length of the
    dead-letter store, which has only grown at its end, and [drain]
    has stopped short of the cap only because the queue was empty. *)
Theorem drain_stops_at_cap_or_empty_queue :
  forall (max_steps : Z) (self : CommandWorker C) (w : W) processed dead self' w',
    drain repr max_steps self w = (Return (processed, dead), self', w') ->
    0 <= processed <= Z.max 0 max_steps /\
    dead = Z.of_nat (length (_dead_letter self')) /\
    (processed < max_steps -> _q (_queue self') = []) /\
    exists new, _dead_letter self' = _dead_letter self ++ new.
Proof.
  intros max_steps self w processed dead self' w' Hd. unfold drain in Hd.
  destruct (drain_loop_stops _ _ _ _ _ _ _ _ Hd) as (Hb & Hdl & He & Hnew).
  repeat split; try lia; [|done].
  intros Hlt. apply He. lia.
Qed.
End WorkerProps.

Lemma poll_once_loses_interrupted_envelope_witness :
  let self : CommandWorker Interrupted :=
    send mkInterrupted None (send mkInterrupted None (new_worker (new_queue "q"))) in
  let exc := PyExn (BaseOnly "KeyboardInterrupt") "" None in
  let self' := mkWorker (mkQueue "q" [mkEnvelope mkInterrupted default_policy 0 None]) [] in
  poll_once exn_msg self tt = (Raise exc, self', tt) /\
  drain exn_msg 1000 self tt = (Raise exc, self', tt).
Proof.
  intros self exc self'.
  destruct (@poll_once_loses_interrupted_envelope unit Interrupted interrupted_methods
              exn_msg self tt
              (mkEnvelope mkInterrupted default_policy 0 None)
              [mkEnvelope mkInterrupted default_policy 0 None] exc mkInterrupted tt
              eq_refl eq_refl eq_refl) as [Hp Hd].
  split; [exact Hp|]. apply Hd. lia.
Defined.

Lemma drain_stops_at_cap_or_empty_queue_witness :
  let self : CommandWorker AlwaysFail :=
    send mkAlwaysFail (Some (mkRetryPolicy 0 0)) (new_worker (new_queue "q")) in
  let r := drain exn_msg 5 self tt in
  r.1.1 = Return (1, 1) /\ _q (_queue r.1.2) = [].
Proof.
  intros self r.
  destruct (@drain_stops_at_cap_or_empty_queue unit AlwaysFail always_fail_methods
              exn_msg 5 self tt 1 1
              r.1.2 r.2 eq_refl)
    as (_ & _ & He & _).
  split; [reflexivity|]. apply He. lia.
Defined.

(** *** [drain] empties the queue *)
Section DrainEmpties.
Context {W C : Type} `{!Methods W C}.
Variable repr : exn -> string.
Hypothesis only_exceptions : raises_only_exceptions W C.

Lemma polls_left_pos (env : CommandEnvelope C) : (1 <= polls_left env)%nat.
Proof. unfold polls_left. lia. Qed.

Lemma polls_left_all_app (q1 q2 : list (CommandEnvelope C)) :
  polls_left_all (q1 ++ q2) = (polls_left_all q1 + polls_left_all q2)%nat.
Proof. induction q1 as [|env q1 IH]; simpl; [done|]. rewrite IH. lia. Qed.

Lemma poll_once_uses_a_poll (self : CommandWorker C) (w : W) env rest :
  _q (_queue self) = env :: rest ->
  exists self' w',
    poll_once repr self w = (Return true, self', w') /\
    (polls_left_all (_q (_queue self')) < polls_left_all (_q (_queue self)))%nat.
Proof.
  intros Hq. rewrite Hq. simpl. pose proof (polls_left_pos env) as Hpos.
  destruct (execute (command env) w) as [[[exc|] cmd'] w'] eqn:Hx.
  - pose proof (only_exceptions _ _ _ _ _ Hx) as Hc.
    rewrite (poll_once_failure repr self w env rest exc cmd' w' Hq Hx Hc).
    destruct (attempts env + 1 <=? max_retries (retry_policy env)) eqn:Hle.
    + apply Z.leb_le in Hle. do 2 eexists. split; [reflexivity|]. simpl.
      rewrite polls_left_all_app. simpl. unfold polls_left. simpl. lia.
    + do 2 eexists. split; [reflexivity|]. simpl. lia.
  - rewrite (poll_once_success repr self w env rest cmd' w' Hq Hx).
    do 2 eexists. split; [reflexivity|]. simpl. lia.
Qed.

Lemma polls_left_all_zero (q : list (CommandEnvelope C)) :
  polls_left_all q = 0%nat -> q = [].
Proof.
  destruct q as [|env q]; [done|]. simpl. pose proof (polls_left_pos env). lia.
Qed.

Lemma drain_loop_empties n : forall (p0 : Z) (self : CommandWorker C) (w : W),
  (polls_left_all (_q (_queue self)) <= n)%nat ->
  exists p d self' w',
    drain_loop repr n p0 self w = (Return (p, d), self', w') /\
    _q (_queue self') = [] /\
    p0 <= p <= p0 + Z.of_nat (polls_left_all (_q (_queue self))).
Proof.
  induction n as [|n IH]; intros p0 self w Hn.
  - simpl. do 4 eexists. split; [reflexivity|].
    split; [apply polls_left_all_zero; lia|lia].
  - simpl. destruct (_q (_queue self)) as [|env rest] eqn:Hq.
    + rewrite (poll_once_empty repr self w Hq). do 4 eexists.
      split; [reflexivity|]. split; [done|simpl; lia].
    + destruct (poll_once_uses_a_poll self w env rest Hq) as (self1 & w1 & Hp & Hlt).
      rewrite Hp. rewrite Hq in Hlt.
      destruct (IH (p0 + 1) self1 w1 ltac:(lia)) as (p & d & self' & w' & Hd & He & Hb).
      exists p, d, self', w'. split; [exact Hd|]. split; [exact He|]. lia.
Qed.

(** X21.  If the commands raise nothing but [Exception]s, and
    [max_steps] is at least the number of polls the queued envelopes
    can still take (for each one, one poll plus one per retry it has
    left), then [drain(max_steps)] returns with the queue empty, and
    has processed no more than that number. *)
Theorem drain_empties_the_queue :
  forall (max_steps : Z) (self : CommandWorker C) (w : W),
    Z.of_nat (polls_left_all (_q (_queue self))) <= max_steps ->
    exists processed dead self' w',
      drain repr max_steps self w = (Return (processed, dead), self', w') /\
      _q (_queue self') = [] /\
      0 <= processed <= Z.of_nat (polls_left_all (_q (_queue self))).
Proof.
  intros max_steps self w Hm. unfold drain.
  apply (drain_loop_empties (Z.to_nat max_steps) 0 self w). lia.
Qed.
End DrainEmpties.

Lemma send_email_raises_only_exceptions : raises_only_exceptions Services SendEmailCommand.
Proof.
  intros c w exc c' w'. simpl. unfold email_send.
  destruct (String.eqb (_to c) EmptyString); [by intros [= <- _ _]|].
  destruct (_ <? _); [by intros [= <- _ _]|discriminate].
Qed.

Lemma drain_empties_the_queue_witness :
  let w : Services := {[ 0%nat := new_EmailService 120 ]} in
  let self :=
    send (new_SendEmailCommand 0%nat "u@example.com" "Hello" "B") None
      (send (new_SendEmailCommand 0%nat EmptyString "S" "B") None
         (new_worker (new_queue "q"))) in
  exists processed dead self' w',
    drain exn_msg 1000 self w = (Return (processed, dead), self', w') /\
    _q (_queue self') = [] /\ 0 <= processed <= 8.
Proof.
  intros w self.
  apply (drain_empties_the_queue exn_msg send_email_raises_only_exceptions 1000 self w).
  vm_compute. discriminate.
Defined.

(** *** A command that always fails *)
Section RetryExhaustion.
Context {W C : Type} `{!Methods W C}.
Variable repr : exn -> string.
Variable Inv : C -> W -> Prop.
Hypothesis Hfails : always_fails Inv.
Variable p : RetryPolicy.
Variable name : string.

Lemma failing_poll (c : C) (w : W) a le :
  Inv c w ->
  exists exc c' w',
    Inv c' w' /\
    poll_once repr (mkWorker (mkQueue name [mkEnvelope c p a le]) []) w =
      if a + 1 <=? max_retries p then
        (Return true,
         mkWorker (mkQueue name [mkEnvelope c' p (a + 1) (Some (repr exc))]) [], w')
      else
        (Return true,
         mkWorker (mkQueue name []) [mkEnvelope c' p (a + 1) (Some (repr exc))], w').
Proof.
  intros Hi. destruct (Hfails c w Hi) as (exc & c' & w' & Hx & Hc & Hi').
  exists exc, c', w'. split; [exact Hi'|].
  by rewrite (poll_once_failure repr (mkWorker (mkQueue name [mkEnvelope c p a le]) []) w
                (mkEnvelope c p a le) [] exc c' w' eq_refl Hx Hc).
Qed.

Lemma failing_polls_requeue k : forall (c : C) (w : W) a le,
  Inv c w ->
  a + Z.of_nat k <= Z.max a (max_retries p) ->
  exists c' w' le',
    Inv c' w' /\
    poll_times repr k (mkWorker (mkQueue name [mkEnvelope c p a le]) []) w =
      (mkWorker (mkQueue name [mkEnvelope c' p (a + Z.of_nat k) le']) [], w') /\
    forall n p0,
      drain_loop repr (k + n) p0 (mkWorker (mkQueue name [mkEnvelope c p a le]) []) w =
      drain_loop repr n (p0 + Z.of_nat k)
        (mkWorker (mkQueue name [mkEnvelope c' p (a + Z.of_nat k) le']) []) w'.
Proof.
  induction k as [|k IH]; intros c w a le Hi Hk.
  - exists c, w, le. split; [done|]. rewrite !Z.add_0_r. split; [done|].
    intros n p0. by rewrite Z.add_0_r.
  - destruct (failing_poll c w a le Hi) as (exc & c1 & w1 & Hi1 & Hp).
    assert (Hle : (a + 1 <=? max_retries p) = true) by (apply Z.leb_le; lia).
    rewrite Hle in Hp.
    destruct (IH c1 w1 (a + 1) (Some (repr exc)) Hi1 ltac:(lia))
      as (c' & w' & le' & Hi' & Hpt & Hdl).
    exists c', w', le'. split; [exact Hi'|].
    replace (a + Z.of_nat (S k)) with (a + 1 + Z.of_nat k) by lia. split.
    + simpl. by rewrite Hp.
    + intros n p0. simpl. rewrite Hp, Hdl. f_equal. lia.
Qed.

(** X22.  A command that always fails, sent alone with the policy
    [max_retries = N], is polled [1 + max(0, N)] times: before the
    last of these polls its envelope is the only one queued, with
    [attempts] equal to the number of polls so far, and nothing is
    dead-lettered; the last poll moves it to the dead-letter store
    with [attempts = 1 + max(0, N)] and the last error recorded.  A
    [drain] of at least that many steps returns
    [(1 + max(0, N), 1)] and leaves the queue empty. *)
Theorem failing_command_uses_up_its_retries :
  forall (c : C) (w : W),
    Inv c w ->
    let s0 := send c (Some p) (new_worker (new_queue name)) in
    let polls := S (Z.to_nat (max_retries p)) in
    (forall k, (k < polls)%nat ->
       exists env,
         (poll_times repr k s0 w).1 = mkWorker (mkQueue name [env]) [] /\
         attempts env = Z.of_nat k /\ retry_policy env = p) /\
    (exists env,
       (poll_times repr polls s0 w).1 = mkWorker (mkQueue name []) [env] /\
       attempts env = 1 + Z.max 0 (max_retries p) /\ retry_policy env = p /\
       is_Some (last_error env)) /\
    (forall max_steps, 1 + Z.max 0 (max_retries p) <= max_steps ->
       exists s' w',
         drain repr max_steps s0 w = (Return (1 + Z.max 0 (max_retries p), 1), s', w') /\
         _q (_queue s') = []).
Proof.
  intros c w Hi s0 polls.
  assert (Hs0 : s0 = mkWorker (mkQueue name [mkEnvelope c p 0 None]) []) by reflexivity.
  rewrite Hs0. split; [|split].
  - intros k Hk.
    destruct (failing_polls_requeue k c w 0 None Hi ltac:(unfold polls in Hk; lia))
      as (c' & w' & le' & _ & Hpt & _).
    rewrite Hpt. eexists. split; [reflexivity|]. simpl. split; [lia|done].
  - destruct (failing_polls_requeue (Z.to_nat (max_retries p)) c w 0 None Hi ltac:(lia))
      as (c' & w' & le' & Hi' & Hpt & _).
    destruct (failing_poll c' w' (0 + Z.of_nat (Z.to_nat (max_retries p))) le' Hi')
      as (exc & c2 & w2 & _ & Hp).
    assert (Hle : (0 + Z.of_nat (Z.to_nat (max_retries p)) + 1 <=? max_retries p) = false)
      by (apply Z.leb_gt; lia).
    rewrite Hle in Hp.
    assert (Hlast : poll_times repr polls (mkWorker (mkQueue name [mkEnvelope c p 0 None]) []) w =
                    (mkWorker (mkQueue name [])
                       [mkEnvelope c2 p (0 + Z.of_nat (Z.to_nat (max_retries p)) + 1)
                          (Some (repr exc))], w2)).
    { unfold polls. replace (S (Z.to_nat (max_retries p)))
        with (Z.to_nat (max_retries p) + 1)%nat by lia.
      clear -Hpt Hp. revert Hpt. generalize (mkWorker (mkQueue name [mkEnvelope c p 0 None]) []).
      generalize (Z.to_nat (max_retries p)) at 1 3. intros k. revert w.
      induction k as [|k IH]; intros w s Hpt.
      - simpl in *. inversion Hpt; subst. by rewrite Hp.
      - simpl in *. destruct (poll_once repr s w) as [[r s1] w1]. by apply IH. }
    rewrite Hlast. eexists. split; [reflexivity|]. simpl. repeat split; [lia|eauto].
  - intros max_steps Hm.
    destruct (failing_polls_requeue (Z.to_nat (max_retries p)) c w 0 None Hi ltac:(lia))
      as (c' & w' & le' & Hi' & _ & Hdl).
    destruct (failing_poll c' w' (0 + Z.of_nat (Z.to_nat (max_retries p))) le' Hi')
      as (exc & c2 & w2 & _ & Hp).
    assert (Hle : (0 + Z.of_nat (Z.to_nat (max_retries p)) + 1 <=? max_retries p) = false)
      by (apply Z.leb_gt; lia).
    rewrite Hle in Hp. unfold drain.
    replace (Z.to_nat max_steps)
      with (Z.to_nat (max_retries p) + S (Z.to_nat max_steps - polls))%nat
      by (unfold polls; lia).
    rewrite Hdl. cbn [drain_loop]. rewrite Hp.
    assert (Hnum : 0 + Z.of_nat (Z.to_nat (max_retries p)) + 1 = 1 + Z.max 0 (max_retries p))
      by lia.
    destruct (Z.to_nat max_steps - polls)%nat; cbn [drain_loop];
      rewrite ?(poll_once_empty repr _ w2 eq_refl), Hnum;
      do 2 eexists; (split; [reflexivity|reflexivity]).
Qed.
End RetryExhaustion.

Lemma failing_command_uses_up_its_retries_witness :
  let s0 : CommandWorker AlwaysFail :=
    send mkAlwaysFail (Some (mkRetryPolicy 2 1)) (new_worker (new_queue "q")) in
  (exists env,
     (poll_times exn_msg 2 s0 tt).1 = mkWorker (mkQueue "q" [env]) [] /\ attempts env = 2) /\
  (exists env,
     (poll_times exn_msg 3 s0 tt).1 = mkWorker (mkQueue "q" []) [env] /\ attempts env = 3) /\
  (exists s' w', drain exn_msg 1000 s0 tt = (Return (3, 1), s', w') /\ _q (_queue s') = []).
Proof.
  intros s0.
  assert (Hfails : always_fails (W:=unit) (C:=AlwaysFail) (fun _ _ => True)).
  { intros c w _. exists (PyExn RuntimeError "boom" None), c, w. by repeat split. }
  destruct (@failing_command_uses_up_its_retries unit AlwaysFail always_fail_methods exn_msg
              (fun _ _ => True) Hfails (mkRetryPolicy 2 1) "q" mkAlwaysFail tt I)
    as (Hq & (env & Hd & Ha & _) & Hdr).
  split; [|split].
  - destruct (Hq 2%nat ltac:(simpl; lia)) as (env2 & H2 & Ha2 & _). by exists env2.
  - by exists env.
  - apply Hdr. simpl. lia.
Defined.

(** *** [EmailService] behind the bus *)
Section EmailDelivery.
Variable repr : exn -> string.

Lemma undeliverable_fails (w : Services) (cmd : SendEmailCommand) :
  ~ deliverable (w !!! _service cmd) (_to cmd) (_subject cmd) ->
  exists msg, execute cmd w = (Some (PyExn ValueError msg None), cmd, w).
Proof.
  intros Hn. simpl. unfold email_send.
  destruct (String.eqb (_to cmd) EmptyString) eqn:Hto; [eauto|].
  destruct (_max_len (w !!! _service cmd) <? Z.of_nat (String.length (_subject cmd))) eqn:Hlen;
    [eauto|].
  exfalso. apply Hn. split.
  - intros Heq. rewrite Heq in Hto. discriminate.
  - by apply Z.ltb_ge.
Qed.

Lemma undeliverable_never_sent (w : Services) (cmd : SendEmailCommand) n :
  ~ deliverable (w !!! _service cmd) (_to cmd) (_subject cmd) ->
  forall self : CommandWorker SendEmailCommand,
    Forall (fun env => command env = cmd) (_q (_queue self)) ->
    (poll_times repr n self w).2 = w.
Proof.
  intros Hn. destruct (undeliverable_fails w cmd Hn) as [msg Hx].
  induction n as [|n IH]; intros self Hall; [done|].
  simpl. destruct (_q (_queue self)) as [|env rest] eqn:Hq.
  - rewrite (poll_once_empty repr self w Hq). apply IH. by rewrite Hq.
  - apply Forall_cons in Hall as [Hhead Hrest].
    assert (Hx' : execute (command env) w = (Some (PyExn ValueError msg None), command env, w))
      by (by rewrite Hhead).
    rewrite (poll_once_failure repr self w env rest _ _ _ Hq Hx' eq_refl).
    destruct (attempts env + 1 <=? max_retries (retry_policy env)); apply IH; simpl.
    + apply Forall_app. split; [done|]. by constructor.
    + done.
Qed.

(** X23.  A [SendEmailCommand] sent through the bus.  If the service
    accepts the e-mail (a recipient, a subject within [max_len]), one
    [poll_once] puts exactly this e-mail at the end of the outbox and
    leaves the queue and the dead-letter store empty.  If not, then
    however often the worker polls and whatever the retry policy, the
    services are left exactly as they were: nothing is ever sent. *)
Theorem email_is_delivered_once_or_never :
  forall (w : Services) (service : nat) (to subject body : string)
         (policy : option RetryPolicy) (name : string),
    let cmd := new_SendEmailCommand service to subject body in
    let s0 := send cmd policy (new_worker (new_queue name)) in
    (deliverable (w !!! service) to subject ->
     poll_once repr s0 w =
       (Return true, new_worker (new_queue name),
        <[service := mkEmailService (_max_len (w !!! service))
                       (outbox (w !!! service) ++ [(to, subject, body)])]> w)) /\
    (~ deliverable (w !!! service) to subject ->
     forall n, (poll_times repr n s0 w).2 = w).
Proof.
  intros w service to subject body policy name cmd s0. split.
  - intros [Hto Hlen].
    apply (poll_once_success repr s0 w
             (mkEnvelope cmd (default default_policy policy) 0 None) [] cmd); [done|].
    simpl. unfold email_send. simpl.
    destruct (String.eqb to EmptyString) eqn:Heq; [by apply String.eqb_eq in Heq|].
    destruct (_ <? _) eqn:Hlt; [apply Z.ltb_lt in Hlt; lia|done].
  - intros Hn n. apply (undeliverable_never_sent w cmd n Hn).
    simpl. by constructor.
Qed.
End EmailDelivery.

End QueueProps.
